(** * Project Pricer: ingestion adapter and price-comparison engine

    A shallow embedding of [app.py].  Python floats (and the float64 cells
    of the pandas table) are Rocq's primitive binary64 floats, so every
    product, sum, quotient and comparison below rounds exactly as the
    program's does.  Exceptions are an explicit error value; the pandas
    table is a finite map from column names to columns.

    What is taken from the libraries rather than from [app.py]:
    - the values of a parsed JSON object are Python [int]s, [float]s and
      [str]s; [pd.DataFrame] gives a column of integers the dtype int64,
      a column of numbers with a float or a missing cell float64, and a
      column with a string [object];
    - int64 columns are multiplied and summed modulo 2^64; float64
      columns in binary64; [object] columns cell by cell with Python's
      [*] and [+], which raise [TypeError] on a string and a number;
    - [Series.sum()] skips NaN cells and adds the others as NumPy does:
      in row order for fewer than 8 rows, with eight running sums that
      are combined in pairs from 8 rows on (the sum starts from [-0.0],
      as in current NumPy; with the older start value [0.0] the result
      differs only where every addend is [-0.0]);
    - PyMuPDF is an interface ([Fitz]) whose operations may raise;
    - the completion request, [json.loads] and the table editor are an
      interface ([Backend]); the parsed response is read as its two
      lists, each of which may be missing;
    - an f-string field [:.2f] prints the hundredth nearest to the exact
      value of the float, an exact tie going to the even one;
    - of Streamlit, the elements drawn are recorded in the order of the
      calls; static headings and the widgets that are only read are left
      out. *)

From Stdlib Require Import Floats ZArith List String Ascii Bool Lia.
From Stdlib.Strings Require Import Byte.
From Stdlib Require Import DecimalString.
From stdpp Require Import gmap strings list.
Import ListNotations.

Local Open Scope string_scope.
Set Warnings "-inexact-float".

(** ** Exceptions *)

(** The exceptions the modelled code can raise: a missing table column
    ([KeyError]), an operator applied to a string and a number
    ([TypeError]), an integer too large for a float ([OverflowError]),
    and whatever the PDF library raises on a document or a page it
    cannot read. *)
Inductive exn : Type :=
  | KeyError (key : string)
  | TypeError (msg : string)
  | OverflowError (msg : string)
  | FileDataError (msg : string)
  | RuntimeError (msg : string).

Inductive result (A : Type) : Type :=
  | Ok (a : A)
  | Raise (e : exn).
Arguments Ok {A} a.
Arguments Raise {A} e.

#[global] Instance result_ret : MRet result := @Ok.
#[global] Instance result_bind : MBind result := λ A B f m,
  match m with
  | Ok a => f a
  | Raise e => Raise e
  end.

Definition is_Ok {A} (r : result A) : bool :=
  match r with Ok _ => true | Raise _ => false end.

(** ** Python numbers and strings *)

(** What [json.loads] makes of a JSON number or string, and what a cell
    of an [object] column holds: an [int] (unbounded), a [float]
    (binary64) or a [str]. *)
Inductive pyobj : Type :=
  | PInt (n : Z)
  | PFloat (x : float)
  | PStr (s : string).

(** The binary64 float nearest to an integer, ties to even: the value of
    [float(n)], and of an int64 cast to float64. *)
Definition float_of_Z (n : Z) : float :=
  SF2Prim (binary_normalize prec emax n 0 false).

(** [float(n)] for a Python [int]: it raises where the nearest float
    would be infinite.  Python converts this way when an [int] meets a
    [float] in [*] or [+]. *)
Definition py_float (n : Z) : result float :=
  if (Z.abs n <? 2 ^ 1024 - 2 ^ 970)%Z then Ok (float_of_Z n)
  else Raise (OverflowError "int too large to convert to float").

Definition type_name (o : pyobj) : string :=
  match o with
  | PInt _ => "int"
  | PFloat _ => "float"
  | PStr _ => "str"
  end.

Definition double_quote : string := String "034"%char "".

Fixpoint str_repeat (n : nat) (s : string) : string :=
  match n with
  | O => ""
  | S n => s +:+ str_repeat n s
  end.

(** [a * b].  A string times an integer is the string repeated (the
    empty string for a count below 1); a string times anything else is
    a [TypeError]. *)
Definition py_mul (a b : pyobj) : result pyobj :=
  match a, b with
  | PInt m, PInt n => Ok (PInt (m * n))
  | PInt m, PFloat y => x ← py_float m; Ok (PFloat (x * y))
  | PFloat x, PInt n => y ← py_float n; Ok (PFloat (x * y))
  | PFloat x, PFloat y => Ok (PFloat (x * y))
  | PStr s, PInt n | PInt n, PStr s => Ok (PStr (str_repeat (Z.to_nat n) s))
  | PStr _, o | o, PStr _ =>
      Raise (TypeError ("can't multiply sequence by non-int of type '"
                        +:+ type_name o +:+ "'"))
  end.

(** [a + b].  Two strings are concatenated; a string and a number are a
    [TypeError]. *)
Definition py_add (a b : pyobj) : result pyobj :=
  match a, b with
  | PInt m, PInt n => Ok (PInt (m + n))
  | PInt m, PFloat y => x ← py_float m; Ok (PFloat (x + y))
  | PFloat x, PInt n => y ← py_float n; Ok (PFloat (x + y))
  | PFloat x, PFloat y => Ok (PFloat (x + y))
  | PStr s, PStr t => Ok (PStr (s +:+ t))
  | PStr _, o =>
      Raise (TypeError ("can only concatenate str (not " +:+ double_quote
                        +:+ type_name o +:+ double_quote +:+ ") to str"))
  | o, PStr _ =>
      Raise (TypeError ("unsupported operand type(s) for +: '"
                        +:+ type_name o +:+ "' and 'str'"))
  end.

(** ** NumPy's sum of a float64 array *)

(** [np.add.reduce] on a contiguous float64 array (NumPy's
    [DOUBLE_pairwise_sum]).  Fewer than 8 numbers are added in order,
    starting from [-0.0].  From 8 numbers on, eight running sums take
    the numbers in turn, eight at a time; the eight are then combined as
    [((r0 + r1) + (r2 + r3)) + ((r4 + r5) + (r6 + r7))] and the at most 7
    numbers left over are added in order.  Above 128 numbers the array is
    cut in two near the middle, at a multiple of 8, and the sums of the
    two parts are added.  The result is added to the start value [-0.0];
    an empty array sums to [0.0]. *)
Definition neg_zero : float := (-0)%float.

Fixpoint accumulate8 (r0 r1 r2 r3 r4 r5 r6 r7 : float) (a : list float)
  : float :=
  match a with
  | a0 :: a1 :: a2 :: a3 :: a4 :: a5 :: a6 :: a7 :: rest =>
      accumulate8 (r0 + a0) (r1 + a1) (r2 + a2) (r3 + a3)
                  (r4 + a4) (r5 + a5) (r6 + a6) (r7 + a7) rest
  | _ =>
      fold_left PrimFloat.add a
        (((r0 + r1) + (r2 + r3)) + ((r4 + r5) + (r6 + r7)))
  end%float.

Definition pairwise_block (a : list float) : float :=
  match a with
  | a0 :: a1 :: a2 :: a3 :: a4 :: a5 :: a6 :: a7 :: rest =>
      accumulate8 a0 a1 a2 a3 a4 a5 a6 a7 rest
  | _ => fold_left PrimFloat.add a neg_zero
  end.

(** [fuel] bounds the depth of the halving; the length of the array is
    more than enough. *)
Fixpoint pairwise_sum (fuel : nat) (a : list float) : float :=
  match fuel with
  | S fuel =>
      if (128 <? length a)%nat then
        let n2 := (length a / 2)%nat in
        let n2 := (n2 - n2 mod 8)%nat in
        (pairwise_sum fuel (take n2 a) + pairwise_sum fuel (drop n2 a))%float
      else pairwise_block a
  | O => pairwise_block a
  end.

Definition np_sum (a : list float) : float :=
  match a with
  | [] => 0%float
  | _ => (neg_zero + pairwise_sum (length a) a)%float
  end.

(** ** The pandas table *)

(** A column ([pd.Series]) has one of three dtypes: [int64] (the cells
    are integers from [-2^63] to [2^63 - 1], and arithmetic wraps around),
    [float64], or [object] (the cells are Python values; a missing one is
    NaN). *)
Inductive Series : Type :=
  | Int64 (cells : list Z)
  | Float64 (cells : list float)
  | Object (cells : list pyobj).

Abbreviation DataFrame := (gmap string Series).

Definition wrap64 (n : Z) : Z := ((n + 2 ^ 63) mod 2 ^ 64 - 2 ^ 63)%Z.

(** The cells as Python values ([astype(object)]). *)
Definition astype_object (s : Series) : list pyobj :=
  match s with
  | Int64 cells => PInt <$> cells
  | Float64 cells => PFloat <$> cells
  | Object cells => cells
  end.

Definition isna (o : pyobj) : bool :=
  match o with
  | PFloat x => PrimFloat.is_nan x
  | _ => false
  end.

(** Arithmetic on [object] columns (pandas' [_na_arithmetic_op]): the
    operator is applied cell by cell; if that raises a [TypeError], it is
    applied again to the rows where neither cell is missing
    ([_masked_arith_op]), the other rows getting NaN. *)
Definition masked_arith_op (op : pyobj → pyobj → result pyobj)
    (a b : list pyobj) : result (list pyobj) :=
  mapM (λ p, if isna p.1 || isna p.2 then Ok (PFloat nan) else op p.1 p.2)
       (zip a b).

Definition na_arithmetic_op (op : pyobj → pyobj → result pyobj)
    (a b : list pyobj) : result (list pyobj) :=
  match mapM (λ p, op p.1 p.2) (zip a b) with
  | Raise (TypeError _) => masked_arith_op op a b
  | r => r
  end.

(** [a * b] for two columns.  int64 times int64 wraps around; an int64
    column that meets a float64 column is cast to float64; an [object]
    column makes the product an [object] column. *)
Definition Series_mul (a b : Series) : result Series :=
  match a, b with
  | Int64 x, Int64 y => Ok (Int64 (zip_with (λ m n, wrap64 (m * n)) x y))
  | Int64 x, Float64 y =>
      Ok (Float64 (zip_with (λ m v, float_of_Z m * v)%float x y))
  | Float64 x, Int64 y =>
      Ok (Float64 (zip_with (λ u n, u * float_of_Z n)%float x y))
  | Float64 x, Float64 y => Ok (Float64 (zip_with PrimFloat.mul x y))
  | _, _ =>
      cells ← na_arithmetic_op py_mul (astype_object a) (astype_object b);
      Ok (Object cells)
  end.

(** What a sum returns: an [np.int64], or a Python value ([np.float64]
    is a Python [float]). *)
Inductive scalar : Type :=
  | np_int64 (n : Z)
  | py (o : pyobj).

(** [Series.sum()] with its default [skipna=True]: NaN cells are replaced
    by zero, then NumPy adds: int64 cells with wrap-around, float64
    cells as [np_sum] does, [object] cells with Python's [+] from the
    first cell on (0 for no cell). *)
Definition skipna (x : float) : float :=
  if PrimFloat.is_nan x then 0%float else x.

Definition Series_sum (s : Series) : result scalar :=
  match s with
  | Int64 cells => Ok (np_int64 (wrap64 (fold_left Z.add cells 0%Z)))
  | Float64 cells => Ok (py (PFloat (np_sum (skipna <$> cells))))
  | Object cells =>
      match (λ o, if isna o then PInt 0 else o) <$> cells with
      | [] => Ok (py (PInt 0))
      | o :: rest =>
          total ← fold_left (λ acc x, a ← acc; py_add a x) rest (Ok o);
          Ok (py total)
      end
  end.

(** [s * t] and [s + y] for a sum [s] and floats [t] and [y] (lines
    128-132): the sum is converted to a float first. *)
Definition scalar_mul (s : scalar) (t : float) : result float :=
  match s with
  | np_int64 n => Ok (float_of_Z n * t)%float
  | py (PInt n) => x ← py_float n; Ok (x * t)%float
  | py (PFloat x) => Ok (x * t)%float
  | py (PStr _) =>
      Raise (TypeError "can't multiply sequence by non-int of type 'float'")
  end.

Definition scalar_add (s : scalar) (y : float) : result float :=
  match s with
  | np_int64 n => Ok (float_of_Z n + y)%float
  | py (PInt n) => x ← py_float n; Ok (x + y)%float
  | py (PFloat x) => Ok (x + y)%float
  | py (PStr _) =>
      Raise (TypeError ("can only concatenate str (not " +:+ double_quote
                        +:+ "float" +:+ double_quote +:+ ") to str"))
  end.

(** The float a sum is read as where it is printed with [:.2f] (an
    integer is converted as above; a string never gets that far, line
    128 raises on it). *)
Definition scalar_float (s : scalar) : float :=
  match s with
  | np_int64 n | py (PInt n) => float_of_Z n
  | py (PFloat x) => x
  | py (PStr _) => nan
  end.

(** [df[c]]: the column named [c], or [KeyError]. *)
Definition getitem (df : DataFrame) (c : string) : result Series :=
  match df !! c with
  | Some s => Ok s
  | None => Raise (KeyError c)
  end.

(** A value of a parsed JSON object, as far as the table is concerned:
    an integer (of the int64 range; pandas gives larger ones other
    dtypes, which are not modelled), a float, or a string.  [null],
    booleans and nested values are left out. *)
Definition int64_range (n : Z) : bool := ((- 2 ^ 63 <=? n) && (n <? 2 ^ 63))%Z.

Inductive json : Type :=
  | JInt (n : Z) (range : int64_range n = true)
  | JFloat (x : float)
  | JStr (s : string).

(** [pd.DataFrame(records)] for a list of JSON objects: one column per key
    that occurs in some record; a record without the key has a missing
    cell there.  The dtype of a column is inferred from its cells: int64
    if every record has an integer there; float64 if the cells are
    numbers, some of them floats or missing (integers are converted, a
    missing cell is NaN); [object] if some cell is a string. *)
Definition cell (c : string) (r : gmap string json) : option json := r !! c.

Definition as_int64 (v : option json) : option Z :=
  match v with
  | Some (JInt n _) => Some n
  | _ => None
  end.

Definition as_float64 (v : option json) : option float :=
  match v with
  | Some (JInt n _) => Some (float_of_Z n)
  | Some (JFloat x) => Some x
  | Some (JStr _) => None
  | None => Some nan
  end.

Definition as_object (v : option json) : pyobj :=
  match v with
  | Some (JInt n _) => PInt n
  | Some (JFloat x) => PFloat x
  | Some (JStr s) => PStr s
  | None => PFloat nan
  end.

Definition infer_column (cells : list (option json)) : Series :=
  match mapM as_int64 cells with
  | Some ints => Int64 ints
  | None =>
      match mapM as_float64 cells with
      | Some floats => Float64 floats
      | None => Object (as_object <$> cells)
      end
  end.

Definition pd_DataFrame (records : list (gmap string json)) : DataFrame :=
  set_to_map (λ c, (c, infer_column (cell c <$> records)))
             (⋃ (dom <$> records) : gset string).

(** ** The calculation engine (lines 120-150) *)

Inductive retailer : Type := HomeDepot | Lowes.

(** The six amounts as the page prints and compares them, and the
    winner. *)
Record PricingResult : Type := {
  hd_subtotal : float;
  lowes_subtotal : float;
  hd_tax : float;
  lowes_tax : float;
  hd_final : float;
  lowes_final : float;
  winner : retailer
}.

Definition calculation_engine (edited_df : DataFrame) (tax_rate : float)
  : result PricingResult :=
  qty ← getitem edited_df "Qty";
  price_hd ← getitem edited_df "Price_HD";
  total_hd ← Series_mul qty price_hd;
  let edited_df := <["Total HD" := total_hd]> edited_df in
  qty ← getitem edited_df "Qty";
  price_lowes ← getitem edited_df "Price_Lowes";
  total_lowes ← Series_mul qty price_lowes;
  let edited_df := <["Total Lowes" := total_lowes]> edited_df in
  total_hd ← getitem edited_df "Total HD";
  hd_subtotal ← Series_sum total_hd;
  total_lowes ← getitem edited_df "Total Lowes";
  lowes_subtotal ← Series_sum total_lowes;
  let tax_decimal := (tax_rate / 100)%float in
  hd_tax ← scalar_mul hd_subtotal tax_decimal;
  lowes_tax ← scalar_mul lowes_subtotal tax_decimal;
  hd_final ← scalar_add hd_subtotal hd_tax;
  lowes_final ← scalar_add lowes_subtotal lowes_tax;
  mret {| hd_subtotal := scalar_float hd_subtotal;
          lowes_subtotal := scalar_float lowes_subtotal;
          hd_tax := hd_tax; lowes_tax := lowes_tax;
          hd_final := hd_final; lowes_final := lowes_final;
          winner := if (hd_final <? lowes_final)%float
                    then HomeDepot else Lowes |}.

(** A line item of the shopping list whose three numbers are floats, and
    the JSON object it stands for; the columns of a table of such items
    are float64. *)
Record LineItem : Type := {
  Qty : float;
  Price_HD : float;
  Price_Lowes : float
}.

Definition to_record (it : LineItem) : gmap string json :=
  {[ "Qty" := JFloat (Qty it); "Price_HD" := JFloat (Price_HD it);
     "Price_Lowes" := JFloat (Price_Lowes it) ]}.

(** The engine run on the table built from the parsed response, the user
    having edited nothing. *)
Definition compute_pricing (shopping_list : list (gmap string json))
    (tax_rate : float) : result PricingResult :=
  calculation_engine (pd_DataFrame shopping_list) tax_rate.

Definition compute_items (items : list LineItem) (tax_rate : float)
  : result PricingResult :=
  compute_pricing (to_record <$> items) tax_rate.

(** The same shopping list with the two price columns exchanged. *)
Definition swap_retailers (it : LineItem) : LineItem :=
  {| Qty := Qty it; Price_HD := Price_Lowes it; Price_Lowes := Price_HD it |}.

(** Whether some record of the parsed list has the key [c], that is,
    whether the table gets a column [c]. *)
Definition has_key (c : string) (records : list (gmap string json)) : bool :=
  bool_decide (Exists (λ r, is_Some (r !! c)) records).

(** The three columns the engine reads, and two conditions on their
    cells: no cell is a string; every cell that is there is a float. *)
Definition priced_columns : list string := ["Qty"; "Price_HD"; "Price_Lowes"].

Definition is_numeric (v : option json) : bool :=
  match v with
  | Some (JStr _) => false
  | _ => true
  end.

Definition is_float (v : option json) : bool :=
  match v with
  | Some (JFloat _) | None => true
  | _ => false
  end.

Definition numeric_cells (records : list (gmap string json)) : bool :=
  forallb (λ r, forallb (λ c, is_numeric (cell c r)) priced_columns) records.



(** Lines 124-137 as a function of the two columns of row totals. *)
Definition tally (total_hd total_lowes : Series) (tax_rate : float)
  : result PricingResult :=
  hd_subtotal ← Series_sum total_hd;
  lowes_subtotal ← Series_sum total_lowes;
  let tax_decimal := (tax_rate / 100)%float in
  hd_tax ← scalar_mul hd_subtotal tax_decimal;
  lowes_tax ← scalar_mul lowes_subtotal tax_decimal;
  hd_final ← scalar_add hd_subtotal hd_tax;
  lowes_final ← scalar_add lowes_subtotal lowes_tax;
  mret {| hd_subtotal := scalar_float hd_subtotal;
          lowes_subtotal := scalar_float lowes_subtotal;
          hd_tax := hd_tax; lowes_tax := lowes_tax;
          hd_final := hd_final; lowes_final := lowes_final;
          winner := if (hd_final <? lowes_final)%float
                    then HomeDepot else Lowes |}.

(** int64 or float64. *)
Definition numeric_dtype (s : Series) : bool :=
  match s with
  | Object _ => false
  | _ => true
  end.

(** [len(s)]. *)
Definition Series_length (s : Series) : nat := length (astype_object s).




(** A line item whose quantity is a JSON integer and whose prices are
    floats, the JSON object it stands for, and the item with the
    quantity written as a float. *)
Record CountedItem : Type := {
  item_count : Z;
  item_count_range : int64_range item_count = true;
  item_price_hd : float;
  item_price_lowes : float
}.

Definition counted_record (it : CountedItem) : gmap string json :=
  {[ "Qty" := JInt (item_count it) (item_count_range it);
     "Price_HD" := JFloat (item_price_hd it);
     "Price_Lowes" := JFloat (item_price_lowes it) ]}.

Definition counted_as_float (it : CountedItem) : LineItem :=
  {| Qty := float_of_Z (item_count it); Price_HD := item_price_hd it;
     Price_Lowes := item_price_lowes it |}.

(** A line item whose three numbers are JSON integers, and the JSON
    object it stands for. *)
Record IntegerItem : Type := {
  int_qty : Z;
  int_qty_range : int64_range int_qty = true;
  int_price_hd : Z;
  int_price_hd_range : int64_range int_price_hd = true;
  int_price_lowes : Z;
  int_price_lowes_range : int64_range int_price_lowes = true
}.

Definition integer_record (it : IntegerItem) : gmap string json :=
  {[ "Qty" := JInt (int_qty it) (int_qty_range it);
     "Price_HD" := JInt (int_price_hd it) (int_price_hd_range it);
     "Price_Lowes" := JInt (int_price_lowes it) (int_price_lowes_range it) ]}.

(** The exact sum of integers. *)
Definition Zsum (l : list Z) : Z := foldr Z.add 0%Z l.

(** ** Base64 ([base64.b64encode(...).decode('utf-8')]) *)

Definition b64_alphabet : string :=
  "ABCDEFGHIJKLMNOPQRSTUVWXYZabcdefghijklmnopqrstuvwxyz0123456789+/".

Definition b64_char (n : N) : ascii :=
  match String.get (N.to_nat n) b64_alphabet with
  | Some c => c
  | None => "="%char
  end.

Fixpoint b64encode (bs : list byte) : string :=
  match bs with
  | [] => ""
  | [a] =>
      let x := Byte.to_N a in
      String (b64_char (x / 4))
        (String (b64_char ((x mod 4) * 16)) "==")
  | [a; b] =>
      let x := Byte.to_N a in
      let y := Byte.to_N b in
      String (b64_char (x / 4))
        (String (b64_char ((x mod 4) * 16 + y / 16))
           (String (b64_char ((y mod 16) * 4)) "="))
  | a :: b :: c :: rest =>
      let x := Byte.to_N a in
      let y := Byte.to_N b in
      let z := Byte.to_N c in
      String (b64_char (x / 4))
        (String (b64_char ((x mod 4) * 16 + y / 16))
           (String (b64_char ((y mod 16) * 4 + z / 64))
              (String (b64_char (z mod 64)) (b64encode rest))))
  end%N.

(** The characters base64 text is made of. *)
Definition is_b64_char (c : ascii) : bool :=
  existsb (Ascii.eqb c) (list_ascii_of_string b64_alphabet)
  || Ascii.eqb c "="%char.

Fixpoint string_forallb (p : ascii → bool) (s : string) : bool :=
  match s with
  | EmptyString => true
  | String c rest => p c && string_forallb p rest
  end.

(** A decoder for the encoder's output (the program has none; it is what
    the receiving service does with the payload).  [b64_index] is the
    position of a character in the alphabet. *)
Fixpoint index_of (c : ascii) (s : string) : option N :=
  match s with
  | EmptyString => None
  | String d rest =>
      if Ascii.eqb c d then Some 0%N else N.succ <$> index_of c rest
  end.

Definition b64_index (c : ascii) : option N := index_of c b64_alphabet.

Definition byte_of (n : N) : byte := default x00 (Byte.of_N n).

Fixpoint b64decode (s : string) : option (list byte) :=
  match s with
  | EmptyString => Some []
  | String c1 (String c2 (String c3 (String c4 rest))) =>
      match b64_index c1, b64_index c2, b64_index c3, b64_index c4 with
      | Some s1, Some s2, Some s3, Some s4 =>
          tail ← b64decode rest;
          Some (byte_of (s1 * 4 + s2 / 16)
                :: byte_of ((s2 mod 16) * 16 + s3 / 4)
                :: byte_of ((s3 mod 4) * 64 + s4) :: tail)
      | Some s1, Some s2, Some s3, None =>
          if Ascii.eqb c4 "=" && String.eqb rest "" then
            Some [byte_of (s1 * 4 + s2 / 16);
                  byte_of ((s2 mod 16) * 16 + s3 / 4)]
          else None
      | Some s1, Some s2, None, None =>
          if Ascii.eqb c3 "=" && Ascii.eqb c4 "=" && String.eqb rest "" then
            Some [byte_of (s1 * 4 + s2 / 16)]
          else None
      | _, _, _, _ => None
      end
  | _ => None
  end%N.

(** ** The ingestion adapter (lines 30-43) *)

(** What the upload widget hands over: the declared media type and the
    raw bytes ([read()] and [getvalue()] both return them). *)
Record UploadedFile : Type := {
  file_type : string;
  file_bytes : list byte
}.

(** [fitz.Matrix(zx, zy)]: a scaling by [zx] and [zy]. *)
Inductive Matrix : Type := Matrix_scale (zoom_x zoom_y : Z).

(** The part of PyMuPDF the adapter calls.  Opening a stream, loading a
    page and rasterising it may each raise. *)
Class Fitz : Type := {
  Document : Type;
  Page : Type;
  Pixmap : Type;
  fitz_open : list byte → string → result Document;
  page_count : Document → nat;
  load_page : Document → nat → result Page;
  get_pixmap : Page → Matrix → result Pixmap;
  tobytes : Pixmap → string → list byte
}.

Section Ingestion.
Context `{Fitz}.

(** One iteration of the loop body: the base64 PNG of page [page_num]. *)
Definition render_page (doc : Document) (page_num : nat) : result string :=
  page ← load_page doc page_num;
  pix ← get_pixmap page (Matrix_scale 3 3);
  let img_bytes := tobytes pix "png" in
  mret (b64encode img_bytes).

(** The [for] loop over [range(min(len(doc), 5))], appending to
    [image_data]. *)
Fixpoint render_pages (doc : Document) (page_nums : list nat)
    (image_data : list string) : result (list string) :=
  match page_nums with
  | [] => mret image_data
  | page_num :: rest =>
      base64_img ← render_page doc page_num;
      render_pages doc rest (image_data ++ [base64_img])%list
  end.

Definition process_file (uploaded_file : UploadedFile)
  : result (list string) :=
  let image_data := [] in
  if String.eqb (file_type uploaded_file) "application/pdf" then
    doc ← fitz_open (file_bytes uploaded_file) "pdf";
    render_pages doc (seq 0 (Nat.min (page_count doc) 5)) image_data
  else
    let base64_img := b64encode (file_bytes uploaded_file) in
    mret (image_data ++ [base64_img])%list.
End Ingestion.

(** A small rasteriser to run the adapter on: a document is its list of
    pages, each page one byte; a stream that does not start with ['%'] is
    rejected; a stream damaged by a NUL byte is repaired, not rejected
    (as MuPDF does with a damaged file): the document is the pages before
    the NUL byte; a page holding byte [0xff] cannot be rendered, and a
    pixmap repeats the page byte once per pixel of the scaled page. *)
Fixpoint sound_pages (pages : list byte) : list byte :=
  match pages with
  | [] => []
  | x00 :: _ => []
  | page :: rest => page :: sound_pages rest
  end.

Definition toy_open (stream : list byte) (filetype : string)
  : result (list byte) :=
  match stream with
  | "%"%byte :: pages => Ok (sound_pages pages)
  | _ => Raise (FileDataError "Failed to open stream")
  end.

Definition toy_load_page (doc : list byte) (page_num : nat) : result byte :=
  match doc !! page_num with
  | Some p => Ok p
  | None => Raise (RuntimeError "page not in document")
  end.

Definition toy_get_pixmap (page : byte) (m : Matrix) : result (list byte) :=
  match page, m with
  | xff, _ => Raise (RuntimeError "cannot render page")
  | _, Matrix_scale zx zy => Ok (repeat page (Z.to_nat (zx * zy)))
  end.

Definition toy_fitz : Fitz := {|
  Document := list byte;
  Page := byte;
  Pixmap := list byte;
  fitz_open := toy_open;
  page_count := length;
  load_page := toy_load_page;
  get_pixmap := toy_get_pixmap;
  tobytes := λ pix _, pix
|}.

(** ** The request (lines 56-58) *)

(** A part of the user message: [{"type": "text", "text": ...}] or
    [{"type": "image_url", "image_url": {"url": ...}}]. *)
Inductive content_part : Type :=
  | text_part (text : string)
  | image_url_part (url : string).

(** The instruction, then one data URL per image, appended in a loop. *)
Definition user_content (images : list string) : list content_part :=
  fold_left
    (λ user_content img,
       (user_content
        ++ [image_url_part ("data:image/jpeg;base64," +:+ img)])%list)
    images
    [text_part "Analyze these project pages. Create a Master Shopping List."].

(** The two subtotals determine the rest of the result (lines 127-137). *)
Definition price_comparison (hd_subtotal lowes_subtotal tax_rate : float)
  : PricingResult :=
  let tax_decimal := (tax_rate / 100)%float in
  let hd_tax := (hd_subtotal * tax_decimal)%float in
  let lowes_tax := (lowes_subtotal * tax_decimal)%float in
  let hd_final := (hd_subtotal + hd_tax)%float in
  let lowes_final := (lowes_subtotal + lowes_tax)%float in
  {| hd_subtotal := hd_subtotal; lowes_subtotal := lowes_subtotal;
     hd_tax := hd_tax; lowes_tax := lowes_tax;
     hd_final := hd_final; lowes_final := lowes_final;
     winner := if (hd_final <? lowes_final)%float then HomeDepot else Lowes |}.

(** ** The numbers the claims quantify over *)

(** A finite non-negative float: [+0] or a positive normal or subnormal
    number (neither NaN, nor an infinity, nor [-0]). *)
Definition finite_nonneg (x : float) : bool :=
  match classify x with
  | PZero | PNormal | PSubn => true
  | _ => false
  end.

(** Sign bit clear and not NaN: [+0], a positive finite number or [+inf].
    Sums and products of finite non-negative floats stay in this set or
    become NaN. *)
Definition SF_nonneg (x : spec_float) : bool :=
  match x with
  | S754_zero false | S754_finite false _ _ | S754_infinity false => true
  | _ => false
  end.

Definition nonneg (x : float) : bool := SF_nonneg (Prim2SF x).

Definition well_formed (it : LineItem) : bool :=
  finite_nonneg (Qty it) && finite_nonneg (Price_HD it)
  && finite_nonneg (Price_Lowes it).

(** A tax rate in [0, 100]. *)
Definition valid_rate (tax_rate : float) : bool :=
  finite_nonneg tax_rate && (tax_rate <=? 100)%float.

(** The row totals of one retailer and their plain left-to-right sum. *)
Definition fsum (xs : list float) : float :=
  fold_left PrimFloat.add xs 0%float.

Definition totals_hd (items : list LineItem) : list float :=
  (λ it, (Qty it * Price_HD it)%float) <$> items.

Definition totals_lowes (items : list LineItem) : list float :=
  (λ it, (Qty it * Price_Lowes it)%float) <$> items.

(** [it'] has at least the quantity and the prices of [it]. *)
Definition item_le (it it' : LineItem) : bool :=
  (Qty it <=? Qty it')%float && (Price_HD it <=? Price_HD it')%float
  && (Price_Lowes it <=? Price_Lowes it')%float.

(** ** Binary64 rounding as integer arithmetic *)

Section RoundingDefinitions.
Local Open Scope Z_scope.

(** Round [M / P] to the nearest integer, ties to the even one. *)
Definition rne (M P : Z) : Z :=
  let q := M / P in
  let r := M mod P in
  if 2 * r <? P then q
  else if 2 * r =? P then (if Z.even q then q else q + 1)
  else q + 1.

(** The state of the shifter after [k] steps on [M]: the quotient, and the
    position of the remainder relative to half of [P = 2^k]. *)
Definition shr_state (M P : Z) (mrs : shr_record) : Prop :=
  0 < P ∧
  ∃ rho, M = shr_m mrs * P + rho ∧ 0 ≤ rho < P ∧ 0 ≤ shr_m mrs ∧
    match shr_r mrs, shr_s mrs with
    | false, false => rho = 0
    | false, true => 0 < 2 * rho < P
    | true, false => 2 * rho = P
    | true, true => P < 2 * rho
    end.

(** The exponent binary64 gives a number of magnitude [x] ([fexp] at
    precision 53 and minimal exponent -1074). *)
Definition fexp64 (x : Z) : Z := Z.max (x - 53) (-1074).

(** How many low bits of the mantissa [M] at exponent [e] do not fit. *)
Definition shift_of (M e : Z) : Z := fexp64 (Zdigits2 M + e) - e.

(** The rounding every binary64 operation ends with, on an exact
    mantissa and exponent, and its closed form. *)
Definition rnd (M e : Z) : spec_float :=
  binary_round_aux prec emax false M e loc_Exact.

Definition rnd_closed (M e : Z) : spec_float :=
  let n := shift_of M e in
  let mr := rne M (2 ^ n) in
  if mr =? 0 then S754_zero false
  else if mr =? 2 ^ 53 then
    if e + n + 1 <=? 971 then S754_finite false (2 ^ 52)%positive (e + n + 1)
    else S754_infinity false
  else
    if e + n <=? 971 then S754_finite false (Z.to_pos mr) (e + n)
    else S754_infinity false.

(** A non-negative float as an integer number of units of [2^-1074];
    [+inf] reads as [2^1024], above every finite float. *)
Definition SF_val (x : spec_float) : Z :=
  match x with
  | S754_finite _ m e => Zpos m * 2 ^ (e + 1074)
  | S754_infinity _ => 2 ^ 2098
  | _ => 0
  end.

(** The value of [M * 2^e] rounded to binary64, in the same units. *)
Definition rounded (M e : Z) : Z :=
  let n := shift_of M e in rne M (2 ^ n) * 2 ^ (e + n + 1074).

End RoundingDefinitions.

Section DivisionDefinitions.
Local Open Scope Z_scope.

(** The value of [A / B * 2^e] rounded to binary64, in units of
    [2^-1074]. *)
Definition roundq (A B e : Z) : Z :=
  let n := shift_of (A / B) e in rne A (B * 2 ^ n) * 2 ^ (e + n + 1074).

(** What rounding ends with: the mantissa [mr] at exponent [E],
    renormalised if the mantissa reached [2^53], or an infinity. *)
Definition round_closed (mr E : Z) : spec_float :=
  if mr =? 0 then S754_zero false
  else if mr =? 2 ^ 53 then
    if E + 1 <=? 971 then S754_finite false (2 ^ 52)%positive (E + 1)
    else S754_infinity false
  else
    if E <=? 971 then S754_finite false (Z.to_pos mr) E
    else S754_infinity false.
End DivisionDefinitions.

Definition fval (x : float) : Z := SF_val (Prim2SF x).

(** ** What is printed (the [:.2f] fields of lines 139-150) *)

(** [str(n)] for a non-negative integer. *)
Definition decimal (n : Z) : string :=
  NilZero.string_of_uint (N.to_uint (Z.to_N n)).

(** The amount in cents that [f"{x:.2f}"] prints: [100 * |x|] rounded to
    the nearest integer, an exact tie going to the even one. *)
Definition cents (x : float) : Z := rne (100 * fval x) (2 ^ 1074).

(** [f"{x:.2f}"]. *)
Definition format_2f (x : float) : string :=
  match Prim2SF x with
  | S754_nan => "nan"
  | S754_infinity s => if s then "-inf" else "inf"
  | S754_zero s | S754_finite s _ _ =>
      (if s then "-" else "")
      +:+ decimal (cents x / 100) +:+ "."
      +:+ decimal (cents x mod 100 / 10) +:+ decimal (cents x mod 10)
  end.

(** ** The page script (lines 15-22 and 45-166) *)

(** [str(e)], as the handler prints it.  A [KeyError] prints the repr of
    its key: the column name between single quotes. *)
Definition exn_str (e : exn) : string :=
  match e with
  | KeyError key => "'" +:+ key +:+ "'"
  | TypeError msg => msg
  | OverflowError msg => msg
  | FileDataError msg => msg
  | RuntimeError msg => msg
  end.

Definition newline : string := String "010"%char "".

(** The text of the disclaimer (lines 152-156), a triple-quoted string
    that keeps the indentation of the source. *)
Definition disclaimer : string :=
  newline
  +:+ "                        **⚠️ IMPORTANT DISCLAIMER:**" +:+ newline
  +:+ "                        * **AI Estimation:** Always verify the Shopping List against your original plan before buying."
  +:+ newline
  +:+ "                        * **Pricing:** Prices are estimates based on national averages. "
  +:+ newline
  +:+ "                        ".

(** Where an element is drawn, and what it is.  Only what the script
    displays is recorded; the widgets it reads (key, rate, upload,
    button) are the parameters of [page]. *)
Inductive container : Type := Main | Status | Tab1 | Col1 | Col2 | Tab2.

Inductive widget (CutList : Type) : Type :=
  | st_write (body : string)
  | status_update (label : string)
  | st_info (body : string)
  | st_data_editor (df : DataFrame)
  | st_divider
  | st_success (body : string)
  | st_error (body : string)
  | st_caption (body : string)
  | st_warning (body : string)
  | st_dataframe (rows : CutList).
Arguments st_write {CutList} body.
Arguments status_update {CutList} label.
Arguments st_info {CutList} body.
Arguments st_data_editor {CutList} df.
Arguments st_divider {CutList}.
Arguments st_success {CutList} body.
Arguments st_error {CutList} body.
Arguments st_caption {CutList} body.
Arguments st_warning {CutList} body.
Arguments st_dataframe {CutList} rows.

(** The parsed response: the two lists, each of which may be missing.
    The cut list is shown as it is, so its rows stay abstract. *)
Record Response (CutList : Type) : Type := {
  shopping_list : option (list (gmap string json));
  cut_list : option CutList
}.
Arguments shopping_list {CutList} r.
Arguments cut_list {CutList} r.

(** What the script calls outside itself: the completion request (its
    result is [response.choices[0].message.content]), [json.loads], and
    the table the editor hands back for the table it is given. *)
Class Backend (CutList : Type) : Type := {
  chat_completions_create : string → list content_part → result string;
  json_loads : string → result (Response CutList);
  edited : DataFrame → DataFrame
}.

(** The state of a run: the elements drawn so far and
    [st.session_state]. *)
Record page_state (CutList : Type) : Type := {
  elements : list (container * widget CutList);
  session_state : gmap string (Response CutList)
}.
Arguments elements {CutList} p.
Arguments session_state {CutList} p.

(** A step of the script: it changes the state and returns or raises;
    what was drawn before an exception stays drawn. *)
Definition ui (CutList A : Type) : Type :=
  page_state CutList → page_state CutList * result A.

#[global] Instance ui_ret {CutList} : MRet (ui CutList) :=
  λ A a st, (st, Ok a).
#[global] Instance ui_bind {CutList} : MBind (ui CutList) := λ A B f m st,
  match m st with
  | (st', Ok a) => f a st'
  | (st', Raise e) => (st', Raise e)
  end.

Section PageScript.
Context `{Fitz}.
Context {CutList : Type} `{Backend CutList}.

Definition emit (c : container) (w : widget CutList) : ui CutList unit :=
  λ st, ({| elements := elements st ++ [(c, w)];
            session_state := session_state st |}, Ok tt).

Definition lift {A} (r : result A) : ui CutList A := λ st, (st, r).

(** [try: body except Exception as e: handler e]. *)
Definition try_except {A} (body : ui CutList A)
    (handler : exn → ui CutList A) : ui CutList A := λ st,
  match body st with
  | (st', Raise e) => handler e st'
  | other => other
  end.

(** The state after drawing [els]. *)
Definition drawn (st : page_state CutList)
    (els : list (container * widget CutList)) : page_state CutList :=
  {| elements := elements st ++ els; session_state := session_state st |}.

(** Lines 102-103. *)
Definition remember (data : Response CutList) : ui CutList unit := λ st,
  (if decide (is_Some (session_state st !! "data")) then st
   else {| elements := elements st;
           session_state := <["data" := data]> (session_state st) |},
   Ok tt).

(** Lines 137-150. *)
Definition show_comparison (r : PricingResult) : ui CutList unit :=
  if (hd_final r <? lowes_final r)%float then
    emit Col1 (st_success ("🏆 HOME DEPOT: $" +:+ format_2f (hd_final r)));;
    emit Col1 (st_caption ("Subtotal: $" +:+ format_2f (hd_subtotal r)
                           +:+ " | Tax: $" +:+ format_2f (hd_tax r)));;
    emit Col2 (st_error ("Lowe's: $" +:+ format_2f (lowes_final r)));;
    emit Col2 (st_caption ("Subtotal: $" +:+ format_2f (lowes_subtotal r)
                           +:+ " | Tax: $" +:+ format_2f (lowes_tax r)))
  else
    emit Col1 (st_error ("Home Depot: $" +:+ format_2f (hd_final r)));;
    emit Col1 (st_caption ("Subtotal: $" +:+ format_2f (hd_subtotal r)
                           +:+ " | Tax: $" +:+ format_2f (hd_tax r)));;
    emit Col2 (st_success ("🏆 LOWE'S: $" +:+ format_2f (lowes_final r)));;
    emit Col2 (st_caption ("Subtotal: $" +:+ format_2f (lowes_subtotal r)
                           +:+ " | Tax: $" +:+ format_2f (lowes_tax r))).

(** Lines 107-156: the first tab. *)
Definition tab1 (data : Response CutList) (tax_rate : float)
  : ui CutList unit :=
  match shopping_list data with
  | Some records =>
      let df := pd_DataFrame records in
      emit Tab1 (st_info "👇 **Interactive Table:** Click any cell to fix the AI's counts or prices.");;
      emit Tab1 (st_data_editor df);;
      let edited_df := edited df in
      r ← lift (calculation_engine edited_df tax_rate);
      emit Tab1 st_divider;;
      show_comparison r;;
      emit Tab1 (st_warning disclaimer)
  | None => mret tt
  end.

(** Lines 158-160: the second tab. *)
Definition tab2 (data : Response CutList) : ui CutList unit :=
  match cut_list data with
  | Some rows => emit Tab2 (st_dataframe rows)
  | None => mret tt
  end.

(** The part of [analyze] inside [try]. *)
Definition attempt (api_key : string) (images : list string)
    (tax_rate : float) : ui CutList unit :=
  result_text ← lift (chat_completions_create api_key (user_content images));
  data ← lift (json_loads result_text);
  emit Status (status_update "Draft Complete!");;
  remember data;;
  tab1 data tax_rate;;
  tab2 data.

(** Lines 51-163: what a click on the button runs. *)
Definition analyze (uploaded_file : UploadedFile) (api_key : string)
    (tax_rate : float) : ui CutList unit :=
  emit Status (st_write "📄 Scanning pages for a 'Cut List' or 'Bill of Materials'...");;
  images ← lift (process_file uploaded_file);
  let user_content := user_content images in
  try_except
    (result_text ← lift (chat_completions_create api_key user_content);
     data ← lift (json_loads result_text);
     emit Status (status_update "Draft Complete!");;
     remember data;;
     tab1 data tax_rate;;
     tab2 data)
    (λ e, emit Status (st_error ("Error: " +:+ exn_str e))).

(** Lines 18-22 and 47-166: the key, then the branch the page takes. *)
Definition page (secrets : gmap string string) (typed_key : string)
    (uploaded_file : option UploadedFile) (button : bool) (tax_rate : float)
  : ui CutList unit :=
  let api_key := match secrets !! "OPENAI_API_KEY" with
                 | Some key => key
                 | None => typed_key
                 end in
  match uploaded_file, String.eqb api_key "" with
  | Some f, false =>
      if button then analyze f api_key tax_rate else mret tt
  | _, true => emit Main (st_warning "👈 Please paste your API Key to start.")
  | None, false => mret tt
  end.
End PageScript.

(** A backend to run the script on: the completion is [reply] whatever
    is asked, except that an empty key is refused; the parser accepts
    one text only; the user edits nothing. *)
Definition toy_backend (reply : string) (data : Response (list string))
  : Backend (list string) := {|
  chat_completions_create := λ api_key _,
    if String.eqb api_key "" then Raise (RuntimeError "Incorrect API key")
    else Ok reply;
  json_loads := λ text,
    if String.eqb text "{}" then Ok data
    else Raise (RuntimeError "Expecting value: line 1 column 1 (char 0)");
  edited := λ df, df
|}.

Definition empty_page : page_state (list string) :=
  {| elements := []; session_state := ∅ |}.

(** * Properties *)

(** ** Error monad *)

Lemma bind_Ok {A B} (f : A → result B) (a : A) : (Ok a ≫= f) = f a.
Proof. reflexivity. Qed.

Lemma bind_Raise {A B} (f : A → result B) (e : exn) :
  (Raise e ≫= f) = Raise e.
Proof. reflexivity. Qed.

Lemma is_Ok_true {A} (r : result A) : is_Ok r = true → ∃ a, r = Ok a.
Proof. destruct r; [eauto | discriminate]. Qed.

(** ** Base64 *)

(** The test vectors of RFC 4648, section 10. *)
Example b64encode_rfc4648 :
  b64encode (list_byte_of_string "") = ""
  ∧ b64encode (list_byte_of_string "f") = "Zg=="
  ∧ b64encode (list_byte_of_string "fo") = "Zm8="
  ∧ b64encode (list_byte_of_string "foo") = "Zm9v"
  ∧ b64encode (list_byte_of_string "foob") = "Zm9vYg=="
  ∧ b64encode (list_byte_of_string "fooba") = "Zm9vYmE="
  ∧ b64encode (list_byte_of_string "foobar") = "Zm9vYmFy".
Proof. repeat split; reflexivity. Qed.

(** ** Ingestion adapter *)

Section IngestionProperties.
Context `{Fitz}.

Lemma render_pages_ok (doc : Document) (page_nums : list nat)
    (imgs acc : list string) :
  Forall2 (λ n img, render_page doc n = Ok img) page_nums imgs →
  render_pages doc page_nums acc = Ok (acc ++ imgs)%list.
Proof.
  intros Hall. revert acc.
  induction Hall as [|n img ns imgs Hn _ IH]; intros acc; simpl.
  - by rewrite app_nil_r.
  - rewrite Hn, bind_Ok, IH, <- app_assoc. reflexivity.
Qed.

Lemma render_pages_raise (doc : Document) (done_nums rest : list nat)
    (n : nat) (e : exn) (acc : list string) :
  Forall (λ j, is_Ok (render_page doc j) = true) done_nums →
  render_page doc n = Raise e →
  render_pages doc (done_nums ++ n :: rest)%list acc = Raise e.
Proof.
  intros Hdone Hn. revert acc.
  induction Hdone as [|j js Hj _ IH]; intros acc; simpl.
  - by rewrite Hn.
  - apply is_Ok_true in Hj as [img ->]. rewrite bind_Ok. apply IH.
Qed.

Lemma rendered_images (doc : Document) (page_nums : list nat) :
  Forall (λ j, is_Ok (render_page doc j) = true) page_nums →
  ∃ imgs, Forall2 (λ n img, render_page doc n = Ok img) page_nums imgs.
Proof.
  induction 1 as [|j js Hj _ [imgs IH]].
  - exists []. constructor.
  - apply is_Ok_true in Hj as [img Hj]. exists (img :: imgs).
    by constructor.
Qed.

Lemma render_page_ok (doc : Document) (n : nat) (img : string) :
  render_page doc n = Ok img →
  ∃ page pix, load_page doc n = Ok page
    ∧ get_pixmap page (Matrix_scale 3 3) = Ok pix
    ∧ img = b64encode (tobytes pix "png").
Proof.
  unfold render_page. intros Himg.
  destruct (load_page doc n) as [page|] eqn:Hpage; [|discriminate].
  rewrite bind_Ok in Himg.
  destruct (get_pixmap page (Matrix_scale 3 3)) as [pix|] eqn:Hpix;
    [|discriminate].
  rewrite bind_Ok in Himg. injection Himg as <-.
  exists page, pix. repeat split; reflexivity || assumption.
Qed.

(** C5: a PDF of [n] pages whose first [min n 5] pages render yields
    exactly [min n 5] images, image [i] being the base64 PNG of page [i]
    rasterised with [Matrix(3, 3)]; later pages are never looked at. *)
Theorem process_file_pdf_pages (f : UploadedFile) (doc : Document) :
  file_type f = "application/pdf" →
  fitz_open (file_bytes f) "pdf" = Ok doc →
  (∀ i, i < Nat.min (page_count doc) 5 →
        is_Ok (render_page doc i) = true) →
  ∃ images,
    process_file f = Ok images
    ∧ length images = Nat.min (page_count doc) 5
    ∧ ∀ i, i < Nat.min (page_count doc) 5 →
        ∃ page pix,
          load_page doc i = Ok page
          ∧ get_pixmap page (Matrix_scale 3 3) = Ok pix
          ∧ images !! i = Some (b64encode (tobytes pix "png")).
Proof.
  intros Hty Hopen Hren.
  set (k := Nat.min (page_count doc) 5) in *.
  assert (Hall : Forall (λ j, is_Ok (render_page doc j) = true) (seq 0 k)).
  { apply Forall_forall. intros j Hj%elem_of_seq. apply Hren. lia. }
  destruct (rendered_images doc _ Hall) as [imgs Himgs].
  exists imgs. split; [|split].
  - unfold process_file. rewrite Hty, String.eqb_refl, Hopen, bind_Ok.
    fold k. by rewrite (render_pages_ok doc _ imgs []).
  - apply Forall2_length in Himgs. rewrite <- Himgs. apply length_seq.
  - intros i Hi.
    assert (Hlk : seq 0 k !! i = Some i).
    { rewrite lookup_seq. auto. }
    destruct (Forall2_lookup_l _ _ _ _ _ Himgs Hlk) as (img & Himg & Hr).
    apply render_page_ok in Hr as (page & pix & Hp & Hx & ->).
    eauto.
Qed.

(** C8: an upload whose declared type is not PDF comes back as the
    one-element list holding the base64 text of its bytes. *)
Theorem process_file_image (f : UploadedFile) :
  file_type f ≠ "application/pdf" →
  process_file f = Ok [b64encode (file_bytes f)].
Proof.
  intros Hty. unfold process_file.
  destruct (String.eqb_spec (file_type f) "application/pdf") as [E|_].
  - contradiction.
  - reflexivity.
Qed.

(** C9 (as the code has it): the adapter has no check of its own.  It
    raises what the PDF library raises, on opening the stream or on one
    of the pages the loop reaches, and then returns no list; when the
    library renders the pages the loop reaches, the list is complete.  A
    stream that the library opens as a document without pages (as it does
    with a damaged file that it repairs to nothing) comes back as the
    empty list and nothing is raised. *)
Theorem process_file_unchecked (f : UploadedFile) :
  file_type f = "application/pdf" →
  (∀ doc, fitz_open (file_bytes f) "pdf" = Ok doc →
          page_count doc = 0 → process_file f = Ok [])
  ∧ (∀ e, fitz_open (file_bytes f) "pdf" = Raise e →
          process_file f = Raise e)
  ∧ (∀ doc i e,
        fitz_open (file_bytes f) "pdf" = Ok doc →
        i < Nat.min (page_count doc) 5 →
        (∀ j, j < i → is_Ok (render_page doc j) = true) →
        render_page doc i = Raise e →
        process_file f = Raise e)
  ∧ (∀ doc,
        fitz_open (file_bytes f) "pdf" = Ok doc →
        (∀ i, i < Nat.min (page_count doc) 5 →
              is_Ok (render_page doc i) = true) →
        ∃ images, process_file f = Ok images
          ∧ length images = Nat.min (page_count doc) 5).
Proof.
  intros Hty. unfold process_file. rewrite Hty, String.eqb_refl.
  split; [|split; [|split]].
  - intros doc -> Hzero. rewrite bind_Ok, Hzero. reflexivity.
  - intros e ->. reflexivity.
  - intros doc i e -> Hi Hbefore Hraise. rewrite bind_Ok.
    set (k := Nat.min (page_count doc) 5) in *.
    replace (seq 0 k) with (seq 0 i ++ i :: seq (S i) (k - S i))%list.
    + apply render_pages_raise; [|done].
      apply Forall_forall. intros j Hj%elem_of_seq. apply Hbefore. lia.
    + replace k with (i + S (k - S i)) at 2 by lia.
      by rewrite seq_app.
  - intros doc -> Hren. rewrite bind_Ok.
    set (k := Nat.min (page_count doc) 5) in *.
    assert (Hall : Forall (λ j, is_Ok (render_page doc j) = true) (seq 0 k)).
    { apply Forall_forall. intros j Hj%elem_of_seq. apply Hren. lia. }
    destruct (rendered_images doc _ Hall) as [imgs Himgs].
    exists imgs. rewrite (render_pages_ok doc _ imgs []) by done.
    split; [done|].
    apply Forall2_length in Himgs. rewrite <- Himgs. apply length_seq.
Qed.

End IngestionProperties.

Lemma process_file_pdf_pages_witness :
  ∃ images,
    @process_file toy_fitz
      {| file_type := "application/pdf";
         file_bytes := list_byte_of_string "%abcdefg" |} = Ok images
    ∧ length images = 5.
Proof.
  destruct (@process_file_pdf_pages toy_fitz
    {| file_type := "application/pdf";
       file_bytes := list_byte_of_string "%abcdefg" |}
    (list_byte_of_string "abcdefg") eq_refl eq_refl) as (imgs & Hp & Hl & _).
  - intros i Hi. simpl in Hi.
    do 5 (destruct i as [|i]; [reflexivity|]). lia.
  - exists imgs. split; [exact Hp | exact Hl].
Defined.

Lemma process_file_image_witness :
  @process_file toy_fitz
    {| file_type := "image/png"; file_bytes := list_byte_of_string "Man" |}
  = Ok ["TWFu"].
Proof.
  apply (@process_file_image toy_fitz
    {| file_type := "image/png"; file_bytes := list_byte_of_string "Man" |}).
  simpl. discriminate.
Defined.

Lemma process_file_unchecked_witness :
  @process_file toy_fitz
    {| file_type := "application/pdf";
       file_bytes := list_byte_of_string "not a pdf" |}
  = Raise (FileDataError "Failed to open stream").
Proof.
  apply (proj1 (proj2 (@process_file_unchecked toy_fitz
    {| file_type := "application/pdf";
       file_bytes := list_byte_of_string "not a pdf" |} eq_refl))).
  reflexivity.
Defined.

(** C9 fails: a stream whose first page is damaged is opened as a document
    without pages, and the adapter returns the empty list, raising
    nothing. *)
Lemma damaged_pdf_counterexample :
  fitz_open (Fitz := toy_fitz)
    ("%"%byte :: x00 :: list_byte_of_string "abc") "pdf" = Ok []
  ∧ @process_file toy_fitz
      {| file_type := "application/pdf";
         file_bytes := "%"%byte :: x00 :: list_byte_of_string "abc" |}
    = Ok [].
Proof. split; reflexivity. Qed.

(** ** Binary64 facts *)

Lemma is_nan_spec (x : float) :
  PrimFloat.is_nan x
  = match Prim2SF x with S754_nan => true | _ => false end.
Proof.
  unfold PrimFloat.is_nan. rewrite FloatAxioms.eqb_spec. unfold SFeqb.
  destruct (Prim2SF x) as [s|s| |s m e]; simpl;
    try (destruct s; reflexivity); try reflexivity.
  destruct s; rewrite Z.compare_refl, Pos.compare_cont_refl; reflexivity.
Qed.

Lemma ltb_irrefl (x : float) : (x <? x)%float = false.
Proof.
  rewrite FloatAxioms.ltb_spec. unfold SFltb.
  destruct (Prim2SF x) as [s|s| |s m e]; simpl;
    try (destruct s; reflexivity); try reflexivity.
  destruct s; rewrite Z.compare_refl, Pos.compare_cont_refl; reflexivity.
Qed.

Lemma eqb_not_ltb (x y : float) :
  (x =? y)%float = true → (x <? y)%float = false.
Proof.
  rewrite FloatAxioms.eqb_spec, FloatAxioms.ltb_spec. unfold SFeqb, SFltb.
  by destruct (SFcompare _ _) as [[]|].
Qed.

(** Floats that compare equal are the same float, or two zeros. *)
Lemma eqb_true_cases (x y : float) :
  (x =? y)%float = true →
  x = y ∨ ∃ s t, Prim2SF x = S754_zero s ∧ Prim2SF y = S754_zero t.
Proof.
  rewrite FloatAxioms.eqb_spec. unfold SFeqb. intros Heq.
  destruct (Prim2SF x) as [s|s| |s m e] eqn:Hx,
           (Prim2SF y) as [t|t| |t n f] eqn:Hy;
    simpl in Heq; try discriminate; try (destruct s; discriminate);
    try (destruct t; discriminate).
  - right. eauto.
  - left. apply Prim2SF_inj. rewrite Hx, Hy.
    by destruct s, t.
  - left. apply Prim2SF_inj. rewrite Hx, Hy.
    change (Pos.compare_cont Eq m n) with (m ?= n)%positive in Heq.
    destruct s, t; try discriminate;
      destruct (Z.compare_spec e f) as [->| |]; try discriminate;
      destruct (Pos.compare_spec m n) as [->| |]; simpl in *;
      try discriminate; reflexivity.
Qed.

Lemma finite_nonneg_spec (x : float) :
  finite_nonneg x = true →
  Prim2SF x = S754_zero false ∨ ∃ m e, Prim2SF x = S754_finite false m e.
Proof.
  unfold finite_nonneg. rewrite classify_spec. unfold SF64classify.
  destruct (Prim2SF x) as [[]|[]| |[] m e]; simpl; try discriminate;
    try (match goal with |- context [if ?b then _ else _] => destruct b end;
         discriminate); eauto.
Qed.

Lemma finite_nonneg_nonneg (x : float) :
  finite_nonneg x = true → nonneg x = true.
Proof.
  intros [Hx|(m & e & Hx)]%finite_nonneg_spec; unfold nonneg; by rewrite Hx.
Qed.

Lemma nonneg_not_nan (x : float) :
  nonneg x = true → PrimFloat.is_nan x = false.
Proof.
  unfold nonneg. rewrite is_nan_spec.
  by destruct (Prim2SF x) as [[]|[]| |[] m e].
Qed.

(** *** Shifting and rounding keep a mantissa non-negative *)

Lemma shr_1_nonneg (mrs : shr_record) :
  (0 ≤ shr_m mrs)%Z → (0 ≤ shr_m (shr_1 mrs))%Z.
Proof.
  destruct mrs as [[|[p|p|]|p] r s]; simpl; lia.
Qed.

Lemma iter_shr_1_nonneg (p : positive) (mrs : shr_record) :
  (0 ≤ shr_m mrs)%Z → (0 ≤ shr_m (SpecFloat.iter_pos shr_1 p mrs))%Z.
Proof.
  revert mrs.
  induction p as [p IH|p IH|]; intros mrs Hm; simpl;
    auto using shr_1_nonneg.
Qed.

Lemma shr_fexp_nonneg (m e : Z) (l : location) :
  (0 ≤ m)%Z → (0 ≤ shr_m (fst (shr_fexp prec emax m e l)))%Z.
Proof.
  intros Hm. unfold shr_fexp, shr.
  assert (H0 : (0 ≤ shr_m (shr_record_of_loc m l))%Z).
  { by destruct l as [|[]]. }
  destruct (_ - e)%Z; simpl; auto using iter_shr_1_nonneg.
Qed.

Lemma round_nearest_even_nonneg (m : Z) (l : location) :
  (0 ≤ m)%Z → (0 ≤ round_nearest_even m l)%Z.
Proof.
  intros Hm. destruct l as [|[]]; simpl; try lia.
  destruct (Z.even m); lia.
Qed.

(** Rounding a non-negative mantissa gives a zero, a finite number or an
    infinity of the requested sign, never NaN. *)
Lemma binary_round_aux_sign (sx : bool) (m e : Z) (l : location) :
  (0 ≤ m)%Z →
  binary_round_aux prec emax sx m e l = S754_zero sx
  ∨ (∃ m' e', binary_round_aux prec emax sx m e l = S754_finite sx m' e')
  ∨ binary_round_aux prec emax sx m e l = S754_infinity sx.
Proof.
  intros Hm. unfold binary_round_aux.
  pose proof (shr_fexp_nonneg m e l Hm) as H1.
  destruct (shr_fexp prec emax m e l) as [mrs' e'] eqn:E1. simpl in H1.
  pose proof (shr_fexp_nonneg _ e' loc_Exact
    (round_nearest_even_nonneg _ (loc_of_shr_record mrs') H1)) as H2.
  destruct (shr_fexp prec emax (round_nearest_even _ _) e' loc_Exact)
    as [mrs'' e''] eqn:E2. simpl in H2.
  destruct (shr_m mrs'') as [|p|p]; [by left| |lia].
  destruct (e'' <=? _)%Z; eauto.
Qed.

Lemma binary_round_aux_nonneg (m e : Z) (l : location) :
  (0 ≤ m)%Z → SF_nonneg (binary_round_aux prec emax false m e l) = true.
Proof.
  intros Hm.
  destruct (binary_round_aux_sign false m e l Hm)
    as [->|[(m' & e' & ->)| ->]]; reflexivity.
Qed.

Lemma mul_finite_nonneg (x y : float) :
  finite_nonneg x = true → finite_nonneg y = true →
  nonneg (x * y) = true.
Proof.
  intros Hx%finite_nonneg_spec Hy%finite_nonneg_spec.
  unfold nonneg. rewrite mul_spec. unfold SF64mul.
  destruct Hx as [->|(m & e & ->)], Hy as [->|(n & f & ->)]; simpl;
    try reflexivity.
  by apply binary_round_aux_nonneg.
Qed.

Lemma add_nonneg (x y : float) :
  nonneg x = true → nonneg y = true → nonneg (x + y) = true.
Proof.
  unfold nonneg. rewrite add_spec. unfold SF64add.
  destruct (Prim2SF x) as [[]|[]| |[] m e], (Prim2SF y) as [[]|[]| |[] n f];
    simpl; try discriminate; try reflexivity.
  intros _ _. unfold binary_normalize, binary_round.
  destruct (shl_align _ _ _) as [mz ez].
  by apply binary_round_aux_nonneg.
Qed.

Lemma add_zero_l (y : float) : nonneg y = true → (0 + y)%float = y.
Proof.
  unfold nonneg. intros Hy. apply Prim2SF_inj. rewrite add_spec.
  change (Prim2SF 0) with (S754_zero false). unfold SF64add.
  by destruct (Prim2SF y) as [[]|[]| |[] n f].
Qed.

Lemma div_100_nonneg (x : float) :
  finite_nonneg x = true → nonneg (x / 100) = true.
Proof.
  intros Hx%finite_nonneg_spec.
  unfold nonneg. rewrite div_spec. unfold SF64div.
  change (Prim2SF 100) with (S754_finite false 7036874417766400 (-46)).
  destruct Hx as [->|(m & e & ->)]; simpl; [reflexivity|].
  unfold SFdiv_core_binary.
  destruct (Z.div_eucl _ _) as [q r] eqn:Hdiv.
  apply binary_round_aux_nonneg.
  match type of Hdiv with Z.div_eucl ?a ?b = _ =>
    assert (Ha : (0 ≤ a)%Z);
    [| pose proof (Z.div_eucl_eq a b ltac:(lia)) as Heq;
       pose proof (Z.mod_pos_bound a b ltac:(lia)) as Hr;
       unfold Z.modulo in Hr; rewrite Hdiv in Heq, Hr; nia]
  end.
  destruct (_ - _ - _)%Z; try lia.
  rewrite Z.shiftl_mul_pow2 by lia. lia.
Qed.

(** ** Binary64 rounding is monotone *)

Section BinaryRounding.
Local Open Scope Z_scope.

(** *** Binary digits and the shifter *)

Lemma digits2_pos_bounds (m : positive) :
  2 ^ (Zpos (digits2_pos m) - 1) ≤ Zpos m < 2 ^ Zpos (digits2_pos m).
Proof.
  induction m as [m IH|m IH|]; simpl digits2_pos.
  - rewrite Pos2Z.inj_succ.
    replace (Z.succ (Zpos (digits2_pos m)) - 1) with (Z.succ (Zpos (digits2_pos m) - 1)) by lia.
    rewrite !Z.pow_succ_r by lia. lia.
  - rewrite Pos2Z.inj_succ.
    replace (Z.succ (Zpos (digits2_pos m)) - 1) with (Z.succ (Zpos (digits2_pos m) - 1)) by lia.
    rewrite !Z.pow_succ_r by lia. lia.
  - simpl. lia.
Qed.

Lemma shr_state_step (M P : Z) (mrs : shr_record) :
  shr_state M P mrs → shr_state M (2 * P) (shr_1 mrs).
Proof.
  intros (HP & rho & HM & Hrho & Hm & Hloc). split; [lia|].
  destruct mrs as [m r s]. cbn [shr_m shr_r shr_s] in *.
  destruct m as [|[p|p|]|p]; cbn [shr_1 shr_m shr_r shr_s]; try lia.
  - exists rho. destruct r, s; cbn [orb]; lia.
  - exists (P + rho). destruct r, s; cbn [orb]; lia.
  - exists rho. destruct r, s; cbn [orb]; lia.
  - exists (P + rho). destruct r, s; cbn [orb]; lia.
Qed.

Lemma iter_pos_invariant {A} (f : A → A) (I : Z → A → Prop) :
  (∀ P x, I P x → I (2 * P) (f x)) →
  ∀ p P x, I P x → I (2 ^ Zpos p * P) (SpecFloat.iter_pos f p x).
Proof.
  intros Hstep. induction p as [p IH|p IH|]; intros P x Hx; simpl SpecFloat.iter_pos.
  - replace (2 ^ Zpos p~1 * P) with (2 ^ Zpos p * (2 ^ Zpos p * (2 * P))).
    + auto.
    + replace (Zpos p~1) with (Zpos p + Zpos p + 1) by lia.
      rewrite !Z.pow_add_r by lia. lia.
  - replace (2 ^ Zpos p~0 * P) with (2 ^ Zpos p * (2 ^ Zpos p * P)).
    + auto.
    + replace (Zpos p~0) with (Zpos p + Zpos p) by lia.
      rewrite !Z.pow_add_r by lia. lia.
  - replace (2 ^ 1 * P) with (2 * P) by lia. auto.
Qed.

Lemma rne_of_state (M P : Z) (mrs : shr_record) :
  shr_state M P mrs →
  round_nearest_even (shr_m mrs) (loc_of_shr_record mrs) = rne M P.
Proof.
  intros (HP & rho & HM & Hrho & Hm & Hloc).
  assert (Hq : M / P = shr_m mrs).
  { symmetry. apply (Z.div_unique M P (shr_m mrs) rho); lia. }
  assert (Hr : M mod P = rho).
  { symmetry. apply (Z.mod_unique M P (shr_m mrs) rho); lia. }
  unfold rne. rewrite Hq, Hr.
  destruct mrs as [m r s]. cbn [shr_m shr_r shr_s loc_of_shr_record] in *.
  destruct r, s; cbn [round_nearest_even].
  - destruct (Z.ltb_spec (2 * rho) P); [lia|].
    destruct (Z.eqb_spec (2 * rho) P); [lia|]. reflexivity.
  - destruct (Z.ltb_spec (2 * rho) P); [lia|].
    destruct (Z.eqb_spec (2 * rho) P); [|lia]. reflexivity.
  - destruct (Z.ltb_spec (2 * rho) P); [|lia]. reflexivity.
  - destruct (Z.ltb_spec (2 * rho) P); [|lia]. reflexivity.
Qed.

Lemma shr_state_init (M : Z) : 0 ≤ M → shr_state M 1 (shr_record_of_loc M loc_Exact).
Proof.
  intros HM. split; [lia|]. exists 0. cbn. lia.
Qed.

(** Shifting right by [n >= 0] places. *)
Lemma shr_spec (M e n : Z) :
  0 ≤ M → 0 ≤ n →
  shr_state M (2 ^ n) (fst (shr (shr_record_of_loc M loc_Exact) e n))
  ∧ snd (shr (shr_record_of_loc M loc_Exact) e n) = e + n.
Proof.
  intros HM Hn. unfold shr. destruct n as [|p|p]; [| |lia].
  - cbn [fst snd]. split; [apply shr_state_init; lia|lia].
  - cbn [fst snd]. split; [|reflexivity].
    replace (2 ^ Zpos p) with (2 ^ Zpos p * 1) by lia.
    apply (iter_pos_invariant shr_1 (shr_state M)).
    + intros P x. apply shr_state_step.
    + apply shr_state_init; lia.
Qed.

(** ** Round to nearest, ties to even *)
Lemma rne_bounds (M P : Z) : 0 < P → M / P ≤ rne M P ≤ M / P + 1.
Proof.
  intros HP. unfold rne.
  destruct (2 * (M mod P) <? P); [lia|].
  destruct (2 * (M mod P) =? P); [|lia].
  destruct (Z.even (M / P)); lia.
Qed.

Lemma rne_mono (M1 M2 P : Z) :
  0 < P → M1 ≤ M2 → rne M1 P ≤ rne M2 P.
Proof.
  intros HP HM.
  pose proof (Z.div_le_mono M1 M2 P HP HM) as Hq.
  pose proof (rne_bounds M1 P HP) as H1.
  pose proof (rne_bounds M2 P HP) as H2.
  destruct (Z.eq_dec (M1 / P) (M2 / P)) as [Heq|Hne]; [|lia].
  assert (Hr : M1 mod P ≤ M2 mod P).
  { pose proof (Z.div_mod M1 P ltac:(lia)). pose proof (Z.div_mod M2 P ltac:(lia)).
    rewrite Heq in *. lia. }
  unfold rne. rewrite Heq.
  destruct (Z.ltb_spec (2 * (M1 mod P)) P), (Z.ltb_spec (2 * (M2 mod P)) P); try lia;
  destruct (Z.eqb_spec (2 * (M1 mod P)) P), (Z.eqb_spec (2 * (M2 mod P)) P); try lia;
  destruct (Z.even (M2 / P)); lia.
Qed.

Lemma rne_upper (M P B : Z) : 0 < P → M < B * P → rne M P ≤ B.
Proof.
  intros HP HM. pose proof (rne_bounds M P HP).
  assert (M / P < B) by (apply Z.div_lt_upper_bound; lia). lia.
Qed.

Lemma rne_lower (M P B : Z) : 0 < P → B * P ≤ M → B ≤ rne M P.
Proof.
  intros HP HM. pose proof (rne_bounds M P HP).
  assert (B ≤ M / P) by (apply Z.div_le_lower_bound; lia). lia.
Qed.

Lemma rne_scale (M P K : Z) :
  0 < P → 0 < K → rne (M * K) (P * K) = rne M P.
Proof.
  intros HP HK. unfold rne.
  rewrite Z.div_mul_cancel_r by lia.
  rewrite Zmult_mod_distr_r.
  replace (2 * (M mod P * K)) with ((2 * (M mod P)) * K) by lia.
  destruct (Z.ltb_spec (2 * (M mod P)) P),
           (Z.ltb_spec (2 * (M mod P) * K) (P * K));
    try reflexivity; try nia.
  destruct (Z.eqb_spec (2 * (M mod P)) P),
           (Z.eqb_spec (2 * (M mod P) * K) (P * K));
    try reflexivity; nia.
Qed.

Lemma rne_nonneg (M P : Z) : 0 < P → 0 ≤ M → 0 ≤ rne M P.
Proof.
  intros HP HM. pose proof (rne_bounds M P HP).
  pose proof (Z.div_pos M P HM HP). lia.
Qed.

Lemma rne_exact (M : Z) : rne M 1 = M.
Proof.
  unfold rne. rewrite Z.div_1_r, Z.mod_1_r. reflexivity.
Qed.

(** *** The closed form of rounding *)

Lemma fexp_eq (x : Z) : fexp prec emax x = fexp64 x.
Proof. reflexivity. Qed.

Lemma Zdigits2_bounds (M : Z) :
  0 < M → 2 ^ (Zdigits2 M - 1) ≤ M < 2 ^ Zdigits2 M.
Proof.
  destruct M as [|m|m]; try lia. intros _. apply digits2_pos_bounds.
Qed.

Lemma Zdigits2_nonneg (M : Z) : 0 ≤ Zdigits2 M.
Proof. destruct M; simpl; lia. Qed.

Lemma Zdigits2_pos (M : Z) : 0 < M → 0 < Zdigits2 M.
Proof. destruct M; simpl; lia. Qed.

Lemma Zdigits2_le (M k : Z) : 0 ≤ M → 0 ≤ k → M < 2 ^ k → Zdigits2 M ≤ k.
Proof.
  intros HM Hk Hlt.
  destruct (Z.eq_dec M 0) as [->|Hne]; [simpl; lia|].
  pose proof (Zdigits2_bounds M ltac:(lia)) as [Hlo _].
  destruct (Z.le_gt_cases (Zdigits2 M) k) as [|Hgt]; [assumption|].
  assert (2 ^ k ≤ 2 ^ (Zdigits2 M - 1)) by (apply Z.pow_le_mono_r; lia).
  lia.
Qed.

Lemma Zdigits2_ge (M k : Z) : 0 ≤ k → 2 ^ k ≤ M → k < Zdigits2 M.
Proof.
  intros Hk Hle.
  assert (0 < M) by (pose proof (Z.pow_pos_nonneg 2 k); lia).
  pose proof (Zdigits2_bounds M ltac:(lia)) as [_ Hhi].
  destruct (Z.lt_ge_cases k (Zdigits2 M)) as [|Hge]; [assumption|].
  assert (2 ^ Zdigits2 M ≤ 2 ^ k) by (apply Z.pow_le_mono_r; lia).
  lia.
Qed.

Lemma shr_fexp_exact (M e : Z) :
  0 ≤ M → 0 ≤ shift_of M e →
  shr_state M (2 ^ shift_of M e) (fst (shr_fexp prec emax M e loc_Exact))
  ∧ snd (shr_fexp prec emax M e loc_Exact) = e + shift_of M e.
Proof.
  intros HM Hn. unfold shr_fexp. rewrite fexp_eq.
  apply shr_spec; assumption.
Qed.

(** The second normalisation step: only a mantissa of exactly [2^53]
    is shifted again. *)
Lemma shr_fexp_carry (mr E : Z) :
  0 ≤ mr ≤ 2 ^ 53 → -1074 ≤ E →
  shr_fexp prec emax mr E loc_Exact
  = if mr =? 2 ^ 53
    then (Build_shr_record (2 ^ 52) false false, E + 1)
    else (Build_shr_record mr false false, E).
Proof.
  intros Hmr HE. unfold shr_fexp. rewrite fexp_eq. unfold fexp64.
  destruct (Z.eqb_spec mr (2 ^ 53)) as [->|Hne].
  - change (Zdigits2 (2 ^ 53)) with 54.
    replace (Z.max (54 + E - 53) (-1074) - E) with 1 by lia.
    reflexivity.
  - assert (Zdigits2 mr ≤ 53) by (apply Zdigits2_le; lia).
    unfold shr.
    destruct (Z.max (Zdigits2 mr + E - 53) (-1074) - E) eqn:Hs;
      try reflexivity. lia.
Qed.

Lemma rne_le_2p53 (M e : Z) :
  0 < M → 0 ≤ shift_of M e → 0 ≤ rne M (2 ^ shift_of M e) ≤ 2 ^ 53.
Proof.
  intros HM Hn. set (n := shift_of M e) in *.
  assert (HP : 0 < 2 ^ n) by (apply Z.pow_pos_nonneg; lia).
  split; [apply rne_nonneg; lia|].
  apply rne_upper; [assumption|].
  pose proof (Zdigits2_bounds M HM) as [_ Hhi].
  assert (Zdigits2 M ≤ 53 + n).
  { unfold n, shift_of, fexp64. lia. }
  rewrite <- Z.pow_add_r by lia.
  eapply Z.lt_le_trans; [exact Hhi|].
  apply Z.pow_le_mono_r; lia.
Qed.

(** Rounding an exact mantissa that has no bits to spare: shift, round
    to even, and renormalise once if the mantissa reached [2^53]. *)
Theorem rnd_spec (M e : Z) :
  0 < M → 0 ≤ shift_of M e → rnd M e = rnd_closed M e.
Proof.
  intros HM Hn. unfold rnd, rnd_closed, binary_round_aux.
  destruct (shr_fexp_exact M e ltac:(lia) Hn) as [Hst He'].
  destruct (shr_fexp prec emax M e loc_Exact) as [mrs' e'].
  cbn [fst snd] in Hst, He'. subst e'.
  rewrite (rne_of_state _ _ _ Hst).
  pose proof (rne_le_2p53 M e HM Hn) as Hmr.
  set (n := shift_of M e) in *. set (mr := rne M (2 ^ n)) in *.
  assert (HE : -1074 ≤ e + n) by (unfold n, shift_of, fexp64; lia).
  rewrite (shr_fexp_carry mr (e + n) Hmr HE).
  destruct (Z.eqb_spec mr (2 ^ 53)) as [Hc|Hc].
  - rewrite Hc. cbn [shr_m]. reflexivity.
  - cbn [shr_m]. destruct (Z.eqb_spec mr 0) as [->|Hz]; [reflexivity|].
    destruct mr as [|p|p]; try lia. reflexivity.
Qed.

(** *** The rounded value *)

Lemma pow2_pos (k : Z) : 0 ≤ k → 0 < 2 ^ k.
Proof. intros. apply Z.pow_pos_nonneg; lia. Qed.

Lemma pow2_split (a b : Z) : 0 ≤ a → 0 ≤ b → 2 ^ (a + b) = 2 ^ a * 2 ^ b.
Proof. intros. apply Z.pow_add_r; lia. Qed.

Lemma shift_of_lower (M e : Z) : -1074 ≤ e + shift_of M e.
Proof. unfold shift_of, fexp64. lia. Qed.

(** The value of the rounded float, overflow reading as [2^1024]. *)
Lemma SF_val_rnd (M e : Z) :
  0 < M → 0 ≤ shift_of M e →
  SF_val (rnd M e) = Z.min (rounded M e) (2 ^ 2098).
Proof.
  intros HM Hn. rewrite rnd_spec by assumption.
  unfold rnd_closed, rounded.
  pose proof (rne_le_2p53 M e HM Hn) as Hmr.
  pose proof (shift_of_lower M e) as HE.
  set (n := shift_of M e) in *. set (mr := rne M (2 ^ n)) in *.
  set (x := e + n + 1074) in *.
  assert (Hx : 0 ≤ x) by (unfold x; lia).
  pose proof (pow2_pos x Hx) as Hpx.
  destruct (Z.eqb_spec mr 0) as [->|Hz]; [simpl; lia|].
  destruct (Z.eqb_spec mr (2 ^ 53)) as [Hc|Hc].
  - rewrite Hc.
    destruct (Z.leb_spec (e + n + 1) 971) as [Hle|Hgt]; cbn [SF_val].
    + replace (e + n + 1 + 1074) with (1 + x) by (unfold x; lia).
      rewrite (pow2_split 1 x) by lia.
      assert (2 ^ x ≤ 2 ^ 2044) by (apply Z.pow_le_mono_r; unfold x; lia).
      change (2 ^ 2098) with (2 ^ 53 * (2 * 2 ^ 2044)).
      change (Z.pos (2 ^ 52)) with (2 ^ 52). change (2 ^ 53) with (2 ^ 52 * 2 ^ 1).
      lia.
    + assert (2 ^ 2045 ≤ 2 ^ x) by (apply Z.pow_le_mono_r; unfold x; lia).
      change (2 ^ 2098) with (2 ^ 53 * 2 ^ 2045). lia.
  - destruct (Z.leb_spec (e + n) 971) as [Hle|Hgt]; cbn [SF_val].
    + rewrite Z2Pos.id by lia. fold x.
      assert (2 ^ x ≤ 2 ^ 2045) by (apply Z.pow_le_mono_r; unfold x; lia).
      change (2 ^ 2098) with (2 ^ 53 * 2 ^ 2045). nia.
    + assert (2 ^ 2046 ≤ 2 ^ x) by (apply Z.pow_le_mono_r; unfold x; lia).
      assert (Hn53 : n = Zdigits2 M - 53).
      { unfold n, shift_of, fexp64 in *. lia. }
      assert (2 ^ 52 ≤ mr).
      { apply rne_lower; [apply pow2_pos; lia|].
        rewrite <- pow2_split by lia.
        pose proof (Zdigits2_bounds M HM) as [Hlo _].
        replace (52 + n) with (Zdigits2 M - 1) by lia. exact Hlo. }
      change (2 ^ 2098) with (2 ^ 52 * 2 ^ 2046). nia.
Qed.

Lemma Zdigits2_mono (M1 M2 : Z) : 0 < M1 → M1 ≤ M2 → Zdigits2 M1 ≤ Zdigits2 M2.
Proof.
  intros H1 H12.
  pose proof (Zdigits2_bounds M2 ltac:(lia)) as [_ Hhi].
  apply Zdigits2_le; try lia. apply Zdigits2_nonneg.
Qed.

Lemma Zdigits2_mul_pow2 (M k : Z) :
  0 < M → 0 ≤ k → Zdigits2 (M * 2 ^ k) = Zdigits2 M + k.
Proof.
  intros HM Hk.
  pose proof (Zdigits2_bounds M HM) as [Hlo Hhi].
  pose proof (Zdigits2_pos M HM) as Hd.
  pose proof (pow2_pos k Hk) as Hpk.
  assert (Zdigits2 (M * 2 ^ k) ≤ Zdigits2 M + k).
  { apply Zdigits2_le; try lia. rewrite pow2_split by lia. nia. }
  assert (Zdigits2 M + k - 1 < Zdigits2 (M * 2 ^ k)).
  { apply Zdigits2_ge; try lia.
    replace (Zdigits2 M + k - 1) with ((Zdigits2 M - 1) + k) by lia.
    rewrite pow2_split by lia. nia. }
  lia.
Qed.

Lemma shift_of_scale (M e k : Z) :
  0 < M → 0 ≤ k → shift_of (M * 2 ^ k) (e - k) = shift_of M e + k.
Proof.
  intros HM Hk. unfold shift_of. rewrite Zdigits2_mul_pow2 by assumption.
  replace (Zdigits2 M + k + (e - k)) with (Zdigits2 M + e) by lia. lia.
Qed.

(** The rounded value depends on the exact value only. *)
Lemma rounded_scale (M e k : Z) :
  0 < M → 0 ≤ k → 0 ≤ shift_of M e →
  rounded (M * 2 ^ k) (e - k) = rounded M e.
Proof.
  intros HM Hk Hn. unfold rounded. rewrite shift_of_scale by assumption.
  rewrite (pow2_split (shift_of M e) k) by lia.
  rewrite rne_scale by (apply pow2_pos; lia).
  f_equal. f_equal. lia.
Qed.

Lemma shift_of_mono (M1 M2 e : Z) :
  0 < M1 → M1 ≤ M2 → shift_of M1 e ≤ shift_of M2 e.
Proof.
  intros H1 H12. pose proof (Zdigits2_mono M1 M2 H1 H12).
  unfold shift_of, fexp64. lia.
Qed.

(** Monotone in the mantissa at a fixed exponent: within one binade by
    [rne_mono], across binades because a power of two separates the two
    results. *)
Lemma rounded_mono_same (M1 M2 e : Z) :
  0 < M1 → M1 ≤ M2 → 0 ≤ shift_of M1 e →
  rounded M1 e ≤ rounded M2 e.
Proof.
  intros H1 H12 Hn1.
  pose proof (shift_of_mono M1 M2 e H1 H12) as Hn.
  pose proof (rne_le_2p53 M1 e H1 Hn1) as Hmr1.
  pose proof (rne_le_2p53 M2 e ltac:(lia) ltac:(lia)) as Hmr2.
  pose proof (shift_of_lower M1 e) as HE1.
  unfold rounded.
  set (n1 := shift_of M1 e) in *. set (n2 := shift_of M2 e) in *.
  destruct (Z.eq_dec n1 n2) as [Heq|Hne].
  - rewrite <- Heq.
    pose proof (rne_mono M1 M2 (2 ^ n1) (pow2_pos n1 Hn1) H12).
    pose proof (pow2_pos (e + n1 + 1074) ltac:(lia)). nia.
  - assert (Hlt : n1 < n2) by lia.
    assert (Hn53 : n2 = Zdigits2 M2 - 53).
    { unfold n1, n2, shift_of, fexp64 in *. lia. }
    assert (2 ^ 52 ≤ rne M2 (2 ^ n2)).
    { apply rne_lower; [apply pow2_pos; lia|].
      rewrite <- pow2_split by lia.
      pose proof (Zdigits2_bounds M2 ltac:(lia)) as [Hlo _].
      replace (52 + n2) with (Zdigits2 M2 - 1) by lia. exact Hlo. }
    set (x := e + n1 + 1074) in *.
    replace (e + n2 + 1074) with (x + (n2 - n1)) by (unfold x; lia).
    rewrite (pow2_split x (n2 - n1)) by lia.
    pose proof (pow2_pos x ltac:(lia)).
    assert (2 ^ 1 ≤ 2 ^ (n2 - n1)) by (apply Z.pow_le_mono_r; lia).
    change (2 ^ 53) with (2 ^ 52 * 2) in Hmr1. change (2 ^ 1) with 2 in *.
    assert (Hc : 0 < 2 ^ 52) by reflexivity.
    set (c := 2 ^ 52) in *. set (p := 2 ^ x) in *.
    set (q := 2 ^ (n2 - n1)) in *.
    set (a := rne M1 (2 ^ n1)) in *. set (r := rne M2 (2 ^ n2)) in *.
    apply Z.le_trans with (c * 2 * p); [nia|].
    apply Z.le_trans with (c * (p * q)); [nia|].
    apply Z.mul_le_mono_nonneg_r; nia.
Qed.

(** Rounding is monotone in the exact value [M * 2^e]. *)
Theorem rounded_mono (M1 e1 M2 e2 b : Z) :
  0 < M1 → 0 < M2 → b ≤ e1 → b ≤ e2 →
  0 ≤ shift_of M1 e1 → 0 ≤ shift_of M2 e2 →
  M1 * 2 ^ (e1 - b) ≤ M2 * 2 ^ (e2 - b) →
  rounded M1 e1 ≤ rounded M2 e2.
Proof.
  intros H1 H2 Hb1 Hb2 Hn1 Hn2 Hle.
  rewrite <- (rounded_scale M1 e1 (e1 - b)) by lia.
  rewrite <- (rounded_scale M2 e2 (e2 - b)) by lia.
  replace (e1 - (e1 - b)) with b by lia.
  replace (e2 - (e2 - b)) with b by lia.
  pose proof (pow2_pos (e1 - b) ltac:(lia)).
  apply rounded_mono_same; [nia|assumption|].
  replace b with (e1 - (e1 - b)) at 2 by lia.
  rewrite shift_of_scale by lia. lia.
Qed.

(** *** Valid floats are ordered as their values *)

Lemma valid_finite (s : bool) (m : positive) (e : Z) :
  valid_binary (S754_finite s m e) = true →
  -1074 ≤ e ≤ 971 ∧ Zpos m < 2 ^ 53 ∧ (-1074 < e → 2 ^ 52 ≤ Zpos m)
  ∧ shift_of (Zpos m) e = 0.
Proof.
  cbn [SpecFloat.valid_binary]. unfold bounded, canonical_mantissa.
  rewrite fexp_eq. intros [Hc He]%andb_prop.
  apply Z.eqb_eq in Hc. apply Z.leb_le in He.
  change (emax - prec) with 971 in He.
  pose proof (Zdigits2_bounds (Zpos m) ltac:(lia)) as [Hlo Hhi].
  cbn [Zdigits2] in Hlo, Hhi. unfold fexp64 in Hc.
  assert (Hd : Zpos (digits2_pos m) ≤ 53) by lia.
  repeat split; try lia.
  - eapply Z.lt_le_trans; [exact Hhi|]. apply Z.pow_le_mono_r; lia.
  - intros Hgt. assert (Zpos (digits2_pos m) = 53) as Hd53 by lia.
    rewrite Hd53 in Hlo. exact Hlo.
  - unfold shift_of, fexp64. cbn [Zdigits2]. lia.
Qed.

Lemma SF_val_finite_bounds (s : bool) (m : positive) (e : Z) :
  valid_binary (S754_finite s m e) = true →
  0 < SF_val (S754_finite s m e) < 2 ^ 2098.
Proof.
  intros (He & Hm & _ & _)%valid_finite. cbn [SF_val].
  pose proof (pow2_pos (e + 1074) ltac:(lia)).
  assert (2 ^ (e + 1074) ≤ 2 ^ 2045) by (apply Z.pow_le_mono_r; lia).
  change (2 ^ 2098) with (2 ^ 53 * 2 ^ 2045). nia.
Qed.

Lemma SF_val_lt_exp (m1 m2 : positive) (e1 e2 : Z) :
  valid_binary (S754_finite false m1 e1) = true →
  valid_binary (S754_finite false m2 e2) = true →
  e1 < e2 →
  Zpos m1 * 2 ^ (e1 + 1074) < Zpos m2 * 2 ^ (e2 + 1074).
Proof.
  intros (He1 & Hm1 & _ & _)%valid_finite (He2 & _ & Hm2 & _)%valid_finite Hlt.
  specialize (Hm2 ltac:(lia)).
  replace (e2 + 1074) with ((e1 + 1074) + (e2 - e1)) by lia.
  rewrite (pow2_split (e1 + 1074) (e2 - e1)) by lia.
  pose proof (pow2_pos (e1 + 1074) ltac:(lia)).
  assert (2 ^ 1 ≤ 2 ^ (e2 - e1)) by (apply Z.pow_le_mono_r; lia).
  change (2 ^ 53) with (2 ^ 52 * 2) in Hm1. change (2 ^ 1) with 2 in *.
  assert (Hc : 0 < 2 ^ 52) by reflexivity.
  set (c := 2 ^ 52) in *. set (p := 2 ^ (e1 + 1074)) in *.
  set (q := 2 ^ (e2 - e1)) in *.
  apply Z.lt_le_trans with (c * 2 * p); [nia|].
  apply Z.le_trans with (c * (p * q)); [nia|].
  apply Z.mul_le_mono_nonneg_r; nia.
Qed.

(** On valid non-negative floats the IEEE comparison is the comparison of
    the values. *)
Theorem SFcompare_val (x y : spec_float) :
  valid_binary x = true → valid_binary y = true →
  SF_nonneg x = true → SF_nonneg y = true →
  SFcompare x y = Some (SF_val x ?= SF_val y).
Proof.
  intros Vx Vy Nx Ny.
  destruct x as [[]|[]| |[] m1 e1]; try discriminate;
  destruct y as [[]|[]| |[] m2 e2]; try discriminate;
    try pose proof (SF_val_finite_bounds _ _ _ Vx) as Bx;
    try pose proof (SF_val_finite_bounds _ _ _ Vy) as By;
    cbn [SFcompare]; f_equal; symmetry;
    try (apply Z.compare_eq_iff; reflexivity);
    try (apply Z.compare_lt_iff; cbn [SF_val] in *; lia);
    try (apply Z.compare_gt_iff; cbn [SF_val] in *; lia).
  cbn [SF_val].
  destruct (Z.compare_spec e1 e2) as [->|Hlt|Hgt].
  - change (Pos.compare_cont Eq m1 m2) with (Zpos m1 ?= Zpos m2).
    pose proof (valid_finite _ _ _ Vy) as (He & _).
    pose proof (pow2_pos (e2 + 1074) ltac:(lia)).
    destruct (Z.compare_spec (Zpos m1) (Zpos m2)) as [Heq|Hl|Hg].
    + rewrite Heq. apply Z.compare_eq_iff. reflexivity.
    + apply Z.compare_lt_iff. nia.
    + apply Z.compare_gt_iff. nia.
  - apply Z.compare_lt_iff. now apply SF_val_lt_exp.
  - apply Z.compare_gt_iff. now apply SF_val_lt_exp.
Qed.

(** *** Products and sums *)

Lemma Zdigits2_mul_ge (a b : Z) :
  0 < a → 0 < b → Zdigits2 a + Zdigits2 b - 1 ≤ Zdigits2 (a * b).
Proof.
  intros Ha Hb.
  pose proof (Zdigits2_bounds a Ha) as [Hla _].
  pose proof (Zdigits2_bounds b Hb) as [Hlb _].
  pose proof (Zdigits2_pos a Ha). pose proof (Zdigits2_pos b Hb).
  pose proof (pow2_pos (Zdigits2 a - 1) ltac:(lia)).
  pose proof (pow2_pos (Zdigits2 b - 1) ltac:(lia)).
  assert (Zdigits2 a - 1 + (Zdigits2 b - 1) < Zdigits2 (a * b)); [|lia].
  apply Zdigits2_ge; [lia|]. rewrite pow2_split by lia. nia.
Qed.

(** In units fine enough nothing is lost before rounding. *)
Lemma shift_of_units (v b : Z) : b ≤ -1074 → 0 ≤ shift_of v b.
Proof. intros Hb. unfold shift_of, fexp64. lia. Qed.

Lemma rounded_zero (b : Z) : rounded 0 b = 0.
Proof.
  unfold rounded, rne. rewrite Zdiv_0_l, Zmod_0_l.
  pose proof (Z.pow_nonneg 2 (shift_of 0 b) ltac:(lia)).
  destruct (Z.ltb_spec (2 * 0) (2 ^ shift_of 0 b)); [reflexivity|].
  destruct (Z.eqb_spec (2 * 0) (2 ^ shift_of 0 b)); [reflexivity|lia].
Qed.

Lemma rounded_nonneg (v b : Z) : 0 ≤ v → b ≤ -1074 → 0 ≤ rounded v b.
Proof.
  intros Hv Hb. unfold rounded.
  pose proof (shift_of_units v b Hb).
  pose proof (rne_nonneg v (2 ^ shift_of v b)
                (pow2_pos (shift_of v b) ltac:(lia)) Hv).
  pose proof (shift_of_lower v b).
  pose proof (pow2_pos (b + shift_of v b + 1074) ltac:(lia)). nia.
Qed.

Lemma rounded_units_mono (v1 v2 b : Z) :
  b ≤ -1074 → 0 ≤ v1 → v1 ≤ v2 → rounded v1 b ≤ rounded v2 b.
Proof.
  intros Hb H1 H12.
  destruct (Z.eq_dec v1 0) as [->|Hne].
  - rewrite rounded_zero. apply rounded_nonneg; lia.
  - apply rounded_mono_same; [lia|lia|]. by apply shift_of_units.
Qed.

Lemma rounded_to_units (M e b : Z) :
  0 < M → b ≤ e → 0 ≤ shift_of M e →
  rounded M e = rounded (M * 2 ^ (e - b)) b.
Proof.
  intros HM Hb Hn.
  rewrite <- (rounded_scale M e (e - b)) by lia.
  f_equal. lia.
Qed.

(** A float is its own rounding. *)
Lemma rounded_representable (s : bool) (m : positive) (e : Z) :
  valid_binary (S754_finite s m e) = true →
  rounded (Zpos m * 2 ^ (e + 1074)) (-1074) = Zpos m * 2 ^ (e + 1074).
Proof.
  intros (He & _ & _ & Hs)%valid_finite.
  replace (e + 1074) with (e - -1074) by lia.
  rewrite <- rounded_to_units by lia.
  unfold rounded. rewrite Hs. change (2 ^ 0) with 1.
  rewrite rne_exact. f_equal. f_equal. lia.
Qed.

Lemma SF_val_mul_finite (mx my : positive) (ex ey : Z) :
  valid_binary (S754_finite false mx ex) = true →
  valid_binary (S754_finite false my ey) = true →
  SF_val (SF64mul (S754_finite false mx ex) (S754_finite false my ey))
  = Z.min (rounded (SF_val (S754_finite false mx ex)
                    * SF_val (S754_finite false my ey)) (-2148))
          (2 ^ 2098).
Proof.
  intros Vx Vy.
  pose proof (valid_finite _ _ _ Vx) as (Hex & _ & _ & Hsx).
  pose proof (valid_finite _ _ _ Vy) as (Hey & _ & _ & Hsy).
  assert (Hn : 0 ≤ shift_of (Zpos mx * Zpos my) (ex + ey)).
  { pose proof (Zdigits2_mul_ge (Zpos mx) (Zpos my) ltac:(lia) ltac:(lia)).
    pose proof (Zdigits2_pos (Zpos mx) ltac:(lia)).
    pose proof (Zdigits2_pos (Zpos my) ltac:(lia)).
    unfold shift_of, fexp64 in *. lia. }
  unfold SF64mul. cbn [SFmul xorb].
  change (Zpos (mx * my)) with (Zpos mx * Zpos my).
  change (binary_round_aux prec emax false (Zpos mx * Zpos my) (ex + ey)
            loc_Exact) with (rnd (Zpos mx * Zpos my) (ex + ey)).
  rewrite SF_val_rnd by (try assumption; lia).
  rewrite (rounded_to_units _ _ (-2148)) by (try assumption; lia).
  cbn [SF_val]. f_equal. f_equal.
  replace (ex + ey - -2148) with ((ex + 1074) + (ey + 1074)) by lia.
  rewrite pow2_split by lia. lia.
Qed.

Lemma Pos_iter_xO (m d : positive) :
  Zpos (Pos.iter xO m d) = Zpos m * 2 ^ Zpos d.
Proof.
  revert m. induction d as [|d IH] using Pos.peano_ind; intros m.
  - cbn. lia.
  - rewrite Pos.iter_succ, Pos2Z.inj_xO, IH, Pos2Z.inj_succ.
    rewrite Z.pow_succ_r by lia. lia.
Qed.

Lemma shl_align_le (m : positive) (e e' : Z) :
  e' ≤ e →
  Zpos (fst (shl_align m e e')) = Zpos m * 2 ^ (e - e')
  ∧ snd (shl_align m e e') = e'.
Proof.
  intros Hle. unfold shl_align.
  destruct (e' - e) as [|d|d] eqn:Hd; cbn [fst snd].
  - replace (e - e') with 0 by lia. split; lia.
  - lia.
  - rewrite Pos_iter_xO. replace (e - e') with (Zpos d) by lia. split; lia.
Qed.

Lemma shl_align_ge (m : positive) (e e' : Z) :
  e ≤ e' → shl_align m e e' = (m, e).
Proof.
  intros Hle. unfold shl_align.
  destruct (e' - e) as [|d|d] eqn:Hd; try reflexivity. lia.
Qed.

Lemma SF_val_binary_round (M : positive) (e : Z) :
  -1074 ≤ e →
  SF_val (binary_round prec emax false M e)
  = Z.min (rounded (Zpos M * 2 ^ (e + 1074)) (-1074)) (2 ^ 2098).
Proof.
  intros He. unfold binary_round. rewrite fexp_eq.
  change (Zpos (digits2_pos M)) with (Zdigits2 (Zpos M)).
  set (F := fexp64 (Zdigits2 (Zpos M) + e)).
  assert (HF : -1074 ≤ F) by (unfold F, fexp64; lia).
  destruct (Z.le_gt_cases e F) as [Hle|Hgt].
  - rewrite shl_align_ge by assumption.
    change (binary_round_aux prec emax false (Zpos M) e loc_Exact)
      with (rnd (Zpos M) e).
    assert (Hn : 0 ≤ shift_of (Zpos M) e) by (unfold shift_of; fold F; lia).
    rewrite SF_val_rnd by (try assumption; lia).
    rewrite (rounded_to_units _ _ (-1074)) by (try assumption; lia).
    replace (e - -1074) with (e + 1074) by lia. reflexivity.
  - destruct (shl_align_le M e F ltac:(lia)) as [Hm He'].
    destruct (shl_align M e F) as [mz ez]. cbn [fst snd] in Hm, He'. subst ez.
    change (binary_round_aux prec emax false (Zpos mz) F loc_Exact)
      with (rnd (Zpos mz) F).
    assert (Hn : shift_of (Zpos mz) F = 0).
    { unfold shift_of. rewrite Hm, Zdigits2_mul_pow2 by lia.
      replace (Zdigits2 (Zpos M) + (e - F) + F) with (Zdigits2 (Zpos M) + e)
        by lia. fold F. lia. }
    rewrite SF_val_rnd by lia.
    rewrite (rounded_to_units _ _ (-1074)) by lia.
    rewrite Hm. f_equal. f_equal.
    replace (e + 1074) with ((e - F) + (F - -1074)) by lia.
    rewrite (pow2_split (e - F)) by lia. lia.
Qed.

Lemma rounded_cap : rounded (2 ^ 2098) (-1074) = 2 ^ 2098.
Proof. vm_compute. reflexivity. Qed.

Lemma rounded_above_cap (v : Z) :
  2 ^ 2098 ≤ v → Z.min (rounded v (-1074)) (2 ^ 2098) = 2 ^ 2098.
Proof.
  intros Hv.
  pose proof (rounded_units_mono (2 ^ 2098) v (-1074) ltac:(lia) ltac:(lia) Hv)
    as Hm.
  rewrite rounded_cap in Hm. lia.
Qed.

Lemma SF_val_nonneg (x : spec_float) : 0 ≤ SF_val x.
Proof.
  destruct x as [s|s| |s m e]; cbn [SF_val]; lia.
Qed.

Lemma SF_val_le_cap (x : spec_float) :
  valid_binary x = true → SF_val x ≤ 2 ^ 2098.
Proof.
  intros Vx. destruct x as [s|s| |s m e]; cbn [SF_val]; try lia.
  pose proof (SF_val_finite_bounds _ _ _ Vx) as Hb. cbn [SF_val] in Hb. lia.
Qed.

(** A valid non-negative float is its own rounding. *)
Lemma SF_val_self (y : spec_float) :
  valid_binary y = true → SF_nonneg y = true →
  SF_val y = Z.min (rounded (SF_val y) (-1074)) (2 ^ 2098).
Proof.
  intros Vy Ny. destruct y as [[]|[]| |[] m e]; try discriminate.
  - cbn [SF_val]. rewrite rounded_zero. reflexivity.
  - cbn [SF_val]. rewrite rounded_cap. lia.
  - pose proof (SF_val_finite_bounds _ _ _ Vy) as Hb. cbn [SF_val] in *.
    rewrite (rounded_representable _ _ _ Vy). lia.
Qed.

(** The value of a binary64 sum is the rounded exact sum. *)
Theorem SF_val_add (x y : spec_float) :
  valid_binary x = true → valid_binary y = true →
  SF_nonneg x = true → SF_nonneg y = true →
  SF_val (SF64add x y)
  = Z.min (rounded (SF_val x + SF_val y) (-1074)) (2 ^ 2098).
Proof.
  intros Vx Vy Nx Ny.
  pose proof (SF_val_nonneg x) as Hx0. pose proof (SF_val_nonneg y) as Hy0.
  destruct x as [[]|[]| |[] mx ex]; try discriminate;
  destruct y as [[]|[]| |[] my ey]; try discriminate;
    unfold SF64add; cbn [SFadd].
  - cbn [SF_val]. rewrite rounded_zero. reflexivity.
  - rewrite rounded_above_cap; [reflexivity|cbn [SF_val]; lia].
  - change (SF_val (S754_zero false)) with 0. rewrite Z.add_0_l.
    by apply SF_val_self.
  - rewrite rounded_above_cap; [reflexivity|cbn [SF_val]; lia].
  - rewrite rounded_above_cap; [reflexivity|cbn [SF_val]; lia].
  - rewrite rounded_above_cap; [reflexivity|cbn [SF_val] in *; lia].
  - change (SF_val (S754_zero false)) with 0. rewrite Z.add_0_r.
    by apply SF_val_self.
  - rewrite rounded_above_cap; [reflexivity|cbn [SF_val] in *; lia].
  - pose proof (valid_finite _ _ _ Vx) as (Hex & _).
    pose proof (valid_finite _ _ _ Vy) as (Hey & _).
    set (ez := Z.min ex ey).
    destruct (shl_align_le mx ex ez ltac:(lia)) as [Hmx _].
    destruct (shl_align_le my ey ez ltac:(lia)) as [Hmy _].
    cbn [cond_Zopp]. unfold binary_normalize.
    destruct (Zpos (fst (shl_align mx ex ez)) + Zpos (fst (shl_align my ey ez)))
      as [|M|M] eqn:HM; try lia.
    rewrite SF_val_binary_round by lia.
    f_equal. f_equal. rewrite <- HM, Hmx, Hmy. cbn [SF_val].
    replace (ex + 1074) with ((ex - ez) + (ez + 1074)) by lia.
    replace (ey + 1074) with ((ey - ez) + (ez + 1074)) by lia.
    rewrite (pow2_split (ex - ez)), (pow2_split (ey - ez)) by lia. lia.
Qed.

(** The value of a binary64 product of finite floats is the rounded exact
    product. *)
Theorem SF_val_mul (x y : spec_float) :
  valid_binary x = true → valid_binary y = true →
  SF_nonneg x = true → SF_nonneg y = true →
  SF_val x < 2 ^ 2098 → SF_val y < 2 ^ 2098 →
  SF_val (SF64mul x y)
  = Z.min (rounded (SF_val x * SF_val y) (-2148)) (2 ^ 2098).
Proof.
  intros Vx Vy Nx Ny Fx Fy.
  destruct x as [[]|[]| |[] mx ex]; try discriminate;
  destruct y as [[]|[]| |[] my ey]; try discriminate;
    try (cbn [SF_val] in Fx, Fy; lia).
  - cbn. reflexivity.
  - cbn [SF64mul SFmul SF_val xorb]. unfold SF64mul. cbn [SFmul xorb SF_val].
    rewrite Z.mul_0_l, rounded_zero. reflexivity.
  - unfold SF64mul. cbn [SFmul xorb SF_val].
    rewrite Z.mul_0_r, rounded_zero. reflexivity.
  - by apply SF_val_mul_finite.
Qed.

End BinaryRounding.

(** ** Order and arithmetic of non-negative floats *)

Section FloatOrder.
Local Open Scope Z_scope.

Lemma nonneg_cases (x : float) :
  nonneg x = true →
  Prim2SF x = S754_zero false
  ∨ (∃ m e, Prim2SF x = S754_finite false m e)
  ∨ Prim2SF x = S754_infinity false.
Proof.
  unfold nonneg. destruct (Prim2SF x) as [[]|[]| |[] m e]; try discriminate;
    eauto.
Qed.

Lemma fval_nonneg (x : float) : 0 ≤ fval x.
Proof. apply SF_val_nonneg. Qed.

Lemma fval_le_cap (x : float) : fval x ≤ 2 ^ 2098.
Proof. apply SF_val_le_cap, Prim2SF_valid. Qed.

Lemma fval_inf (x : float) :
  Prim2SF x = S754_infinity false → fval x = 2 ^ 2098.
Proof. unfold fval. by intros ->. Qed.

Lemma fval_finite (x : float) :
  nonneg x = true → fval x < 2 ^ 2098 →
  Prim2SF x = S754_zero false ∨ ∃ m e, Prim2SF x = S754_finite false m e.
Proof.
  intros [H|[H|H]]%nonneg_cases Hlt; auto.
  rewrite (fval_inf x H) in Hlt. lia.
Qed.

Lemma finite_nonneg_fval (x : float) :
  finite_nonneg x = true → fval x < 2 ^ 2098.
Proof.
  intros Hx. pose proof (Prim2SF_valid x) as Vx. unfold fval.
  destruct (finite_nonneg_spec x Hx) as [->|(m & e & Hm)]; [by cbn|].
  rewrite Hm in *. by apply SF_val_finite_bounds.
Qed.

Lemma fval_add (x y : float) :
  nonneg x = true → nonneg y = true →
  fval (x + y) = Z.min (rounded (fval x + fval y) (-1074)) (2 ^ 2098).
Proof.
  intros Nx Ny. unfold fval. rewrite add_spec.
  apply SF_val_add; auto using Prim2SF_valid.
Qed.

Lemma fval_mul (x y : float) :
  nonneg x = true → nonneg y = true →
  fval x < 2 ^ 2098 → fval y < 2 ^ 2098 →
  fval (x * y) = Z.min (rounded (fval x * fval y) (-2148)) (2 ^ 2098).
Proof.
  intros Nx Ny Fx Fy. unfold fval. rewrite mul_spec.
  apply SF_val_mul; auto using Prim2SF_valid.
Qed.

Lemma ltb_fval (x y : float) :
  nonneg x = true → nonneg y = true →
  (x <? y)%float = (fval x <? fval y).
Proof.
  intros Nx Ny. rewrite FloatAxioms.ltb_spec. unfold SFltb, fval, Z.ltb.
  by rewrite (SFcompare_val _ _ (Prim2SF_valid x) (Prim2SF_valid y) Nx Ny).
Qed.

Lemma leb_fval (x y : float) :
  nonneg x = true → nonneg y = true →
  (x <=? y)%float = (fval x <=? fval y).
Proof.
  intros Nx Ny. rewrite FloatAxioms.leb_spec. unfold SFleb, fval, Z.leb.
  rewrite (SFcompare_val _ _ (Prim2SF_valid x) (Prim2SF_valid y) Nx Ny).
  by destruct (_ ?= _).
Qed.

Lemma mul_nonneg (x y : float) :
  nonneg x = true → nonneg y = true →
  fval x < 2 ^ 2098 → fval y < 2 ^ 2098 →
  nonneg (x * y) = true.
Proof.
  intros Nx Ny Fx Fy.
  destruct (fval_finite x Nx Fx) as [Hx|(m & e & Hx)],
           (fval_finite y Ny Fy) as [Hy|(n & f & Hy)];
    unfold nonneg; rewrite mul_spec, Hx, Hy; unfold SF64mul; cbn [SFmul xorb];
    try reflexivity.
  apply binary_round_aux_nonneg. lia.
Qed.

(** Sums and products are monotone. *)
Lemma add_mono (a b c d : float) :
  nonneg a = true → nonneg b = true → nonneg c = true → nonneg d = true →
  fval a ≤ fval b → fval c ≤ fval d → fval (a + c) ≤ fval (b + d).
Proof.
  intros Na Nb Nc Nd Hab Hcd. rewrite !fval_add by assumption.
  pose proof (fval_nonneg a). pose proof (fval_nonneg c).
  apply Z.min_le_compat_r. apply rounded_units_mono; lia.
Qed.

Lemma mul_mono (a b c d : float) :
  nonneg a = true → nonneg b = true → nonneg c = true → nonneg d = true →
  fval b < 2 ^ 2098 → fval d < 2 ^ 2098 →
  fval a ≤ fval b → fval c ≤ fval d → fval (a * c) ≤ fval (b * d).
Proof.
  intros Na Nb Nc Nd Fb Fd Hab Hcd. rewrite !fval_mul by (assumption || lia).
  pose proof (fval_nonneg a). pose proof (fval_nonneg c).
  apply Z.min_le_compat_r. apply rounded_units_mono; [lia|nia|nia].
Qed.

Lemma ltb_nan_or_inf (x y : float) :
  Prim2SF x = S754_nan ∨ Prim2SF x = S754_infinity false →
  (x <? y)%float = false.
Proof.
  intros Hx. rewrite FloatAxioms.ltb_spec. unfold SFltb.
  destruct Hx as [-> | ->]; [reflexivity|].
  by destruct (Prim2SF y) as [[]|[]| |[] m e].
Qed.

(** A larger subtotal never gives a smaller total. *)
Theorem total_mono (s1 s2 t : float) :
  nonneg s1 = true → nonneg s2 = true → nonneg t = true →
  fval s1 ≤ fval s2 →
  (s2 + s2 * t <? s1 + s1 * t)%float = false.
Proof.
  intros N1 N2 Nt Hle.
  assert (Hspecial :
    Prim2SF (s2 + s2 * t) = S754_nan
    ∨ Prim2SF (s2 + s2 * t) = S754_infinity false
    ∨ (fval s2 < 2 ^ 2098 ∧ fval t < 2 ^ 2098)).
  { pose proof (Prim2SF_valid s2) as V2. pose proof (Prim2SF_valid t) as Vt.
    rewrite add_spec, mul_spec. unfold fval.
    destruct (nonneg_cases s2 N2) as [H2|[(m & e & H2)|H2]],
             (nonneg_cases t Nt) as [H|[(n & f & H)|H]];
      rewrite H2, H in *; unfold SF64add, SF64mul; cbn [SFmul SFadd xorb];
      auto;
      right; right; cbn [SF_val]; split; try lia;
      eapply SF_val_finite_bounds; eassumption. }
  destruct Hspecial as [H|[H|[F2 Ft]]]; [by apply ltb_nan_or_inf; auto..|].
  assert (F1 : fval s1 < 2 ^ 2098) by lia.
  assert (nonneg (s1 * t) = true) by (by apply mul_nonneg).
  assert (nonneg (s2 * t) = true) by (by apply mul_nonneg).
  rewrite ltb_fval by (by apply add_nonneg).
  apply Z.ltb_ge. apply add_mono; try assumption.
  apply mul_mono; try assumption; lia.
Qed.

End FloatOrder.

(** ** NumPy's sum *)

(** [-0.0] is neutral for binary64 addition. *)
Lemma neg_zero_add_l (x : float) : (neg_zero + x)%float = x.
Proof.
  apply Prim2SF_inj. rewrite add_spec.
  change (Prim2SF neg_zero) with (S754_zero true). unfold SF64add.
  by destruct (Prim2SF x) as [[]|[]| |[] m e].
Qed.

Lemma fold_left_neg_zero (x : float) (xs : list float) :
  fold_left PrimFloat.add (x :: xs) neg_zero = fold_left PrimFloat.add xs x.
Proof. simpl. by rewrite neg_zero_add_l. Qed.

(** A list of fewer than 8 numbers, or its first 8 and the others. *)
Lemma list_split8 {A} (a : list A) :
  (length a < 8)%nat
  ∨ ∃ a0 a1 a2 a3 a4 a5 a6 a7 rest,
      a = a0 :: a1 :: a2 :: a3 :: a4 :: a5 :: a6 :: a7 :: rest.
Proof.
  do 8 (destruct a as [|? a]; [left; simpl; lia|]).
  right. by repeat eexists.
Qed.

Lemma pairwise_block_short (a : list float) :
  (length a < 8)%nat → pairwise_block a = fold_left PrimFloat.add a neg_zero.
Proof.
  intros Hlen.
  do 8 (destruct a as [|? a]; [reflexivity|]). simpl in Hlen. lia.
Qed.

Lemma pairwise_sum_small (fuel : nat) (a : list float) :
  (length a ≤ 128)%nat → pairwise_sum fuel a = pairwise_block a.
Proof.
  intros Hlen. destruct fuel as [|fuel]; [reflexivity|]. simpl.
  destruct (Nat.ltb_spec 128 (length a)); [lia|reflexivity].
Qed.

(** Fewer than 8 numbers are added in order. *)
Lemma np_sum_short (x : float) (xs : list float) :
  (length (x :: xs) < 8)%nat →
  np_sum (x :: xs) = fold_left PrimFloat.add xs x.
Proof.
  intros Hlen. unfold np_sum.
  rewrite neg_zero_add_l, pairwise_sum_small by lia.
  by rewrite pairwise_block_short, fold_left_neg_zero.
Qed.

Lemma np_sum_singleton (x : float) : np_sum [x] = x.
Proof. by rewrite np_sum_short by (simpl; lia). Qed.

(** Exactly 8 numbers are added in pairs. *)
Lemma np_sum_eight (a0 a1 a2 a3 a4 a5 a6 a7 : float) :
  np_sum [a0; a1; a2; a3; a4; a5; a6; a7]
  = (((a0 + a1) + (a2 + a3)) + ((a4 + a5) + (a6 + a7)))%float.
Proof. unfold np_sum. by rewrite neg_zero_add_l. Qed.

Section SumRelation.
Variable R : float → float → Prop.
Hypothesis R_add : ∀ a b c d, R a b → R c d → R (a + c)%float (b + d)%float.

Lemma fold_add_rel (xs ys : list float) (a b : float) :
  Forall2 R xs ys → R a b →
  R (fold_left PrimFloat.add xs a) (fold_left PrimFloat.add ys b).
Proof.
  intros Hall. revert a b.
  induction Hall as [|x y xs ys Hxy _ IH]; intros a b Hab; simpl; [done|].
  apply IH. by apply R_add.
Qed.

Lemma accumulate8_rel (n : nat) :
  ∀ (a b : list float) (r0 r1 r2 r3 r4 r5 r6 r7 s0 s1 s2 s3 s4 s5 s6 s7 : float),
  (length a ≤ n)%nat → Forall2 R a b →
  R r0 s0 → R r1 s1 → R r2 s2 → R r3 s3 →
  R r4 s4 → R r5 s5 → R r6 s6 → R r7 s7 →
  R (accumulate8 r0 r1 r2 r3 r4 r5 r6 r7 a)
    (accumulate8 s0 s1 s2 s3 s4 s5 s6 s7 b).
Proof.
  induction n as [|n IH]; intros a b r0 r1 r2 r3 r4 r5 r6 r7
    s0 s1 s2 s3 s4 s5 s6 s7 Hlen Hall H0 H1 H2 H3 H4 H5 H6 H7.
  { destruct a; [|simpl in Hlen; lia]. apply Forall2_nil_inv_l in Hall as ->.
    simpl. auto. }
  assert (Hcomb : R (r0 + r1 + (r2 + r3) + (r4 + r5 + (r6 + r7)))%float
                    (s0 + s1 + (s2 + s3) + (s4 + s5 + (s6 + s7)))%float)
    by auto.
  do 8 (destruct Hall as [|? ? ? ? ? Hall];
        [by apply fold_add_rel; repeat constructor|]).
  cbn [accumulate8]. apply IH; auto. simpl in Hlen. lia.
Qed.

Lemma pairwise_block_rel (a b : list float) :
  Forall2 R a b → a ≠ [] → R (pairwise_block a) (pairwise_block b).
Proof.
  intros Hall Hne. pose proof (Forall2_length _ _ _ Hall) as Hlen.
  destruct (list_split8 a) as [Hshort|(a0 & a1 & a2 & a3 & a4 & a5 & a6 & a7
                                        & rest & ->)].
  - rewrite !pairwise_block_short by lia.
    destruct Hall as [|x y xs ys Hxy Hall]; [done|].
    rewrite !fold_left_neg_zero. by apply fold_add_rel.
  - do 8 (apply Forall2_cons_inv_l in Hall as (? & ? & ? & Hall & ->)).
    cbn [pairwise_block]. by eapply accumulate8_rel.
Qed.

Lemma pairwise_sum_rel (fuel : nat) (a b : list float) :
  Forall2 R a b → a ≠ [] → R (pairwise_sum fuel a) (pairwise_sum fuel b).
Proof.
  revert a b. induction fuel as [|fuel IH]; intros a b Hall Hne;
    [by apply pairwise_block_rel|].
  cbn [pairwise_sum]. rewrite <- (Forall2_length _ _ _ Hall).
  destruct (Nat.ltb_spec 128 (length a)) as [Hbig|_];
    [|by apply pairwise_block_rel].
  set (n2 := (length a / 2 - (length a / 2) mod 8)%nat).
  assert (Hn2 : (0 < n2 < length a)%nat).
  { subst n2. pose proof (Nat.mod_upper_bound (length a / 2) 8 ltac:(lia)).
    pose proof (Nat.div_mod_eq (length a) 2).
    pose proof (Nat.mod_upper_bound (length a) 2 ltac:(lia)). lia. }
  clearbody n2.
  apply R_add; apply IH.
  - by apply Forall2_take.
  - intros Htake. apply (f_equal length) in Htake.
    rewrite length_take in Htake. cbn [length] in Htake. lia.
  - by apply Forall2_drop.
  - intros Hdrop. apply (f_equal length) in Hdrop.
    rewrite length_drop in Hdrop. cbn [length] in Hdrop. lia.
Qed.

Theorem np_sum_rel (a b : list float) :
  Forall2 R a b → a ≠ [] → R (np_sum a) (np_sum b).
Proof.
  intros Hall Hne. pose proof (pairwise_sum_rel (length a) a b Hall Hne) as H.
  rewrite (Forall2_length _ _ _ Hall) in H at 2.
  destruct Hall; [done|]. unfold np_sum. by rewrite !neg_zero_add_l.
Qed.
End SumRelation.

(** The sum of non-negative numbers is not negative and not NaN. *)
Lemma np_sum_nonneg (xs : list float) :
  xs ≠ [] → Forall (λ x, nonneg x = true) xs → nonneg (np_sum xs) = true.
Proof.
  intros Hne Hxs.
  refine (np_sum_rel (λ x _, nonneg x = true) _ xs xs _ Hne).
  - intros a b c d Ha Hc. by apply add_nonneg.
  - by apply Forall_Forall2_diag.
Qed.

(** The sum is monotone in each of its numbers. *)
Lemma np_sum_mono (xs ys : list float) :
  xs ≠ [] →
  Forall2 (λ x y, nonneg x = true ∧ nonneg y = true ∧ (fval x ≤ fval y)%Z)
          xs ys →
  nonneg (np_sum xs) = true ∧ nonneg (np_sum ys) = true
  ∧ (fval (np_sum xs) ≤ fval (np_sum ys))%Z.
Proof.
  intros Hne Hall.
  apply (np_sum_rel (λ x y, nonneg x = true ∧ nonneg y = true
                             ∧ (fval x ≤ fval y)%Z)); [|done|done].
  intros a b c d (Na & Nb & Hab) (Nc & Nd & Hcd).
  split; [by apply add_nonneg|]. split; [by apply add_nonneg|].
  by apply add_mono.
Qed.

Lemma skipna_nonneg (xs : list float) :
  Forall (λ x, nonneg x = true) xs → skipna <$> xs = xs.
Proof.
  intros Hxs. induction Hxs as [|x xs Hx _ IH]; [done|].
  rewrite fmap_cons, IH. unfold skipna. by rewrite (nonneg_not_nan x Hx).
Qed.

Lemma fsum_nonneg_from (xs : list float) (acc : float) :
  nonneg acc = true → Forall (λ x, nonneg x = true) xs →
  nonneg (fold_left PrimFloat.add xs acc) = true.
Proof.
  intros Hacc Hxs. revert acc Hacc.
  induction Hxs as [|x xs Hx _ IH]; intros acc Hacc; simpl; [done|].
  apply IH. by apply add_nonneg.
Qed.

Lemma fsum_nonneg (xs : list float) :
  Forall (λ x, nonneg x = true) xs → nonneg (fsum xs) = true.
Proof. by apply fsum_nonneg_from. Qed.

(** Fewer than 8 non-negative numbers: the sum in row order. *)
Lemma np_sum_fsum (xs : list float) :
  (length xs < 8)%nat → Forall (λ x, nonneg x = true) xs →
  np_sum xs = fsum xs.
Proof.
  intros Hlen Hxs. destruct Hxs as [|x xs Hx _]; [reflexivity|].
  rewrite np_sum_short by done. unfold fsum. simpl.
  by rewrite add_zero_l.
Qed.

Lemma np_sum_app_short (xs ys : list float) :
  xs ≠ [] → (length (xs ++ ys) < 8)%nat →
  np_sum (xs ++ ys) = fold_left PrimFloat.add ys (np_sum xs).
Proof.
  intros Hne Hlen. destruct xs as [|x xs]; [done|].
  rewrite length_app in Hlen. simpl in Hlen.
  rewrite <- app_comm_cons, !np_sum_short
    by (simpl; rewrite ?length_app; lia).
  by rewrite fold_left_app.
Qed.

(** ** The table *)

Lemma pd_DataFrame_lookup (records : list (gmap string json)) (c : string) :
  pd_DataFrame records !! c =
    if decide (c ∈ (⋃ (dom <$> records) : gset string))
    then Some (infer_column (cell c <$> records)) else None.
Proof.
  unfold pd_DataFrame. case_decide as Hc.
  - apply lookup_set_to_map; [naive_solver|]. eauto.
  - apply eq_None_not_Some. intros [s Hs].
    apply lookup_set_to_map in Hs as (c' & Hc' & [= -> _]);
      [done|naive_solver].
Qed.

Lemma pd_DataFrame_column (records : list (gmap string json)) (c : string) :
  Exists (λ r, is_Some (r !! c)) records →
  pd_DataFrame records !! c = Some (infer_column (cell c <$> records)).
Proof.
  intros (r & Hr & Hc)%Exists_exists.
  rewrite pd_DataFrame_lookup, decide_True; [done|].
  apply elem_of_union_list. exists (dom r). split.
  - apply list_elem_of_fmap. eauto.
  - by apply elem_of_dom.
Qed.

Lemma pd_DataFrame_no_column (records : list (gmap string json))
    (c : string) :
  Forall (λ r, r !! c = None) records → pd_DataFrame records !! c = None.
Proof.
  intros Hall. rewrite pd_DataFrame_lookup, decide_False; [done|].
  intros (X & (r & -> & Hr)%list_elem_of_fmap & Hc)%elem_of_union_list.
  apply elem_of_dom in Hc as [x Hx].
  rewrite Forall_forall in Hall. by rewrite (Hall r Hr) in Hx.
Qed.

(** *** The dtype of a column *)

Lemma mapM_as_float64 (cells : list (option json)) :
  Forall (λ v, is_numeric v = true) cells →
  mapM as_float64 cells = Some ((λ v, default nan (as_float64 v)) <$> cells).
Proof.
  intros Hall. induction Hall as [|v cells Hv _ IH]; [done|].
  cbn [mapM]. fold (mapM as_float64 cells). rewrite IH.
  by destruct v as [[]|].
Qed.

Lemma is_float_numeric (v : option json) :
  is_float v = true → is_numeric v = true.
Proof. by destruct v as [[]|]. Qed.

(** A column of floats and missing cells is float64. *)
Lemma infer_column_float (cells : list (option json)) :
  cells ≠ [] → Forall (λ v, is_float v = true) cells →
  infer_column cells = Float64 ((λ v, default nan (as_float64 v)) <$> cells).
Proof.
  intros Hne Hall. unfold infer_column.
  rewrite mapM_as_float64
    by (eapply Forall_impl; [exact Hall|]; apply is_float_numeric).
  destruct Hall as [|v cells Hv Hall]; [done|].
  cbn [mapM]. by destruct v as [[]|].
Qed.

(** A column without strings is int64 or float64. *)
Lemma infer_column_numeric (cells : list (option json)) :
  Forall (λ v, is_numeric v = true) cells →
  (∃ ints, infer_column cells = Int64 ints)
  ∨ (∃ floats, infer_column cells = Float64 floats).
Proof.
  intros Hall. unfold infer_column.
  destruct (mapM as_int64 cells); [eauto|].
  rewrite mapM_as_float64 by done. eauto.
Qed.

Lemma pd_DataFrame_items (items : list LineItem) (c : string)
    (field : LineItem → float) :
  items ≠ [] →
  (∀ it, to_record it !! c = Some (JFloat (field it))) →
  pd_DataFrame (to_record <$> items) !! c = Some (Float64 (field <$> items)).
Proof.
  intros Hne Hfield. rewrite pd_DataFrame_column.
  - f_equal. rewrite infer_column_float.
    + f_equal. rewrite <- !list_fmap_compose. apply list_fmap_ext.
      intros _ it _. unfold cell. simpl. by rewrite Hfield.
    + by destruct items.
    + rewrite <- list_fmap_compose. apply Forall_fmap, Forall_true.
      intros it. unfold cell. simpl. by rewrite Hfield.
  - destruct items as [|it items]; [done|]. left. rewrite Hfield. eauto.
Qed.

(** ** The calculation engine *)

(** On float64 columns. *)
Lemma calculation_engine_float64 (df : DataFrame) (tax_rate : float)
    (qty price_hd price_lowes : list float) :
  df !! "Qty" = Some (Float64 qty) →
  df !! "Price_HD" = Some (Float64 price_hd) →
  df !! "Price_Lowes" = Some (Float64 price_lowes) →
  calculation_engine df tax_rate
  = Ok (price_comparison
          (np_sum (skipna <$> zip_with PrimFloat.mul qty price_hd))
          (np_sum (skipna <$> zip_with PrimFloat.mul qty price_lowes))
          tax_rate).
Proof.
  intros Hq Hh Hl. unfold calculation_engine, getitem.
  rewrite Hq, Hh, !bind_Ok. cbn [Series_mul]. rewrite bind_Ok.
  rewrite (lookup_insert_ne df "Total HD" "Qty") by done.
  rewrite (lookup_insert_ne df "Total HD" "Price_Lowes") by done.
  rewrite Hq, Hl, !bind_Ok. cbn [Series_mul]. rewrite bind_Ok.
  rewrite (lookup_insert_ne _ "Total Lowes" "Total HD") by discriminate.
  rewrite !lookup_insert_eq, !bind_Ok. reflexivity.
Qed.

Lemma calculation_engine_no_Qty (df : DataFrame) (tax_rate : float) :
  df !! "Qty" = None →
  calculation_engine df tax_rate = Raise (KeyError "Qty").
Proof.
  intros Hq. unfold calculation_engine, getitem. by rewrite Hq.
Qed.

Lemma compute_items_ok (items : list LineItem) (tax_rate : float) :
  items ≠ [] →
  compute_items items tax_rate
  = Ok (price_comparison (np_sum (skipna <$> totals_hd items))
          (np_sum (skipna <$> totals_lowes items)) tax_rate).
Proof.
  intros Hne. unfold compute_items, compute_pricing.
  rewrite (calculation_engine_float64 _ _ (Qty <$> items)
             (Price_HD <$> items) (Price_Lowes <$> items))
    by (by apply pd_DataFrame_items).
  unfold totals_hd, totals_lowes.
  by rewrite !zip_with_fmap_l, !zip_with_fmap_r, !zip_with_diag.
Qed.

(** On well-formed items no row total is NaN, so the sum skips nothing. *)
Lemma totals_hd_nonneg (items : list LineItem) :
  Forall (λ it, well_formed it = true) items →
  Forall (λ x, nonneg x = true) (totals_hd items).
Proof.
  intros Hwf. unfold totals_hd. apply Forall_fmap.
  eapply Forall_impl; [exact Hwf|]. intros it Hit. simpl.
  unfold well_formed in Hit. apply andb_prop in Hit as [Hit _].
  apply andb_prop in Hit as [Hq Hp]. by apply mul_finite_nonneg.
Qed.

Lemma totals_lowes_nonneg (items : list LineItem) :
  Forall (λ it, well_formed it = true) items →
  Forall (λ x, nonneg x = true) (totals_lowes items).
Proof.
  intros Hwf. unfold totals_lowes. apply Forall_fmap.
  eapply Forall_impl; [exact Hwf|]. intros it Hit. simpl.
  unfold well_formed in Hit. apply andb_prop in Hit as [Hit Hl].
  apply andb_prop in Hit as [Hq _]. by apply mul_finite_nonneg.
Qed.

Lemma compute_items_well_formed (items : list LineItem) (tax_rate : float) :
  items ≠ [] → Forall (λ it, well_formed it = true) items →
  compute_items items tax_rate
  = Ok (price_comparison (np_sum (totals_hd items))
          (np_sum (totals_lowes items)) tax_rate).
Proof.
  intros Hne Hwf. rewrite compute_items_ok by done.
  by rewrite !skipna_nonneg by auto using totals_hd_nonneg, totals_lowes_nonneg.
Qed.

Lemma totals_hd_nil (items : list LineItem) :
  items ≠ [] → totals_hd items ≠ [].
Proof. by destruct items. Qed.

Lemma totals_lowes_nil (items : list LineItem) :
  items ≠ [] → totals_lowes items ≠ [].
Proof. by destruct items. Qed.



(** ** Monotonicity of the engine *)

Lemma well_formed_fields (it : LineItem) :
  well_formed it = true →
  finite_nonneg (Qty it) = true ∧ finite_nonneg (Price_HD it) = true
  ∧ finite_nonneg (Price_Lowes it) = true.
Proof.
  unfold well_formed. intros [[Hq Hh]%andb_prop Hl]%andb_prop. auto.
Qed.

Lemma product_mono (q q' p p' : float) :
  finite_nonneg q = true → finite_nonneg q' = true →
  finite_nonneg p = true → finite_nonneg p' = true →
  (q <=? q')%float = true → (p <=? p')%float = true →
  nonneg (q * p) = true ∧ nonneg (q' * p') = true
  ∧ (fval (q * p) ≤ fval (q' * p'))%Z.
Proof.
  intros Hq Hq' Hp Hp' Hqq Hpp.
  pose proof (finite_nonneg_nonneg _ Hq). pose proof (finite_nonneg_nonneg _ Hq').
  pose proof (finite_nonneg_nonneg _ Hp). pose proof (finite_nonneg_nonneg _ Hp').
  rewrite leb_fval in Hqq, Hpp by assumption.
  apply Z.leb_le in Hqq, Hpp.
  split; [by apply mul_finite_nonneg|]. split; [by apply mul_finite_nonneg|].
  apply mul_mono; auto using finite_nonneg_fval.
Qed.

Lemma totals_mono (items items' : list LineItem) :
  Forall2 (λ it it', well_formed it = true ∧ well_formed it' = true
                      ∧ item_le it it' = true) items items' →
  Forall2 (λ x y, nonneg x = true ∧ nonneg y = true ∧ (fval x ≤ fval y)%Z)
          (totals_hd items) (totals_hd items')
  ∧ Forall2 (λ x y, nonneg x = true ∧ nonneg y = true ∧ (fval x ≤ fval y)%Z)
          (totals_lowes items) (totals_lowes items').
Proof.
  intros Hall. unfold totals_hd, totals_lowes.
  split; apply Forall2_fmap; (eapply Forall2_impl; [exact Hall|]);
    intros it it' (Hw & Hw' & Hle); simpl;
    apply well_formed_fields in Hw as (Hq & Hh & Hl);
    apply well_formed_fields in Hw' as (Hq' & Hh' & Hl');
    unfold item_le in Hle;
    apply andb_prop in Hle as [[Hqq Hhh]%andb_prop Hll];
    by apply product_mono.
Qed.

Lemma valid_rate_decimal (tax_rate : float) :
  valid_rate tax_rate = true → nonneg (tax_rate / 100) = true.
Proof.
  unfold valid_rate. intros [Hf _]%andb_prop. by apply div_100_nonneg.
Qed.

Lemma item_le_refl (it : LineItem) :
  well_formed it = true → item_le it it = true.
Proof.
  intros (Hq & Hh & Hl)%well_formed_fields. unfold item_le.
  rewrite !leb_fval by (by apply finite_nonneg_nonneg).
  rewrite !Z.leb_refl. reflexivity.
Qed.

(** Raising quantities and prices never lowers a total. *)
Lemma compute_items_mono (items items' : list LineItem) (tax_rate : float) :
  items ≠ [] →
  Forall2 (λ it it', well_formed it = true ∧ well_formed it' = true
                      ∧ item_le it it' = true) items items' →
  valid_rate tax_rate = true →
  ∃ r r', compute_items items tax_rate = Ok r
    ∧ compute_items items' tax_rate = Ok r'
    ∧ (hd_final r' <? hd_final r)%float = false
    ∧ (lowes_final r' <? lowes_final r)%float = false.
Proof.
  intros Hne Hall Hrate.
  assert (Hne' : items' ≠ []).
  { destruct Hall; [done|discriminate]. }
  assert (Hwf : Forall (λ it, well_formed it = true) items).
  { eapply Forall2_Forall_l; [exact Hall|]. apply Forall_true. tauto. }
  assert (Hwf' : Forall (λ it, well_formed it = true) items').
  { eapply Forall2_Forall_r; [exact Hall|]. apply Forall_true. tauto. }
  destruct (totals_mono items items' Hall) as [Hhd Hlo].
  pose proof (valid_rate_decimal tax_rate Hrate) as Ht.
  destruct (np_sum_mono _ _ (totals_hd_nil _ Hne) Hhd) as (N1 & N2 & Hhd').
  destruct (np_sum_mono _ _ (totals_lowes_nil _ Hne) Hlo) as (N3 & N4 & Hlo').
  do 2 eexists. split; [by apply compute_items_well_formed|].
  split; [by apply compute_items_well_formed|].
  cbn [price_comparison hd_final lowes_final].
  split; by apply total_mono.
Qed.

(** The engine by the three columns it reads. *)
Lemma calculation_engine_cases (df : DataFrame) (tax_rate : float) :
  calculation_engine df tax_rate
  = (qty ← getitem df "Qty";
     price_hd ← getitem df "Price_HD";
     total_hd ← Series_mul qty price_hd;
     price_lowes ← getitem df "Price_Lowes";
     total_lowes ← Series_mul qty price_lowes;
     tally total_hd total_lowes tax_rate).
Proof.
  unfold calculation_engine, getitem.
  destruct (df !! "Qty") as [qty|] eqn:Hq; [|reflexivity].
  destruct (df !! "Price_HD") as [hd|] eqn:Hh; [|reflexivity].
  rewrite !bind_Ok.
  destruct (Series_mul qty hd) as [total_hd|e]; [|reflexivity].
  rewrite !bind_Ok.
  rewrite (lookup_insert_ne df "Total HD" "Qty") by done.
  rewrite (lookup_insert_ne df "Total HD" "Price_Lowes") by done.
  rewrite Hq. destruct (df !! "Price_Lowes") as [lo|] eqn:Hl; [|reflexivity].
  rewrite !bind_Ok.
  destruct (Series_mul qty lo) as [total_lowes|e]; [|reflexivity].
  rewrite !bind_Ok.
  rewrite (lookup_insert_ne _ "Total Lowes" "Total HD") by discriminate.
  rewrite !lookup_insert_eq, !bind_Ok. reflexivity.
Qed.

(** *** Columns of numbers raise nothing *)

Lemma Series_mul_numeric (a b : Series) :
  numeric_dtype a = true → numeric_dtype b = true →
  ∃ s, Series_mul a b = Ok s ∧ numeric_dtype s = true.
Proof. destruct a, b; try discriminate; intros _ _; cbn; eauto. Qed.

Lemma tally_numeric (total_hd total_lowes : Series) (tax_rate : float) :
  numeric_dtype total_hd = true → numeric_dtype total_lowes = true →
  is_Ok (tally total_hd total_lowes tax_rate) = true.
Proof. destruct total_hd, total_lowes; try discriminate; reflexivity. Qed.


Lemma infer_column_numeric_dtype (cells : list (option json)) :
  Forall (λ v, is_numeric v = true) cells →
  numeric_dtype (infer_column cells) = true.
Proof.
  intros [[ints ->]|[floats ->]]%infer_column_numeric; reflexivity.
Qed.

Lemma cells_of_column (p : option json → bool) (records : list (gmap string json))
    (c : string) :
  c ∈ priced_columns →
  forallb (λ r, forallb (λ c, p (cell c r)) priced_columns) records = true →
  Forall (λ v, p v = true) (cell c <$> records).
Proof.
  intros Hc Hall. apply Forall_fmap, Forall_forall. intros r Hr.
  rewrite forallb_forall in Hall. apply list_elem_of_In in Hr.
  specialize (Hall r Hr). rewrite forallb_forall in Hall.
  apply Hall. by apply list_elem_of_In.
Qed.

Lemma priced_Qty : "Qty" ∈ priced_columns.
Proof. unfold priced_columns. set_solver. Qed.
Lemma priced_HD : "Price_HD" ∈ priced_columns.
Proof. unfold priced_columns. set_solver. Qed.
Lemma priced_Lowes : "Price_Lowes" ∈ priced_columns.
Proof. unfold priced_columns. set_solver. Qed.

Lemma numeric_column (records : list (gmap string json)) (c : string) :
  c ∈ priced_columns → numeric_cells records = true →
  numeric_dtype (infer_column (cell c <$> records)) = true.
Proof.
  intros Hc Hnum. by apply infer_column_numeric_dtype, cells_of_column.
Qed.



(** *** A string that meets a float raises *)











(** ** The claims about the pricing engine *)

(** C1 (as the code has it): on a non-empty list of well-formed items
    (their numbers floats) each subtotal is NumPy's binary64 sum of the
    row products quantity * price, which for fewer than 8 rows is their
    sum in row order; the tax is subtotal * (rate / 100) and the total is
    subtotal + tax; for a single item the total is
    q * p + q * p * (rate / 100), each operation rounded. *)
Theorem pricing_formulas (items : list LineItem) (tax_rate : float) :
  items ≠ [] →
  Forall (λ it, well_formed it = true) items →
  ∃ r, compute_items items tax_rate = Ok r
    ∧ hd_subtotal r = np_sum (totals_hd items)
    ∧ lowes_subtotal r = np_sum (totals_lowes items)
    ∧ ((length items < 8)%nat →
       hd_subtotal r = fsum (totals_hd items)
       ∧ lowes_subtotal r = fsum (totals_lowes items))
    ∧ hd_tax r = (hd_subtotal r * (tax_rate / 100))%float
    ∧ lowes_tax r = (lowes_subtotal r * (tax_rate / 100))%float
    ∧ hd_final r = (hd_subtotal r + hd_tax r)%float
    ∧ lowes_final r = (lowes_subtotal r + lowes_tax r)%float
    ∧ ∀ it, items = [it] →
        hd_final r = (Qty it * Price_HD it
                      + Qty it * Price_HD it * (tax_rate / 100))%float
        ∧ lowes_final r = (Qty it * Price_Lowes it
                      + Qty it * Price_Lowes it * (tax_rate / 100))%float.
Proof.
  intros Hne Hwf. eexists. split; [by apply compute_items_well_formed|].
  pose proof (totals_hd_nonneg items Hwf) as Hhd.
  pose proof (totals_lowes_nonneg items Hwf) as Hlo.
  cbn [price_comparison hd_subtotal lowes_subtotal hd_tax lowes_tax
       hd_final lowes_final].
  do 2 (split; [reflexivity|]). split.
  { intros Hlen.
    split; apply np_sum_fsum; try assumption;
      unfold totals_hd, totals_lowes; by rewrite length_fmap. }
  do 4 (split; [reflexivity|]).
  intros it ->. cbn [totals_hd totals_lowes fmap list_fmap].
  by rewrite !np_sum_singleton.
Qed.



Lemma pricing_formulas_witness :
  ∃ r, compute_items [ {| Qty := 10; Price_HD := 2.5; Price_Lowes := 2.75 |} ]
         7 = Ok r
    ∧ hd_subtotal r = 25%float ∧ lowes_subtotal r = 27.5%float.
Proof.
  destruct (pricing_formulas
    [ {| Qty := 10; Price_HD := 2.5; Price_Lowes := 2.75 |} ] 7%float)
    as (r & Hr & Hhd & Hlo & _).
  - discriminate.
  - repeat constructor.
  - exists r. split; [exact Hr|]. split; [exact Hhd | exact Hlo].
Defined.

(** The factored form of C1 fails: two units at 5.00 with 7 % tax total
    10 + 10 * 0.07 = 10.7, while 2 * 5 * (1 + 0.07) rounds to
    10.700000000000001. *)
Lemma factored_total_counterexample :
  well_formed {| Qty := 2; Price_HD := 5; Price_Lowes := 5 |} = true
  ∧ valid_rate 7 = true
  ∧ ∃ r, compute_items [ {| Qty := 2; Price_HD := 5; Price_Lowes := 5 |} ] 7
         = Ok r
      ∧ (hd_final r =? 2 * 5 * (1 + 7 / 100))%float = false
      ∧ hd_final r ≠ (2 * 5 * (1 + 7 / 100))%float.
Proof.
  split; [reflexivity|]. split; [reflexivity|].
  eexists. split; [vm_compute; reflexivity|].
  split; [vm_compute; reflexivity|].
  intros Heq. apply (f_equal Prim2SF) in Heq. vm_compute in Heq.
  discriminate Heq.
Qed.

(** From 8 rows on the subtotal is not the sum in row order: eight rows
    of quantity 1 at 0.1, 0.2, ..., 0.8 have the subtotal 3.6, which is
    ((0.1 + 0.2) + (0.3 + 0.4)) + ((0.5 + 0.6) + (0.7 + 0.8)); added in
    row order they give 3.5999999999999996.  Against a Lowe's subtotal
    of 3.6 the first is a tie, which Lowe's wins; the second would make
    Home Depot the winner. *)
Lemma eight_rows_pairwise :
  let items := (λ p, {| Qty := 1; Price_HD := p; Price_Lowes := 0.45 |})
               <$> [0.1; 0.2; 0.3; 0.4; 0.5; 0.6; 0.7; 0.8]%float in
  length items = 8%nat
  ∧ forallb well_formed items = true
  ∧ ∃ r, compute_items items 0 = Ok r
      ∧ hd_subtotal r = 3.6%float
      ∧ lowes_subtotal r = 3.6%float
      ∧ winner r = Lowes
      ∧ fsum (totals_hd items) = 3.5999999999999996%float
      ∧ (fsum (totals_hd items) <? lowes_subtotal r)%float = true.
Proof.
  split; [reflexivity|]. split; [reflexivity|].
  eexists. split; [vm_compute; reflexivity|].
  repeat split; vm_compute; reflexivity.
Qed.

(** C3: an empty shopping list gives a table without columns, and the
    first column access raises [KeyError: 'Qty']. *)
Theorem compute_pricing_empty (tax_rate : float) :
  compute_items [] tax_rate = Raise (KeyError "Qty").
Proof.
  unfold compute_items, compute_pricing.
  apply calculation_engine_no_Qty. by apply pd_DataFrame_no_column.
Qed.

(** The sibling path of C3: a table that still has its columns but no
    rows (every row deleted in the editor) prices to zero, Lowe's winning
    the tie. *)
Lemma emptied_table_zero :
  calculation_engine
    {[ "Qty" := Float64 []; "Price_HD" := Float64 [];
       "Price_Lowes" := Float64 [] ]} 7
  = Ok {| hd_subtotal := 0; lowes_subtotal := 0; hd_tax := 0; lowes_tax := 0;
          hd_final := 0; lowes_final := 0; winner := Lowes |}.
Proof. vm_compute. reflexivity. Qed.




(** The same with the integer quantity 2: the column [Qty] is float64
    because of the missing cell. *)
Lemma missing_quantity_integer :
  ∃ r, compute_pricing
         [ {[ "Qty" := JInt 2 eq_refl; "Price_HD" := JFloat 3;
              "Price_Lowes" := JFloat 4 ]};
           {[ "Price_HD" := JFloat 5; "Price_Lowes" := JFloat 6 ]} ] 7
       = Ok r
    ∧ hd_subtotal r = 6%float ∧ lowes_subtotal r = 8%float.
Proof. eexists. split; [vm_compute; reflexivity|]. by split. Qed.

(** A string cell that meets a float does raise: line 121 fails on the
    quantity ["two"]. *)
Lemma string_quantity_raises :
  compute_pricing
    [ {[ "Qty" := JStr "two"; "Price_HD" := JFloat 3.5;
         "Price_Lowes" := JFloat 4 ]} ] 7
  = Raise (TypeError "can't multiply sequence by non-int of type 'float'").
Proof. vm_compute. reflexivity. Qed.

(** C6 fails: with prices 0.1 | 0.2, 0.3 the subtotal of the whole list
    is (0.1 + 0.2) + 0.3 = 0.6000000000000001, the sum of the two
    subtotals 0.1 + (0.2 + 0.3) = 0.6. *)
Lemma additivity_counterexample :
  ∃ r r1 r2,
    compute_items
      ([ {| Qty := 1; Price_HD := 0.1; Price_Lowes := 0.1 |} ]
       ++ [ {| Qty := 1; Price_HD := 0.2; Price_Lowes := 0.2 |};
            {| Qty := 1; Price_HD := 0.3; Price_Lowes := 0.3 |} ]) 7 = Ok r
    ∧ compute_items
        [ {| Qty := 1; Price_HD := 0.1; Price_Lowes := 0.1 |} ] 7 = Ok r1
    ∧ compute_items
        [ {| Qty := 1; Price_HD := 0.2; Price_Lowes := 0.2 |};
          {| Qty := 1; Price_HD := 0.3; Price_Lowes := 0.3 |} ] 7 = Ok r2
    ∧ (hd_subtotal r =? hd_subtotal r1 + hd_subtotal r2)%float = false.
Proof.
  do 3 eexists. repeat split; vm_compute; reflexivity.
Qed.

(** Nor does a single further row always add its row total: seven rows
    at 0.1, ..., 0.7 have the subtotal 2.8 and an eighth row at 0.8 has
    0.8, but the eight rows together have 3.6, not
    2.8 + 0.8 = 3.5999999999999996. *)
Lemma eighth_row_counterexample :
  let row := λ p, {| Qty := 1; Price_HD := p; Price_Lowes := p |} in
  let items1 := row <$> [0.1; 0.2; 0.3; 0.4; 0.5; 0.6; 0.7]%float in
  ∃ r r1 r2,
    compute_items (items1 ++ [row 0.8%float]) 7 = Ok r
    ∧ compute_items items1 7 = Ok r1
    ∧ compute_items [row 0.8%float] 7 = Ok r2
    ∧ hd_subtotal r = 3.6%float
    ∧ (hd_subtotal r1 + hd_subtotal r2)%float = 3.5999999999999996%float
    ∧ (hd_subtotal r =? hd_subtotal r1 + hd_subtotal r2)%float = false.
Proof.
  do 3 eexists. repeat split; vm_compute; reflexivity.
Qed.

(** C6 (as the code has it): for fewer than 8 rows in all, the subtotal
    of [items1 ++ items2] carries on the running sum of [items1] over the
    row totals of [items2]; it is the sum of the two subtotals when
    [items2] is a single item. *)
Theorem subtotal_concat (items1 items2 : list LineItem) (tax_rate : float) :
  items1 ≠ [] → items2 ≠ [] → (length (items1 ++ items2) < 8)%nat →
  ∃ r r1 r2,
    compute_items (items1 ++ items2) tax_rate = Ok r
    ∧ compute_items items1 tax_rate = Ok r1
    ∧ compute_items items2 tax_rate = Ok r2
    ∧ hd_subtotal r
      = fold_left PrimFloat.add (skipna <$> totals_hd items2) (hd_subtotal r1)
    ∧ lowes_subtotal r
      = fold_left PrimFloat.add (skipna <$> totals_lowes items2)
          (lowes_subtotal r1)
    ∧ ∀ it, items2 = [it] →
        hd_subtotal r = (hd_subtotal r1 + hd_subtotal r2)%float
        ∧ lowes_subtotal r = (lowes_subtotal r1 + lowes_subtotal r2)%float.
Proof.
  intros H1 H2 Hlen. do 3 eexists.
  split; [apply compute_items_ok; by destruct items1|].
  split; [by apply compute_items_ok|].
  split; [by apply compute_items_ok|].
  cbn [price_comparison hd_subtotal lowes_subtotal].
  unfold totals_hd, totals_lowes. rewrite !fmap_app.
  rewrite !np_sum_app_short
    by (rewrite <- ?fmap_app, ?length_fmap; by destruct items1).
  do 2 (split; [reflexivity|]).
  intros it ->. cbn [fmap list_fmap fold_left].
  by rewrite !np_sum_singleton.
Qed.

Lemma subtotal_concat_witness :
  ∃ r,
    compute_items
      ([ {| Qty := 4; Price_HD := 3; Price_Lowes := 3 |} ]
       ++ [ {| Qty := 1; Price_HD := 50; Price_Lowes := 45 |} ]) 0 = Ok r
    ∧ hd_subtotal r = (12 + 50)%float.
Proof.
  destruct (subtotal_concat
    [ {| Qty := 4; Price_HD := 3; Price_Lowes := 3 |} ]
    [ {| Qty := 1; Price_HD := 50; Price_Lowes := 45 |} ] 0%float)
    as (r & r1 & r2 & Hr & Hr1 & Hr2 & _ & _ & Hsingle).
  - discriminate.
  - discriminate.
  - simpl. lia.
  - exists r. split; [exact Hr|].
    destruct (Hsingle _ eq_refl) as [Hhd _]. rewrite Hhd.
    vm_compute in Hr1. vm_compute in Hr2.
    injection Hr1 as <-. injection Hr2 as <-. reflexivity.
Defined.

(** C7 fails: at price 0 a larger quantity leaves the total where it
    was. *)
Lemma monotonicity_counterexample :
  (1 <? 2)%float = true
  ∧ ∃ r r',
      compute_items [ {| Qty := 1; Price_HD := 0; Price_Lowes := 1 |} ] 7
      = Ok r
      ∧ compute_items [ {| Qty := 2; Price_HD := 0; Price_Lowes := 1 |} ] 7
        = Ok r'
      ∧ (hd_final r <? hd_final r')%float = false.
Proof.
  split; [reflexivity|]. do 2 eexists. repeat split; vm_compute; reflexivity.
Qed.

(** With integer cells the columns are int64 and a total can even fall:
    at the price 2^32, raising the quantity from 2^30 to 2^31 takes the
    row total from 2^62 to 2^63, which wraps around to -2^63; Home
    Depot's total goes from about 4.9e18 to about -9.9e18. *)
Lemma integer_overflow_counterexample :
  ∃ r r',
    compute_pricing
      [ {[ "Qty" := JInt (2 ^ 30) eq_refl; "Price_HD" := JInt (2 ^ 32) eq_refl;
           "Price_Lowes" := JInt 1 eq_refl ]} ] 7 = Ok r
    ∧ compute_pricing
        [ {[ "Qty" := JInt (2 ^ 31) eq_refl; "Price_HD" := JInt (2 ^ 32) eq_refl;
             "Price_Lowes" := JInt 1 eq_refl ]} ] 7 = Ok r'
    ∧ hd_subtotal r = 0x1p+62%float
    ∧ hd_subtotal r' = (-0x1p+63)%float
    ∧ (hd_final r' <? hd_final r)%float = true
    ∧ (hd_final r' <? 0)%float = true.
Proof.
  do 2 eexists. repeat split; vm_compute; reflexivity.
Qed.

(** C10 fails: the subtotals 1.9000000000000001 < 1.9000000000000004 make
    Home Depot the winner at rate 0, but at 7 % both totals round to
    2.0330000000000004 and the tie goes to Lowe's. *)
Lemma tax_invariance_counterexample :
  well_formed {| Qty := 1; Price_HD := 0x1.e666666666667p+0;
                 Price_Lowes := 0x1.e666666666668p+0 |} = true
  ∧ valid_rate 7 = true
  ∧ ∃ r r0,
      compute_items [ {| Qty := 1; Price_HD := 0x1.e666666666667p+0;
                         Price_Lowes := 0x1.e666666666668p+0 |} ] 7 = Ok r
      ∧ compute_items [ {| Qty := 1; Price_HD := 0x1.e666666666667p+0;
                           Price_Lowes := 0x1.e666666666668p+0 |} ] 0 = Ok r0
      ∧ winner r = Lowes ∧ winner r0 = HomeDepot
      ∧ (hd_subtotal r <? lowes_subtotal r)%float = true
      ∧ (hd_final r <? lowes_final r)%float = false.
Proof.
  split; [reflexivity|]. split; [reflexivity|].
  do 2 eexists. repeat split; vm_compute; reflexivity.
Qed.

(** The same with everyday prices: 0.06 against 0.01 + 0.05 at 5 %. *)
Lemma tax_invariance_everyday_prices :
  ∃ r r0,
    compute_items [ {| Qty := 1; Price_HD := 0.06; Price_Lowes := 0.01 |};
                    {| Qty := 1; Price_HD := 0; Price_Lowes := 0.05 |} ] 5
    = Ok r
    ∧ compute_items [ {| Qty := 1; Price_HD := 0.06; Price_Lowes := 0.01 |};
                      {| Qty := 1; Price_HD := 0; Price_Lowes := 0.05 |} ] 0
      = Ok r0
    ∧ winner r = Lowes ∧ winner r0 = HomeDepot.
Proof. do 2 eexists. repeat split; vm_compute; reflexivity. Qed.

Lemma total_rate_zero (s : float) :
  finite_nonneg s = true → (s + s * (0 / 100))%float = s.
Proof.
  intros Hs%finite_nonneg_spec. apply Prim2SF_inj.
  change (0 / 100)%float with 0%float.
  rewrite add_spec, mul_spec. change (Prim2SF 0) with (S754_zero false).
  by destruct Hs as [->|(m & e & ->)].
Qed.

(** C7 (as the code has it): for items whose numbers are floats, raising
    one item's quantity or prices never lowers either retailer's total
    (the new total is not below the old one; it need not be above it),
    and a change that leaves an item's quantity and one retailer's price
    alone leaves that retailer's total where it was. *)
Theorem totals_never_decrease (l1 l2 : list LineItem) (it it' : LineItem)
    (tax_rate : float) :
  Forall (λ i, well_formed i = true) (l1 ++ it :: l2) →
  well_formed it' = true →
  item_le it it' = true →
  valid_rate tax_rate = true →
  ∃ r r', compute_items (l1 ++ it :: l2) tax_rate = Ok r
    ∧ compute_items (l1 ++ it' :: l2) tax_rate = Ok r'
    ∧ (hd_final r' <? hd_final r)%float = false
    ∧ (lowes_final r' <? lowes_final r)%float = false
    ∧ (Qty it' = Qty it → Price_HD it' = Price_HD it →
       hd_final r' = hd_final r)
    ∧ (Qty it' = Qty it → Price_Lowes it' = Price_Lowes it →
       lowes_final r' = lowes_final r).
Proof.
  intros Hwf Hwf' Hle Hrate.
  apply Forall_app in Hwf as [Hwf1 Hwf2].
  apply Forall_cons in Hwf2 as [Hit Hwf2].
  assert (Hrefl : ∀ l, Forall (λ i, well_formed i = true) l →
            Forall2 (λ i i', well_formed i = true ∧ well_formed i' = true
                              ∧ item_le i i' = true) l l).
  { intros l Hl. apply Forall_Forall2_diag.
    eapply Forall_impl; [exact Hl|]. intros i Hi. simpl.
    auto using item_le_refl. }
  destruct (compute_items_mono (l1 ++ it :: l2) (l1 ++ it' :: l2) tax_rate)
    as (r & r' & Hr & Hr' & Hhd & Hlo); [by destruct l1| |done|].
  { apply Forall2_app; [by apply Hrefl|].
    constructor; [done|by apply Hrefl]. }
  exists r, r'. repeat split; try assumption.
  - intros Hq Hp.
    rewrite compute_items_ok in Hr, Hr' by (by destruct l1).
    injection Hr as <-. injection Hr' as <-. cbn [price_comparison hd_final].
    unfold totals_hd. by rewrite !fmap_app, !fmap_cons, Hq, Hp.
  - intros Hq Hp.
    rewrite compute_items_ok in Hr, Hr' by (by destruct l1).
    injection Hr as <-. injection Hr' as <-. cbn [price_comparison lowes_final].
    unfold totals_lowes. by rewrite !fmap_app, !fmap_cons, Hq, Hp.
Qed.

Lemma totals_never_decrease_witness :
  ∃ r r',
    compute_items [ {| Qty := 1; Price_HD := 0; Price_Lowes := 1 |} ] 7 = Ok r
    ∧ compute_items [ {| Qty := 2; Price_HD := 0; Price_Lowes := 1 |} ] 7
      = Ok r'
    ∧ (hd_final r' <? hd_final r)%float = false
    ∧ (lowes_final r' <? lowes_final r)%float = false.
Proof.
  destruct (totals_never_decrease [] []
    {| Qty := 1; Price_HD := 0; Price_Lowes := 1 |}
    {| Qty := 2; Price_HD := 0; Price_Lowes := 1 |} 7%float)
    as (r & r' & Hr & Hr' & Hhd & Hlo & _).
  - repeat constructor.
  - reflexivity.
  - reflexivity.
  - reflexivity.
  - exists r, r'. repeat split; assumption.
Defined.

(** C10 (as the code has it): the tax never makes Home Depot the winner
    against the subtotals: total A < total B only if subtotal A <
    subtotal B.  So when neither subtotal overflows, a Home Depot win at
    any rate in [0, 100] is a Home Depot win at rate 0 (where the totals
    are the subtotals); the converse can fail, rounded totals may tie. *)
Theorem tax_never_creates_win (items : list LineItem) (tax_rate : float) :
  items ≠ [] →
  Forall (λ it, well_formed it = true) items →
  valid_rate tax_rate = true →
  ∃ r r0, compute_items items tax_rate = Ok r
    ∧ compute_items items 0 = Ok r0
    ∧ hd_subtotal r0 = hd_subtotal r
    ∧ lowes_subtotal r0 = lowes_subtotal r
    ∧ ((hd_final r <? lowes_final r)%float = true →
       (hd_subtotal r <? lowes_subtotal r)%float = true)
    ∧ (finite_nonneg (hd_subtotal r) = true →
       finite_nonneg (lowes_subtotal r) = true →
       hd_final r0 = hd_subtotal r ∧ lowes_final r0 = lowes_subtotal r
       ∧ (winner r = HomeDepot → winner r0 = HomeDepot)).
Proof.
  intros Hne Hwf Hrate.
  pose proof (valid_rate_decimal tax_rate Hrate) as Ht.
  pose proof (np_sum_nonneg _ (totals_hd_nil _ Hne)
                (totals_hd_nonneg items Hwf)) as Nhd.
  pose proof (np_sum_nonneg _ (totals_lowes_nil _ Hne)
                (totals_lowes_nonneg items Hwf)) as Nlo.
  do 2 eexists. split; [by apply compute_items_well_formed|].
  split; [by apply compute_items_well_formed|].
  cbn [price_comparison hd_subtotal lowes_subtotal hd_final lowes_final winner].
  set (sa := np_sum (totals_hd items)) in *.
  set (sb := np_sum (totals_lowes items)) in *.
  assert (Himp : (sa + sa * (tax_rate / 100) <? sb + sb * (tax_rate / 100))%float
                 = true → (sa <? sb)%float = true).
  { intros Hlt. destruct (sa <? sb)%float eqn:Hsub; [done|].
    rewrite ltb_fval in Hsub by assumption. apply Z.ltb_ge in Hsub.
    by rewrite (total_mono sb sa (tax_rate / 100)) in Hlt. }
  repeat split; try done.
  - by apply total_rate_zero.
  - by apply total_rate_zero.
  - rewrite !total_rate_zero by assumption.
    destruct (_ <? _)%float eqn:Hlt; [|done]. intros _.
    by rewrite (Himp eq_refl).
Qed.

Lemma tax_never_creates_win_witness :
  ∃ r, compute_items
         [ {| Qty := 10; Price_HD := 2.5; Price_Lowes := 2.75 |} ] 7 = Ok r
    ∧ (hd_subtotal r <? lowes_subtotal r)%float = true.
Proof.
  destruct (tax_never_creates_win
    [ {| Qty := 10; Price_HD := 2.5; Price_Lowes := 2.75 |} ] 7%float)
    as (r & r0 & Hr & _ & _ & _ & Himp & _).
  - discriminate.
  - repeat constructor.
  - reflexivity.
  - exists r. split; [exact Hr|]. apply Himp.
    vm_compute in Hr. injection Hr as <-. reflexivity.
Defined.

(** * Further properties of the code *)

(** ** Base64 text *)

Lemma list_ind3 {A} (P : list A → Prop) :
  P [] → (∀ a, P [a]) → (∀ a b, P [a; b]) →
  (∀ a b c l, P l → P (a :: b :: c :: l)) →
  ∀ l, P l.
Proof.
  intros H0 H1 H2 H3 l.
  enough (P l ∧ (∀ a, P (a :: l)) ∧ (∀ a b, P (a :: b :: l))) by tauto.
  induction l as [|c l (IH0 & IH1 & IH2)]; auto.
Qed.

Lemma b64_index_char (n : N) :
  (n < 64)%N → b64_index (b64_char n) = Some n.
Proof.
  intros Hn.
  assert (Hall : forallb (λ k, match b64_index (b64_char (N.of_nat k)) with
                               | Some m => N.eqb m (N.of_nat k)
                               | None => false end) (seq 0 64) = true)
    by (vm_compute; reflexivity).
  rewrite forallb_forall in Hall.
  specialize (Hall (N.to_nat n)). rewrite N2Nat.id in Hall.
  destruct (b64_index (b64_char n)) as [m|].
  - f_equal. apply N.eqb_eq. apply Hall. apply in_seq. lia.
  - discriminate Hall. apply in_seq. lia.
Qed.

Lemma b64_index_pad : b64_index "="%char = None.
Proof. reflexivity. Qed.

Lemma byte_of_to_N (b : byte) : byte_of (Byte.to_N b) = b.
Proof. unfold byte_of. by rewrite Byte.of_to_N. Qed.

Lemma to_N_lt (b : byte) : (Byte.to_N b < 256)%N.
Proof. pose proof (Byte.to_N_bounded b). lia. Qed.

Ltac n_arith := zify; Z.to_euclidean_division_equations; lia.

Lemma b64decode_group (a b c : byte) (l : list byte) :
  b64decode (b64encode (a :: b :: c :: l))
  = tail ← b64decode (b64encode l); Some (a :: b :: c :: tail).
Proof.
  pose proof (to_N_lt a). pose proof (to_N_lt b). pose proof (to_N_lt c).
  cbn [b64encode b64decode].
  rewrite !b64_index_char by n_arith.
  replace (_ * 4 + _ / 16)%N with (Byte.to_N a) by n_arith.
  replace (_ mod 16 * 16 + _ / 4)%N with (Byte.to_N b) by n_arith.
  replace (_ mod 4 * 64 + _)%N with (Byte.to_N c) by n_arith.
  by rewrite !byte_of_to_N.
Qed.

(** Decoding undoes encoding. *)
Lemma b64decode_b64encode (bs : list byte) :
  b64decode (b64encode bs) = Some bs.
Proof.
  induction bs as [|a|a b|a b c l IH] using list_ind3.
  - reflexivity.
  - pose proof (to_N_lt a).
    cbn [b64encode b64decode].
    rewrite !b64_index_char by n_arith. rewrite b64_index_pad.
    cbn [Ascii.eqb Bool.eqb String.eqb andb].
    replace (_ * 4 + _ / 16)%N with (Byte.to_N a) by n_arith.
    by rewrite byte_of_to_N.
  - pose proof (to_N_lt a). pose proof (to_N_lt b).
    cbn [b64encode b64decode].
    rewrite !b64_index_char by n_arith. rewrite b64_index_pad.
    cbn [Ascii.eqb Bool.eqb String.eqb andb].
    replace (_ * 4 + _ / 16)%N with (Byte.to_N a) by n_arith.
    replace (_ mod 16 * 16 + _ / 4)%N with (Byte.to_N b) by n_arith.
    by rewrite !byte_of_to_N.
  - by rewrite b64decode_group, IH.
Qed.

(** X1: the transport encoding loses nothing: two different byte strings
    never get the same base64 text (the bytes can be decoded back). *)
Theorem b64encode_inj (bs1 bs2 : list byte) :
  bs1 ≠ bs2 → b64encode bs1 ≠ b64encode bs2.
Proof.
  intros Hne Heq. apply Hne. apply (f_equal b64decode) in Heq.
  rewrite !b64decode_b64encode in Heq. by injection Heq.
Qed.

Lemma b64encode_inj_witness :
  b64encode (list_byte_of_string "fo") ≠ b64encode (list_byte_of_string "foo").
Proof.
  apply (b64encode_inj (list_byte_of_string "fo") (list_byte_of_string "foo")).
  discriminate.
Defined.

(** X2: [n] bytes become [4 * ceil (n / 3)] characters, the padding
    included. *)
Theorem b64encode_length (bs : list byte) :
  String.length (b64encode bs) = 4 * ((length bs + 2) / 3).
Proof.
  induction bs as [|a|a b|a b c l IH] using list_ind3; try reflexivity.
  cbn [b64encode String.length length]. rewrite IH.
  replace (S (S (S (length l))) + 2) with (1 * 3 + (length l + 2)) by lia.
  rewrite Nat.div_add_l by lia. lia.
Qed.

Lemma b64encode_length_mod (bs : list byte) :
  (String.length (b64encode bs) mod 4 = 0)%nat.
Proof.
  assert (Hlen : String.length (b64encode bs) = ((length bs + 2) / 3) * 4).
  { induction bs as [|a|a b|a b c l IH] using list_ind3; try reflexivity.
    cbn [b64encode String.length length]. rewrite IH.
    replace (S (S (S (length l))) + 2) with (1 * 3 + (length l + 2)) by lia.
    rewrite Nat.div_add_l by lia. lia. }
  rewrite Hlen. apply Nat.Div0.mod_mul.
Qed.

Lemma get_is_b64_char (k : nat) (c : ascii) :
  String.get k b64_alphabet = Some c → is_b64_char c = true.
Proof.
  intros Hget. unfold is_b64_char. apply orb_true_iff. left.
  apply existsb_exists. exists c. split; [|apply Ascii.eqb_refl].
  revert k Hget. generalize b64_alphabet.
  induction s as [|d s IH]; intros [|k]; simpl; try discriminate.
  - intros [= ->]. by left.
  - intros Hk. right. eauto.
Qed.

Lemma b64_char_valid (n : N) : is_b64_char (b64_char n) = true.
Proof.
  unfold b64_char. destruct (String.get _ _) as [c|] eqn:Hget.
  - by eapply get_is_b64_char.
  - reflexivity.
Qed.

Lemma b64encode_alphabet (bs : list byte) :
  string_forallb is_b64_char (b64encode bs) = true.
Proof.
  induction bs as [|a|a b|a b c l IH] using list_ind3;
    cbn [b64encode string_forallb]; rewrite ?b64_char_valid, ?IH; reflexivity.
Qed.

(** ** More about the ingestion adapter *)

Section IngestionExtras.
Context `{Fitz}.

Lemma render_pages_inv (doc : Document) (page_nums : list nat)
    (acc images : list string) :
  render_pages doc page_nums acc = Ok images →
  ∃ imgs, images = (acc ++ imgs)%list
    ∧ Forall2 (λ n img, render_page doc n = Ok img) page_nums imgs.
Proof.
  revert acc. induction page_nums as [|n ns IH]; intros acc; simpl.
  - intros [= <-]. exists []. by rewrite app_nil_r.
  - destruct (render_page doc n) as [img|] eqn:Hn; [|discriminate].
    rewrite bind_Ok. intros (imgs & -> & Hall)%IH.
    exists (img :: imgs). rewrite <- app_assoc. split; [done|].
    by constructor.
Qed.

Lemma render_pages_ext (doc doc' : Document) (page_nums : list nat)
    (acc : list string) :
  Forall (λ i, render_page doc i = render_page doc' i) page_nums →
  render_pages doc page_nums acc = render_pages doc' page_nums acc.
Proof.
  intros Hall. revert acc.
  induction Hall as [|n ns Hn _ IH]; intros acc; simpl; [done|].
  rewrite Hn. destruct (render_page doc' n); [|done].
  rewrite !bind_Ok. apply IH.
Qed.

Lemma process_file_length (f : UploadedFile) (images : list string) :
  process_file f = Ok images →
  if String.eqb (file_type f) "application/pdf"
  then ∃ doc, fitz_open (file_bytes f) "pdf" = Ok doc
         ∧ length images = Nat.min (page_count doc) 5
  else length images = 1.
Proof.
  unfold process_file.
  destruct (String.eqb (file_type f) "application/pdf").
  - destruct (fitz_open (file_bytes f) "pdf") as [doc|]; [|discriminate].
    rewrite bind_Ok. intros (imgs & -> & Hall)%render_pages_inv.
    exists doc. split; [done|].
    apply Forall2_length in Hall. rewrite length_seq in Hall. by simpl.
  - by intros [= <-].
Qed.

(** X3: whatever is uploaded, every image the adapter returns is base64
    text: the encoding of some byte string, made of the 64 characters of
    the alphabet and [=], its length a multiple of four. *)
Theorem process_file_base64 (f : UploadedFile) (images : list string) :
  process_file f = Ok images →
  Forall (λ img, ∃ bs, img = b64encode bs
                   ∧ string_forallb is_b64_char img = true
                   ∧ (String.length img mod 4 = 0)%nat) images.
Proof.
  assert (Henc : ∀ bs, ∃ bs', b64encode bs = b64encode bs'
                   ∧ string_forallb is_b64_char (b64encode bs) = true
                   ∧ (String.length (b64encode bs) mod 4 = 0)%nat).
  { intros bs. exists bs.
    auto using b64encode_alphabet, b64encode_length_mod. }
  unfold process_file.
  destruct (String.eqb (file_type f) "application/pdf").
  - destruct (fitz_open (file_bytes f) "pdf") as [doc|]; [|discriminate].
    rewrite bind_Ok. intros (imgs & -> & Hall)%render_pages_inv.
    simpl. clear -Hall Henc. induction Hall as [|n img ns imgs Hn _ IH];
      constructor; [|exact IH].
    apply render_page_ok in Hn as (page & pix & _ & _ & ->). apply Henc.
  - intros [= <-]. repeat constructor. apply Henc.
Qed.

(** X4: the adapter never hands on more than five images, and an empty
    list only for a PDF that opens and has no page. *)
Theorem process_file_image_count (f : UploadedFile) (images : list string) :
  process_file f = Ok images →
  (length images ≤ 5)%nat
  ∧ (images = [] →
     file_type f = "application/pdf"
     ∧ ∃ doc, fitz_open (file_bytes f) "pdf" = Ok doc ∧ page_count doc = 0).
Proof.
  intros Hlen%process_file_length.
  destruct (String.eqb_spec (file_type f) "application/pdf") as [Hty|Hty].
  - destruct Hlen as (doc & Hdoc & Hlen). split; [lia|].
    intros ->. split; [done|]. exists doc. split; [done|]. simpl in Hlen. lia.
  - split; [lia|]. intros ->. discriminate.
Qed.

(** X5: pages after the fifth have no influence: two PDFs whose documents
    agree on the number of pages up to five and on what each of the
    first five pages renders to are treated alike, errors included. *)
Theorem process_file_first_five (f g : UploadedFile) (doc doc' : Document) :
  file_type f = "application/pdf" → file_type g = "application/pdf" →
  fitz_open (file_bytes f) "pdf" = Ok doc →
  fitz_open (file_bytes g) "pdf" = Ok doc' →
  Nat.min (page_count doc) 5 = Nat.min (page_count doc') 5 →
  (∀ i, i < 5 → render_page doc i = render_page doc' i) →
  process_file f = process_file g.
Proof.
  intros Hf Hg Hd Hd' Hn Hpages. unfold process_file.
  rewrite Hf, Hg, String.eqb_refl, Hd, Hd', !bind_Ok, Hn.
  apply render_pages_ext. apply Forall_forall.
  intros i Hi%elem_of_seq. apply Hpages. lia.
Qed.

Lemma user_content_from (images : list string) (acc : list content_part) :
  fold_left
    (λ user_content img,
       (user_content
        ++ [image_url_part ("data:image/jpeg;base64," +:+ img)])%list)
    images acc
  = (acc ++ ((λ img, image_url_part ("data:image/jpeg;base64," +:+ img))
              <$> images))%list.
Proof.
  revert acc. induction images as [|img images IH]; intros acc; simpl.
  - by rewrite app_nil_r.
  - rewrite IH, <- app_assoc. reflexivity.
Qed.

(** X6: the user message built from an upload is the instruction followed
    by one data URL per image, in page order, at most six parts in all;
    every URL announces [image/jpeg], also for the PNG renderings of PDF
    pages and for an uploaded PNG. *)
Theorem request_content (f : UploadedFile) (images : list string) :
  process_file f = Ok images →
  user_content images
  = text_part "Analyze these project pages. Create a Master Shopping List."
    :: ((λ img, image_url_part ("data:image/jpeg;base64," +:+ img))
        <$> images)
  ∧ (length (user_content images) ≤ 6)%nat.
Proof.
  intros Hf. unfold user_content. rewrite user_content_from.
  split; [reflexivity|].
  cbn [app length]. rewrite length_fmap.
  apply process_file_length in Hf.
  destruct (String.eqb (file_type f) "application/pdf");
    [destruct Hf as (doc & _ & Hlen)|]; lia.
Qed.
End IngestionExtras.

Lemma process_file_base64_witness :
  Forall (λ img, ∃ bs, img = b64encode bs
                   ∧ string_forallb is_b64_char img = true
                   ∧ (String.length img mod 4 = 0)%nat) ["TWE="].
Proof.
  apply (@process_file_base64 toy_fitz
    {| file_type := "image/png"; file_bytes := list_byte_of_string "Ma" |}).
  reflexivity.
Defined.

Lemma process_file_image_count_witness :
  (length ["YWFhYWFhYWFh"; "YmJiYmJiYmJi"; "Y2NjY2NjY2Nj"; "ZGRkZGRkZGRk";
           "ZWVlZWVlZWVl"] ≤ 5)%nat.
Proof.
  apply (@process_file_image_count toy_fitz
    {| file_type := "application/pdf";
       file_bytes := list_byte_of_string "%abcdefg" |}).
  reflexivity.
Defined.

Lemma process_file_first_five_witness :
  @process_file toy_fitz
    {| file_type := "application/pdf";
       file_bytes := list_byte_of_string "%abcdefg" |}
  = @process_file toy_fitz
      {| file_type := "application/pdf";
         file_bytes := list_byte_of_string "%abcdexyz" |}.
Proof.
  apply (@process_file_first_five toy_fitz _ _
           (list_byte_of_string "abcdefg") (list_byte_of_string "abcdexyz"));
    try reflexivity.
  intros i Hi. do 5 (destruct i as [|i]; [reflexivity|]). lia.
Defined.

Lemma request_content_witness :
  user_content ["TWE="]
  = [ text_part "Analyze these project pages. Create a Master Shopping List.";
      image_url_part "data:image/jpeg;base64,TWE=" ].
Proof.
  apply (@request_content toy_fitz
    {| file_type := "image/png"; file_bytes := list_byte_of_string "Ma" |}).
  reflexivity.
Defined.

(** ** More about the calculation engine *)

(** X7: the engine reads the columns [Qty], [Price_HD] and [Price_Lowes]
    and nothing else: two tables that agree on these three give the same
    result or the same exception.  In particular a [Total HD] or
    [Total Lowes] column that is already there is overwritten, not
    used. *)
Theorem calculation_engine_three_columns (df df' : DataFrame)
    (tax_rate : float) :
  df !! "Qty" = df' !! "Qty" →
  df !! "Price_HD" = df' !! "Price_HD" →
  df !! "Price_Lowes" = df' !! "Price_Lowes" →
  calculation_engine df tax_rate = calculation_engine df' tax_rate.
Proof.
  intros Hq Hh Hl. rewrite !calculation_engine_cases. unfold getitem.
  by rewrite Hq, Hh, Hl.
Qed.

Lemma calculation_engine_three_columns_witness :
  calculation_engine
    {[ "Qty" := Float64 [2%float]; "Price_HD" := Float64 [3%float];
       "Price_Lowes" := Float64 [4%float];
       "Total HD" := Float64 [1000%float] ]} 7
  = calculation_engine
      {[ "Qty" := Float64 [2%float]; "Price_HD" := Float64 [3%float];
         "Price_Lowes" := Float64 [4%float] ]} 7.
Proof.
  apply calculation_engine_three_columns; reflexivity.
Defined.

Lemma has_key_false (c : string) (records : list (gmap string json)) :
  has_key c records = false → Forall (λ r, r !! c = None) records.
Proof.
  unfold has_key. intros Hex%bool_decide_eq_false.
  apply Forall_forall. intros r Hr.
  destruct (r !! c) as [x|] eqn:Hc; [|done].
  destruct Hex. apply Exists_exists. exists r. split; [done|].
  rewrite Hc. eauto.
Qed.

Lemma pd_DataFrame_has_key (c : string) (records : list (gmap string json)) :
  pd_DataFrame records !! c
  = if has_key c records then Some (infer_column (cell c <$> records))
    else None.
Proof.
  destruct (has_key c records) eqn:Hc.
  - apply pd_DataFrame_column. by apply bool_decide_eq_true in Hc.
  - by apply pd_DataFrame_no_column, has_key_false.
Qed.

(** X8: which keys the engine misses.  A list in which no record has the
    key [Qty] raises [KeyError: 'Qty'], and one with [Qty] but without
    [Price_HD] raises [KeyError: 'Price_HD'], whatever the cells hold.
    When no cell of the three columns is a string, pricing succeeds
    exactly when each of the three keys occurs in at least one record,
    and otherwise the exception is the [KeyError] of the first of the
    three, in this order, that occurs in none.  Pricing never succeeds
    without the three keys. *)
Theorem compute_pricing_key_error (records : list (gmap string json))
    (tax_rate : float) :
  (has_key "Qty" records = false →
   compute_pricing records tax_rate = Raise (KeyError "Qty"))
  ∧ (has_key "Qty" records = true → has_key "Price_HD" records = false →
     compute_pricing records tax_rate = Raise (KeyError "Price_HD"))
  ∧ (is_Ok (compute_pricing records tax_rate) = true →
     has_key "Qty" records = true ∧ has_key "Price_HD" records = true
     ∧ has_key "Price_Lowes" records = true)
  ∧ (numeric_cells records = true →
     (has_key "Qty" records = true ∧ has_key "Price_HD" records = true
      ∧ has_key "Price_Lowes" records = true →
      is_Ok (compute_pricing records tax_rate) = true)
     ∧ ∀ e, compute_pricing records tax_rate = Raise e →
         e = KeyError (if negb (has_key "Qty" records) then "Qty"
                       else if negb (has_key "Price_HD" records)
                            then "Price_HD"
                            else "Price_Lowes")).
Proof.
  unfold compute_pricing. rewrite calculation_engine_cases. unfold getitem.
  rewrite !pd_DataFrame_has_key.
  split; [by intros ->|]. split; [by intros -> ->|]. split.
  { destruct (has_key "Qty" records); [|discriminate].
    destruct (has_key "Price_HD" records); [|discriminate].
    rewrite !bind_Ok. destruct (Series_mul _ _); [|discriminate].
    rewrite bind_Ok.
    by destruct (has_key "Price_Lowes" records). }
  intros Hnum.
  pose proof (numeric_column records "Qty" priced_Qty Hnum) as Nq.
  pose proof (numeric_column records "Price_HD" priced_HD Hnum) as Nh.
  pose proof (numeric_column records "Price_Lowes" priced_Lowes Hnum) as Nl.
  destruct (Series_mul_numeric _ _ Nq Nh) as (th & Hth & Nth).
  destruct (Series_mul_numeric _ _ Nq Nl) as (tl & Htl & Ntl).
  destruct (has_key "Qty" records), (has_key "Price_HD" records),
    (has_key "Price_Lowes" records); cbn [negb];
    rewrite ?bind_Ok, ?Hth, ?bind_Ok, ?Htl, ?bind_Ok;
    (split; [intros (? & ? & ?); try discriminate|]);
    try (intros e [= <-]; reflexivity).
  - by apply tally_numeric.
  - intros e He. pose proof (tally_numeric th tl tax_rate Nth Ntl) as Hok.
    by rewrite He in Hok.
Qed.

Lemma compute_pricing_key_error_witness :
  compute_pricing [ {[ "Qty" := JFloat 2; "Price_Lowes" := JStr "four" ]} ] 7
  = Raise (KeyError "Price_HD").
Proof.
  apply (proj1 (proj2 (compute_pricing_key_error
           [ {[ "Qty" := JFloat 2; "Price_Lowes" := JStr "four" ]} ] 7)));
    reflexivity.
Defined.

Lemma ltb_asym (x y : float) :
  (x <? y)%float = true → (y <? x)%float = false.
Proof.
  rewrite !FloatAxioms.ltb_spec. unfold SFltb.
  destruct (Prim2SF x) as [[]|[]| |[] m e], (Prim2SF y) as [[]|[]| |[] n f];
    cbn [SFcompare]; try discriminate; try reflexivity;
    change (Pos.compare_cont Eq m n) with (m ?= n)%positive;
    change (Pos.compare_cont Eq n m) with (n ?= m)%positive;
    destruct (Z.compare_spec e f), (Z.compare_spec f e),
      (Pos.compare_spec m n), (Pos.compare_spec n m);
    cbn; try lia; try discriminate; try reflexivity.
Qed.


Lemma totals_swap (items : list LineItem) :
  totals_hd (swap_retailers <$> items) = totals_lowes items
  ∧ totals_lowes (swap_retailers <$> items) = totals_hd items.
Proof.
  unfold totals_hd, totals_lowes. by rewrite <- !list_fmap_compose.
Qed.

(** X9: the two retailers are treated alike except for ties: exchanging
    the two price columns exchanges the subtotals, the taxes and the
    totals; a Home Depot win becomes a Lowe's win, while equal totals are
    a Lowe's win both before and after the exchange. *)
Theorem swap_retailers_result (items : list LineItem) (tax_rate : float) :
  items ≠ [] →
  ∃ r r', compute_items items tax_rate = Ok r
    ∧ compute_items (swap_retailers <$> items) tax_rate = Ok r'
    ∧ hd_subtotal r' = lowes_subtotal r ∧ lowes_subtotal r' = hd_subtotal r
    ∧ hd_tax r' = lowes_tax r ∧ lowes_tax r' = hd_tax r
    ∧ hd_final r' = lowes_final r ∧ lowes_final r' = hd_final r
    ∧ (winner r = HomeDepot → winner r' = Lowes)
    ∧ ((hd_final r =? lowes_final r)%float = true →
       winner r = Lowes ∧ winner r' = Lowes).
Proof.
  intros Hne. destruct (totals_swap items) as [Hhd Hlo].
  do 2 eexists. split; [by apply compute_items_ok|].
  split; [apply compute_items_ok; by destruct items|].
  rewrite Hhd, Hlo.
  cbn [price_comparison hd_subtotal lowes_subtotal hd_tax lowes_tax
       hd_final lowes_final winner].
  do 6 (split; [reflexivity|]). split.
  - destruct (_ <? _)%float eqn:Hlt; [|discriminate]. intros _.
    by rewrite (ltb_asym _ _ Hlt).
  - intros Heq. rewrite (eqb_not_ltb _ _ Heq). split; [reflexivity|].
    destruct (eqb_true_cases _ _ Heq) as [->|(s & t & Hs & Ht)].
    + by rewrite ltb_irrefl.
    + rewrite FloatAxioms.ltb_spec, Hs, Ht. by destruct s, t.
Qed.

Lemma swap_retailers_result_witness :
  ∃ r r',
    compute_items [ {| Qty := 10; Price_HD := 2.5; Price_Lowes := 2.75 |} ] 7
    = Ok r
    ∧ compute_items [ {| Qty := 10; Price_HD := 2.75; Price_Lowes := 2.5 |} ] 7
      = Ok r'
    ∧ hd_final r' = lowes_final r ∧ lowes_final r' = hd_final r.
Proof.
  destruct (swap_retailers_result
    [ {| Qty := 10; Price_HD := 2.5; Price_Lowes := 2.75 |} ] 7)
    as (r & r' & Hr & Hr' & _ & _ & _ & _ & Hhd & Hlo & _).
  - discriminate.
  - exists r, r'. repeat split; assumption.
Defined.




(** ** Integer cells *)

Lemma tally_float64 (total_hd total_lowes : list float) (tax_rate : float) :
  tally (Float64 total_hd) (Float64 total_lowes) tax_rate
  = Ok (price_comparison (np_sum (skipna <$> total_hd))
          (np_sum (skipna <$> total_lowes)) tax_rate).
Proof. reflexivity. Qed.

Lemma tally_int64 (total_hd total_lowes : list Z) (tax_rate : float) :
  tally (Int64 total_hd) (Int64 total_lowes) tax_rate
  = Ok (price_comparison
          (float_of_Z (wrap64 (fold_left Z.add total_hd 0%Z)))
          (float_of_Z (wrap64 (fold_left Z.add total_lowes 0%Z))) tax_rate).
Proof. reflexivity. Qed.

(** A column in which every record has an integer is int64. *)
Lemma infer_column_int {A} (field : A → Z) (cells : A → option json)
    (l : list A) :
  (∀ x, as_int64 (cells x) = Some (field x)) →
  infer_column (cells <$> l) = Int64 (field <$> l).
Proof.
  intros Hcells. unfold infer_column.
  assert (H : mapM as_int64 (cells <$> l) = Some (field <$> l)).
  { induction l as [|x l IH]; [done|]. rewrite fmap_cons. cbn [mapM].
    fold (mapM as_int64 (cells <$> l)). by rewrite Hcells, IH. }
  by rewrite H.
Qed.

Lemma infer_column_floats {A} (field : A → float) (cells : A → option json)
    (l : list A) :
  l ≠ [] → (∀ x, cells x = Some (JFloat (field x))) →
  infer_column (cells <$> l) = Float64 (field <$> l).
Proof.
  intros Hne Hcells. rewrite infer_column_float.
  - f_equal. rewrite <- list_fmap_compose. apply list_fmap_ext.
    intros _ x _. simpl. by rewrite Hcells.
  - by destruct l.
  - apply Forall_fmap, Forall_true. intros x. simpl. by rewrite Hcells.
Qed.

Lemma pd_DataFrame_fmap {A} (record : A → gmap string json) (c : string)
    (l : list A) :
  l ≠ [] → (∀ x, is_Some (record x !! c)) →
  pd_DataFrame (record <$> l) !! c
  = Some (infer_column ((λ x, record x !! c) <$> l)).
Proof.
  intros Hne Hc. rewrite pd_DataFrame_column.
  - by rewrite <- list_fmap_compose.
  - destruct l as [|x l]; [done|]. left. apply Hc.
Qed.

(** X22: a table with integer quantities and float prices is priced
    like the table with the quantities written as floats: the [Qty]
    column is int64 and is cast to float64 when it is multiplied by a
    price column. *)
Theorem integer_quantities (items : list CountedItem) (tax_rate : float) :
  compute_pricing (counted_record <$> items) tax_rate
  = compute_items (counted_as_float <$> items) tax_rate.
Proof.
  destruct (decide (items = [])) as [->|Hne]; [reflexivity|].
  rewrite compute_items_ok by (destruct items; [congruence|discriminate]).
  unfold compute_pricing. rewrite calculation_engine_cases. unfold getitem.
  rewrite !pd_DataFrame_fmap by (try done; intros it; by eexists).
  rewrite (infer_column_int item_count (λ it, counted_record it !! "Qty"))
    by done.
  rewrite
    (infer_column_floats item_price_hd (λ it, counted_record it !! "Price_HD")),
    (infer_column_floats item_price_lowes
       (λ it, counted_record it !! "Price_Lowes")) by done.
  rewrite !bind_Ok. cbn [Series_mul]. rewrite !bind_Ok, tally_float64.
  unfold totals_hd, totals_lowes.
  by rewrite !zip_with_fmap_l, !zip_with_fmap_r, !zip_with_diag,
    <- !list_fmap_compose.
Qed.

Lemma wrap64_add_r (a b : Z) : wrap64 (a + wrap64 b) = wrap64 (a + b).
Proof.
  unfold wrap64. f_equal.
  replace (a + ((b + 2 ^ 63) mod 2 ^ 64 - 2 ^ 63) + 2 ^ 63)%Z
    with (a + (b + 2 ^ 63) mod 2 ^ 64)%Z by lia.
  rewrite Z.add_mod_idemp_r by lia. f_equal. lia.
Qed.

Lemma wrap64_range (n : Z) : int64_range n = true → wrap64 n = n.
Proof.
  unfold int64_range, wrap64. intros [H1 H2]%andb_prop.
  apply Z.leb_le in H1. apply Z.ltb_lt in H2.
  rewrite Z.mod_small; lia.
Qed.

Lemma fold_left_wrap64 {A} (f : A → Z) (l : list A) (acc : Z) :
  wrap64 (fold_left Z.add ((λ x, wrap64 (f x)) <$> l) acc)
  = wrap64 (acc + Zsum (f <$> l)).
Proof.
  revert acc. induction l as [|x l IH]; intros acc; cbn.
  - by rewrite Z.add_0_r.
  - fold (Zsum (f <$> l)). rewrite IH.
    replace (acc + wrap64 (f x) + Zsum (f <$> l))%Z
      with (acc + Zsum (f <$> l) + wrap64 (f x))%Z by lia.
    rewrite wrap64_add_r. f_equal. lia.
Qed.

(** X23: a table of integers is priced in 64-bit integer arithmetic:
    each subtotal is the exact sum of the products quantity * price
    reduced modulo 2^64 into the int64 range, read as the nearest float;
    it is the exact sum when that lies in the int64 range, and then no
    rounding has taken place before the conversion, however large the
    numbers. *)
Theorem integer_items_wrap (items : list IntegerItem) (tax_rate : float) :
  items ≠ [] →
  let exact_hd := Zsum ((λ it, int_qty it * int_price_hd it)%Z <$> items) in
  let exact_lowes :=
    Zsum ((λ it, int_qty it * int_price_lowes it)%Z <$> items) in
  compute_pricing (integer_record <$> items) tax_rate
  = Ok (price_comparison (float_of_Z (wrap64 exact_hd))
          (float_of_Z (wrap64 exact_lowes)) tax_rate)
  ∧ (int64_range exact_hd = true → wrap64 exact_hd = exact_hd)
  ∧ (int64_range exact_lowes = true → wrap64 exact_lowes = exact_lowes).
Proof.
  intros Hne exact_hd exact_lowes.
  split; [|split; apply wrap64_range].
  unfold compute_pricing. rewrite calculation_engine_cases. unfold getitem.
  rewrite !pd_DataFrame_fmap by (try done; intros it; by eexists).
  rewrite (infer_column_int int_qty (λ it, integer_record it !! "Qty")),
    (infer_column_int int_price_hd (λ it, integer_record it !! "Price_HD")),
    (infer_column_int int_price_lowes
       (λ it, integer_record it !! "Price_Lowes")) by done.
  rewrite !bind_Ok. cbn [Series_mul]. rewrite !bind_Ok, tally_int64.
  rewrite !zip_with_fmap_l, !zip_with_fmap_r, !zip_with_diag.
  by rewrite !fold_left_wrap64.
Qed.

Lemma integer_items_wrap_witness :
  compute_pricing
    [ integer_record
        {| int_qty := 2 ^ 32; int_qty_range := eq_refl;
           int_price_hd := 2 ^ 32; int_price_hd_range := eq_refl;
           int_price_lowes := 2 ^ 27 * 3 ^ 16 + 1;
           int_price_lowes_range := eq_refl |} ] 0
  = Ok (price_comparison 0 (float_of_Z (wrap64 (2 ^ 32 * (2 ^ 27 * 3 ^ 16 + 1))))
          0).
Proof.
  apply (integer_items_wrap
    [ {| int_qty := 2 ^ 32; int_qty_range := eq_refl;
         int_price_hd := 2 ^ 32; int_price_hd_range := eq_refl;
         int_price_lowes := 2 ^ 27 * 3 ^ 16 + 1;
         int_price_lowes_range := eq_refl |} ] 0).
  discriminate.
Defined.

(** ** Binary64 division *)

Section Division.
Local Open Scope Z_scope.

Lemma shr_m_of_loc (q : Z) (l : location) :
  shr_m (shr_record_of_loc q l) = q.
Proof. by destruct l as [|[]]. Qed.

Lemma new_location_state (B q r : Z) :
  0 < B → 0 ≤ r < B → 0 ≤ q →
  shr_state (q * B + r) B (shr_record_of_loc q (new_location B r)).
Proof.
  intros HB Hr Hq. split; [assumption|]. exists r.
  rewrite shr_m_of_loc.
  split; [reflexivity|]. split; [assumption|]. split; [assumption|].
  unfold new_location. destruct (Z.even B) eqn:He.
  - unfold new_location_even. destruct (Z.eqb_spec r 0) as [->|Hr0].
    + cbn. lia.
    + destruct (Z.compare_spec (2 * r) B); cbn; lia.
  - assert (Hodd : Z.odd B = true) by (by rewrite <- Z.negb_even, He).
    apply Z.odd_spec in Hodd as [k Hk].
    unfold new_location_odd. destruct (Z.eqb_spec r 0) as [->|Hr0].
    + cbn. lia.
    + destruct (Z.compare_spec (2 * r + 1) B); cbn; lia.
Qed.

Lemma shr_state_shr (M P e n : Z) (mrs : shr_record) :
  shr_state M P mrs → 0 ≤ n →
  shr_state M (2 ^ n * P) (fst (shr mrs e n)) ∧ snd (shr mrs e n) = e + n.
Proof.
  intros Hst Hn. unfold shr. destruct n as [|p|p]; [| |lia].
  - cbn [fst snd]. split; [|lia]. by replace (2 ^ 0 * P) with P by lia.
  - cbn [fst snd]. split; [|reflexivity].
    apply (iter_pos_invariant shr_1 (shr_state M)); [|assumption].
    intros Q x. apply shr_state_step.
Qed.

(** Rounding a quotient: the mantissa [q] with the position of the
    remainder, as the division leaves them. *)
Lemma binary_round_aux_state (M P q e : Z) (l : location) :
  shr_state M P (shr_record_of_loc q l) → 0 ≤ q →
  0 ≤ shift_of q e →
  binary_round_aux prec emax false q e l
  = round_closed (rne M (P * 2 ^ shift_of q e)) (e + shift_of q e).
Proof.
  intros Hst Hq Hn. unfold binary_round_aux. unfold shr_fexp at 1.
  rewrite fexp_eq.
  fold (shift_of q e). set (n := shift_of q e) in *.
  destruct (shr_state_shr M P e n _ Hst Hn) as [Hst' He'].
  destruct (shr (shr_record_of_loc q l) e n) as [mrs' e'].
  cbn [fst snd] in Hst', He'. subst e'.
  rewrite (rne_of_state _ _ _ Hst'). rewrite (Z.mul_comm (2 ^ n) P).
  set (mr := rne M (P * 2 ^ n)).
  assert (HP : 0 < P) by (destruct Hst; assumption).
  assert (Hpn : 0 < 2 ^ n) by (apply pow2_pos; lia).
  assert (HMq : q * P ≤ M < (q + 1) * P).
  { destruct Hst as (_ & rho & HM & Hrho & _ & _).
    rewrite shr_m_of_loc in HM. nia. }
  assert (Hmr : 0 ≤ mr ≤ 2 ^ 53).
  { split; [apply rne_nonneg; nia|].
    apply rne_upper; [nia|].
    assert (Hq1 : q + 1 ≤ 2 ^ (53 + n)).
    { destruct (Z.eq_dec q 0) as [->|Hq0].
      - pose proof (pow2_pos (53 + n) ltac:(lia)). lia.
      - pose proof (Zdigits2_bounds q ltac:(lia)) as [_ Hhi].
        assert (2 ^ Zdigits2 q ≤ 2 ^ (53 + n)); [|lia].
        apply Z.pow_le_mono_r; [lia|]. unfold n, shift_of, fexp64. lia. }
    rewrite pow2_split in Hq1 by lia. nia. }
  assert (HE : -1074 ≤ e + n) by (unfold n, shift_of, fexp64; lia).
  rewrite (shr_fexp_carry mr (e + n) Hmr HE).
  unfold round_closed.
  destruct (Z.eqb_spec mr (2 ^ 53)) as [Hc|Hc].
  - rewrite Hc. cbn [shr_m]. reflexivity.
  - cbn [shr_m]. destruct (Z.eqb_spec mr 0) as [->|Hz]; [reflexivity|].
    destruct mr as [|p|p]; try lia. reflexivity.
Qed.

Lemma SF_val_round_closed (mr E : Z) :
  0 ≤ mr ≤ 2 ^ 53 → -1074 ≤ E → (971 < E → 2 ^ 52 ≤ mr) →
  SF_val (round_closed mr E) = Z.min (mr * 2 ^ (E + 1074)) (2 ^ 2098).
Proof.
  intros Hmr HE Hbig. unfold round_closed.
  set (x := E + 1074) in *.
  assert (Hx : 0 ≤ x) by (unfold x; lia).
  pose proof (pow2_pos x Hx) as Hpx.
  destruct (Z.eqb_spec mr 0) as [->|Hz]; [simpl; lia|].
  destruct (Z.eqb_spec mr (2 ^ 53)) as [Hc|Hc].
  - rewrite Hc.
    destruct (Z.leb_spec (E + 1) 971) as [Hle|Hgt]; cbn [SF_val].
    + replace (E + 1 + 1074) with (1 + x) by (unfold x; lia).
      rewrite (pow2_split 1 x) by lia.
      assert (2 ^ x ≤ 2 ^ 2044) by (apply Z.pow_le_mono_r; unfold x; lia).
      change (2 ^ 2098) with (2 ^ 53 * (2 * 2 ^ 2044)).
      change (Z.pos (2 ^ 52)) with (2 ^ 52). change (2 ^ 53) with (2 ^ 52 * 2 ^ 1).
      lia.
    + assert (2 ^ 2045 ≤ 2 ^ x) by (apply Z.pow_le_mono_r; unfold x; lia).
      change (2 ^ 2098) with (2 ^ 53 * 2 ^ 2045). lia.
  - destruct (Z.leb_spec E 971) as [Hle|Hgt]; cbn [SF_val].
    + rewrite Z2Pos.id by lia. fold x.
      assert (2 ^ x ≤ 2 ^ 2045) by (apply Z.pow_le_mono_r; unfold x; lia).
      change (2 ^ 2098) with (2 ^ 53 * 2 ^ 2045). nia.
    + assert (2 ^ 2046 ≤ 2 ^ x) by (apply Z.pow_le_mono_r; unfold x; lia).
      specialize (Hbig Hgt).
      change (2 ^ 2098) with (2 ^ 52 * 2 ^ 2046). nia.
Qed.

Lemma round_closed_nonneg (mr E : Z) : SF_nonneg (round_closed mr E) = true.
Proof.
  unfold round_closed.
  repeat match goal with |- context [if ?b then _ else _] => destruct b end;
    reflexivity.
Qed.

(** When the exponent is above the subnormal range the quotient has all
    its 53 bits. *)
Lemma shift_of_normal (q e : Z) :
  0 ≤ q → 0 ≤ shift_of q e → -1074 < e + shift_of q e →
  shift_of q e = Zdigits2 q - 53 ∧ 0 < q.
Proof.
  intros Hq Hn HE. unfold shift_of, fexp64 in *.
  assert (Hd : 0 < Zdigits2 q + 1074 + e - 53) by lia.
  split; [lia|].
  destruct (Z.eq_dec q 0) as [->|]; [|lia].
  cbn [Zdigits2] in *. lia.
Qed.

Lemma quotient_bounds (M P q : Z) (l : location) :
  shr_state M P (shr_record_of_loc q l) →
  0 < P ∧ q * P ≤ M < (q + 1) * P ∧ M / P = q.
Proof.
  intros (HP & rho & HM & Hrho & _ & _). rewrite shr_m_of_loc in HM.
  split; [assumption|]. split; [nia|].
  symmetry. apply (Z.div_unique M P q rho); lia.
Qed.

Lemma SF_val_round_state (M P q e : Z) (l : location) :
  shr_state M P (shr_record_of_loc q l) → 0 ≤ q →
  0 ≤ shift_of q e →
  SF_val (binary_round_aux prec emax false q e l)
  = Z.min (roundq M P e) (2 ^ 2098).
Proof.
  intros Hst Hq Hn. rewrite (binary_round_aux_state M P q e l Hst Hq Hn).
  destruct (quotient_bounds _ _ _ _ Hst) as (HP & HMq & Hdiv).
  unfold roundq. rewrite Hdiv.
  set (n := shift_of q e) in *.
  assert (Hpn : 0 < 2 ^ n) by (apply pow2_pos; lia).
  apply SF_val_round_closed.
  - split; [apply rne_nonneg; nia|].
    apply rne_upper; [nia|].
    assert (Hq1 : q + 1 ≤ 2 ^ (53 + n)).
    { destruct (Z.eq_dec q 0) as [->|Hq0].
      - pose proof (pow2_pos (53 + n) ltac:(lia)). lia.
      - pose proof (Zdigits2_bounds q ltac:(lia)) as [_ Hhi].
        assert (2 ^ Zdigits2 q ≤ 2 ^ (53 + n)); [|lia].
        apply Z.pow_le_mono_r; [lia|]. unfold n, shift_of, fexp64. lia. }
    rewrite pow2_split in Hq1 by lia. nia.
  - unfold n, shift_of, fexp64. lia.
  - intros Hbig.
    destruct (shift_of_normal q e Hq Hn ltac:(fold n; lia)) as [Hn53 Hq0].
    fold n in Hn53.
    apply rne_lower; [nia|].
    pose proof (Zdigits2_bounds q Hq0) as [Hlo _].
    replace (Zdigits2 q - 1) with (52 + n) in Hlo by lia.
    rewrite pow2_split in Hlo by lia. nia.
Qed.
End Division.

Section Division2.
Local Open Scope Z_scope.

Lemma roundq_cancel (A B c e : Z) :
  0 < B → 0 < c → 0 ≤ shift_of (A / B) e →
  roundq (A * c) (B * c) e = roundq A B e.
Proof.
  intros HB Hc. unfold roundq.
  rewrite Z.div_mul_cancel_r by lia.
  set (n := shift_of (A / B) e). intros Hn.
  replace (B * c * 2 ^ n) with (B * 2 ^ n * c) by lia.
  rewrite rne_scale; [reflexivity| |assumption].
  pose proof (pow2_pos n Hn). nia.
Qed.

Lemma Zdigits2_div_pow2 (A B k : Z) :
  0 < B → B ≤ A → 0 ≤ k →
  Zdigits2 (A * 2 ^ k / B) = Zdigits2 (A / B) + k.
Proof.
  intros HB HA Hk.
  assert (Hq : 0 < A / B) by (apply Z.div_str_pos; lia).
  pose proof (Zdigits2_bounds (A / B) Hq) as [Hlo Hhi].
  pose proof (Zdigits2_pos (A / B) Hq) as Hd.
  pose proof (pow2_pos k Hk) as Hpk.
  pose proof (Z.mul_div_le A B HB) as Hle.
  pose proof (Z.mul_succ_div_gt A B HB) as Hgt.
  set (q := A / B) in *. set (d := Zdigits2 q) in *.
  assert (H1 : d + k - 1 < Zdigits2 (A * 2 ^ k / B)).
  { apply Zdigits2_ge; [lia|].
    apply Z.div_le_lower_bound; [lia|].
    replace (d + k - 1) with ((d - 1) + k) by lia.
    rewrite pow2_split by lia.
    assert (B * 2 ^ (d - 1) ≤ A) by nia.
    rewrite Z.mul_assoc. apply Z.mul_le_mono_nonneg_r; lia. }
  assert (H2 : Zdigits2 (A * 2 ^ k / B) ≤ d + k).
  { apply Zdigits2_le; [|lia|].
    - apply Z.div_pos; nia.
    - apply Z.div_lt_upper_bound; [lia|].
      rewrite pow2_split by lia.
      assert (A < B * 2 ^ d) by nia.
      rewrite Z.mul_assoc. apply Z.mul_lt_mono_pos_r; lia. }
  lia.
Qed.

Lemma Zdigits2_small (M k : Z) : 0 ≤ M → 0 ≤ k → M < 2 ^ k → Zdigits2 M ≤ k.
Proof. apply Zdigits2_le. Qed.

(** The rounded value depends on the exact quotient only. *)
Lemma roundq_scale (A B e k : Z) :
  0 ≤ A → 0 < B → 0 ≤ k → 0 ≤ shift_of (A / B) e →
  B ≤ A ∨ e ≤ -1074 →
  roundq (A * 2 ^ k) B (e - k) = roundq A B e.
Proof.
  intros HA HB Hk Hn Hcase. unfold roundq.
  pose proof (pow2_pos k Hk) as Hpk.
  assert (Hs : shift_of (A * 2 ^ k / B) (e - k) = shift_of (A / B) e + k).
  { destruct (Z.le_gt_cases B A) as [Hle|Hgt].
    - unfold shift_of. rewrite Zdigits2_div_pow2 by assumption.
      replace (Zdigits2 (A / B) + k + (e - k)) with (Zdigits2 (A / B) + e)
        by lia. lia.
    - destruct Hcase as [|He]; [lia|].
      rewrite (Z.div_small A B) in * by lia.
      assert (Hd : Zdigits2 (A * 2 ^ k / B) ≤ k).
      { apply Zdigits2_le; [apply Z.div_pos; nia|lia|].
        apply Z.div_lt_upper_bound; nia. }
      pose proof (Zdigits2_nonneg (A * 2 ^ k / B)).
      unfold shift_of, fexp64. cbn [Zdigits2]. lia. }
  rewrite Hs. set (n := shift_of (A / B) e) in *.
  rewrite (pow2_split n k) by lia.
  replace (B * (2 ^ n * 2 ^ k)) with (B * 2 ^ n * 2 ^ k) by lia.
  rewrite rne_scale by (try apply Z.mul_pos_pos; try apply pow2_pos; lia).
  f_equal. f_equal. lia.
Qed.

Lemma rne_mono_rat (A1 P1 A2 P2 : Z) :
  0 < P1 → 0 < P2 → A1 * P2 ≤ A2 * P1 → rne A1 P1 ≤ rne A2 P2.
Proof.
  intros H1 H2 Hle.
  rewrite <- (rne_scale A1 P1 P2) by assumption.
  rewrite <- (rne_scale A2 P2 P1) by assumption.
  rewrite (Z.mul_comm P2 P1). apply rne_mono; [nia|assumption].
Qed.

Lemma div_le_cross (A1 B1 A2 B2 : Z) :
  0 < B1 → 0 < B2 → 0 ≤ A1 → A1 * B2 ≤ A2 * B1 → A1 / B1 ≤ A2 / B2.
Proof.
  intros H1 H2 HA Hle.
  apply Z.div_le_lower_bound; [assumption|].
  pose proof (Z.mul_div_le A1 B1 H1).
  assert (0 ≤ A1 / B1) by (apply Z.div_pos; lia).
  assert (B1 * (B2 * (A1 / B1)) ≤ B1 * A2); [nia|].
  apply Z.mul_le_mono_pos_l in H3; lia.
Qed.

Lemma rne_mantissa_bounds (A B e : Z) :
  0 ≤ A → 0 < B → 0 ≤ shift_of (A / B) e →
  0 ≤ rne A (B * 2 ^ shift_of (A / B) e) ≤ 2 ^ 53.
Proof.
  intros HA HB Hn. set (q := A / B) in *. set (n := shift_of q e) in *.
  assert (Hpn : 0 < 2 ^ n) by (apply pow2_pos; lia).
  assert (Hq : 0 ≤ q) by (apply Z.div_pos; lia).
  pose proof (Z.mul_succ_div_gt A B HB) as Hgt. fold q in Hgt.
  split; [apply rne_nonneg; nia|].
  apply rne_upper; [nia|].
  assert (Hq1 : q + 1 ≤ 2 ^ (53 + n)).
  { destruct (Z.eq_dec q 0) as [Hq0|Hq0].
    - rewrite Hq0. pose proof (pow2_pos (53 + n) ltac:(lia)). lia.
    - pose proof (Zdigits2_bounds q ltac:(lia)) as [_ Hhi].
      assert (2 ^ Zdigits2 q ≤ 2 ^ (53 + n)); [|lia].
      apply Z.pow_le_mono_r; [lia|]. unfold n, shift_of, fexp64. lia. }
  rewrite pow2_split in Hq1 by lia. nia.
Qed.

(** Monotone in the exact quotient at a fixed exponent. *)
Lemma roundq_mono_same (A1 B1 A2 B2 e : Z) :
  0 ≤ A1 → 0 < B1 → 0 < B2 → A1 * B2 ≤ A2 * B1 →
  0 ≤ shift_of (A1 / B1) e →
  roundq A1 B1 e ≤ roundq A2 B2 e.
Proof.
  intros HA1 HB1 HB2 Hle Hn1.
  assert (HA2 : 0 ≤ A2) by nia.
  pose proof (div_le_cross A1 B1 A2 B2 HB1 HB2 HA1 Hle) as Hq.
  assert (Hq1 : 0 ≤ A1 / B1) by (apply Z.div_pos; lia).
  assert (Hn : shift_of (A1 / B1) e ≤ shift_of (A2 / B2) e).
  { destruct (Z.eq_dec (A1 / B1) 0) as [H0|H0].
    - rewrite H0. pose proof (Zdigits2_nonneg (A2 / B2)).
      unfold shift_of, fexp64. cbn [Zdigits2]. lia.
    - apply shift_of_mono; lia. }
  pose proof (rne_mantissa_bounds A1 B1 e HA1 HB1 Hn1) as Hmr1.
  pose proof (rne_mantissa_bounds A2 B2 e HA2 HB2 ltac:(lia)) as Hmr2.
  pose proof (shift_of_lower (A1 / B1) e) as HE1.
  unfold roundq.
  set (n1 := shift_of (A1 / B1) e) in *. set (n2 := shift_of (A2 / B2) e) in *.
  destruct (Z.eq_dec n1 n2) as [Heq|Hne].
  - rewrite <- Heq.
    pose proof (pow2_pos n1 Hn1) as Hp1.
    assert (rne A1 (B1 * 2 ^ n1) ≤ rne A2 (B2 * 2 ^ n1)).
    { apply rne_mono_rat; nia. }
    pose proof (pow2_pos (e + n1 + 1074) ltac:(lia)). nia.
  - assert (Hlt : n1 < n2) by lia.
    destruct (shift_of_normal (A2 / B2) e ltac:(lia) ltac:(fold n2; lia)
                ltac:(fold n2; lia)) as [Hn53 Hq2].
    fold n2 in Hn53.
    assert (2 ^ 52 ≤ rne A2 (B2 * 2 ^ n2)).
    { pose proof (pow2_pos n2 ltac:(lia)).
      apply rne_lower; [nia|].
      pose proof (Zdigits2_bounds (A2 / B2) Hq2) as [Hlo _].
      replace (Zdigits2 (A2 / B2) - 1) with (52 + n2) in Hlo by lia.
      rewrite pow2_split in Hlo by lia.
      pose proof (Z.mul_div_le A2 B2 HB2). nia. }
    set (x := e + n1 + 1074) in *.
    replace (e + n2 + 1074) with (x + (n2 - n1)) by (unfold x; lia).
    rewrite (pow2_split x (n2 - n1)) by lia.
    pose proof (pow2_pos x ltac:(lia)).
    assert (2 ^ 1 ≤ 2 ^ (n2 - n1)) by (apply Z.pow_le_mono_r; lia).
    change (2 ^ 53) with (2 ^ 52 * 2) in Hmr1. change (2 ^ 1) with 2 in *.
    assert (Hc : 0 < 2 ^ 52) by reflexivity.
    set (c := 2 ^ 52) in *. set (p := 2 ^ x) in *.
    set (q := 2 ^ (n2 - n1)) in *.
    set (a := rne A1 (B1 * 2 ^ n1)) in *. set (r := rne A2 (B2 * 2 ^ n2)) in *.
    apply Z.le_trans with (c * 2 * p); [nia|].
    apply Z.le_trans with (c * (p * q)); [nia|].
    apply Z.mul_le_mono_nonneg_r; nia.
Qed.
End Division2.

Section Division3.
Local Open Scope Z_scope.

Lemma rne_zero (P : Z) : 0 < P → rne 0 P = 0.
Proof.
  intros HP. unfold rne. rewrite Z.div_0_l, Z.mod_0_l by lia.
  destruct (Z.ltb_spec (2 * 0) P); [reflexivity|lia].
Qed.

Lemma roundq_zero (B e : Z) : 0 < B → 0 ≤ shift_of 0 e → roundq 0 B e = 0.
Proof.
  intros HB Hn. unfold roundq. rewrite Z.div_0_l by lia.
  rewrite rne_zero; [reflexivity|].
  pose proof (pow2_pos _ Hn). nia.
Qed.

Lemma shift_of_fine (q : Z) : 0 ≤ shift_of q (-2045).
Proof. unfold shift_of, fexp64. lia. Qed.

Lemma roundq_one (A e : Z) : roundq A 1 e = rounded A e.
Proof. unfold roundq, rounded. by rewrite Z.div_1_r, Z.mul_1_l. Qed.

(** The quotient of two positive floats: the exact quotient, rounded. *)
Lemma SF_val_div_finite (mx my : positive) (ex ey : Z) :
  valid_binary (S754_finite false mx ex) = true →
  valid_binary (S754_finite false my ey) = true →
  SF_nonneg (SFdiv prec emax (S754_finite false mx ex)
               (S754_finite false my ey)) = true
  ∧ SF_val (SFdiv prec emax (S754_finite false mx ex)
              (S754_finite false my ey))
    = Z.min (roundq (Zpos mx * 2 ^ (ex + 1074) * 2 ^ 2045)
               (Zpos my * 2 ^ (ey + 1074)) (-2045)) (2 ^ 2098).
Proof.
  intros Vx Vy.
  destruct (valid_finite _ _ _ Vx) as (Hex & Hmx & _ & _).
  destruct (valid_finite _ _ _ Vy) as (Hey & Hmy & _ & _).
  cbn [SFdiv xorb]. unfold SFdiv_core_binary. rewrite fexp_eq.
  set (d1 := Zdigits2 (Zpos mx)). set (d2 := Zdigits2 (Zpos my)).
  set (e' := Z.min (fexp64 (d1 + ex - (d2 + ey))) (ex - ey)).
  set (s := ex - ey - e').
  assert (Hs : 0 ≤ s) by (unfold s, e'; lia).
  assert (He' : -2045 ≤ e') by (unfold e', fexp64; lia).
  set (m' := match s with
             | 0 => Zpos mx
             | Zpos _ => Z.shiftl (Zpos mx) s
             | Zneg _ => 0
             end).
  assert (Hm' : m' = Zpos mx * 2 ^ s).
  { unfold m'. destruct s as [|p|p] eqn:Es; [lia| |lia].
    by rewrite Z.shiftl_mul_pow2. }
  pose proof (pow2_pos s Hs) as Hps.
  pose proof (Z.div_eucl_eq m' (Zpos my) ltac:(lia)) as Heq.
  pose proof (Z.mod_pos_bound m' (Zpos my) ltac:(lia)) as Hr.
  unfold Z.modulo in Hr.
  destruct (Z.div_eucl m' (Zpos my)) as [q r].
  assert (Hq : 0 ≤ q) by nia.
  pose proof (new_location_state (Zpos my) q r ltac:(lia) Hr Hq) as Hst.
  replace (q * Zpos my + r) with m' in Hst by lia.
  destruct (quotient_bounds _ _ _ _ Hst) as (_ & HMq & Hdiv).
  pose proof (Zdigits2_bounds (Zpos mx) ltac:(lia)) as [Hlo1 _].
  pose proof (Zdigits2_bounds (Zpos my) ltac:(lia)) as [_ Hhi2].
  pose proof (Zdigits2_pos (Zpos mx) ltac:(lia)) as Hd1.
  pose proof (Zdigits2_pos (Zpos my) ltac:(lia)) as Hd2.
  fold d1 in Hlo1, Hd1. fold d2 in Hhi2, Hd2.
  (* above the subnormal range the quotient has at least 53 bits *)
  assert (Hbits : -1074 < e' → 2 ^ 52 ≤ q).
  { intros Hgt.
    assert (Hs53 : 53 - d1 + d2 ≤ s) by (unfold s, e', fexp64 in *; lia).
    rewrite <- Hdiv. apply Z.div_le_lower_bound; [lia|].
    rewrite Hm'.
    assert (2 ^ (52 + d2) ≤ 2 ^ (d1 - 1 + s))
      by (apply Z.pow_le_mono_r; lia).
    rewrite pow2_split in H by lia.
    rewrite (pow2_split (d1 - 1) s) in H by lia.
    pose proof (pow2_pos (d1 - 1) ltac:(lia)).
    assert (Zpos my * 2 ^ 52 ≤ 2 ^ 52 * 2 ^ d2) by nia.
    assert (2 ^ (d1 - 1) * 2 ^ s ≤ Zpos mx * 2 ^ s)
      by (apply Z.mul_le_mono_nonneg_r; lia).
    lia. }
  assert (Hn : 0 ≤ shift_of q e').
  { destruct (Z.le_gt_cases e' (-1074)) as [Hle|Hgt].
    - unfold shift_of, fexp64. lia.
    - specialize (Hbits Hgt).
      assert (52 < Zdigits2 q) by (apply Zdigits2_ge; lia).
      unfold shift_of, fexp64. lia. }
  split; [apply binary_round_aux_nonneg; assumption|].
  rewrite (SF_val_round_state m' (Zpos my) q e' _ Hst Hq Hn). f_equal.
  rewrite <- (roundq_scale m' (Zpos my) e' (e' + 2045));
    [|lia|lia|lia|by rewrite Hdiv|].
  - replace (e' - (e' + 2045)) with (-2045) by lia.
    set (c := 2 ^ (ey + 1074)).
    assert (Hc : 0 < c) by (apply pow2_pos; lia).
    replace (Zpos mx * 2 ^ (ex + 1074) * 2 ^ 2045)
      with (m' * 2 ^ (e' + 2045) * c).
    + rewrite roundq_cancel; [reflexivity|lia|assumption|apply shift_of_fine].
    + rewrite Hm'. unfold c.
      rewrite <- !Z.mul_assoc. f_equal.
      rewrite <- !pow2_split by lia. f_equal. unfold s. lia.
  - destruct (Z.le_gt_cases e' (-1074)) as [Hle|Hgt]; [by right|left].
    specialize (Hbits Hgt).
    assert (1 * Zpos my ≤ q * Zpos my)
      by (apply Z.mul_le_mono_nonneg_r; lia).
    lia.
Qed.
End Division3.

(** ** Quotients of floats *)

Section FloatDivision.
Local Open Scope Z_scope.

Lemma finite_nonneg_of_spec (x : float) :
  Prim2SF x = S754_zero false ∨ (∃ m e, Prim2SF x = S754_finite false m e) →
  finite_nonneg x = true.
Proof.
  unfold finite_nonneg. rewrite classify_spec. unfold SF64classify.
  intros [->|(m & e & ->)]; [reflexivity|].
  unfold SFclassify.
  by match goal with |- context [if ?b then _ else _] => destruct b end.
Qed.

Lemma finite_nonneg_of_fval (x : float) :
  nonneg x = true → fval x < 2 ^ 2098 → finite_nonneg x = true.
Proof. intros Nx Fx. by apply finite_nonneg_of_spec, fval_finite. Qed.

Lemma fval_pos_finite (y : float) :
  finite_nonneg y = true → 0 < fval y →
  ∃ m e, Prim2SF y = S754_finite false m e.
Proof.
  intros [Hy|Hy]%finite_nonneg_spec Hpos; [|assumption].
  unfold fval in Hpos. rewrite Hy in Hpos. cbn in Hpos. lia.
Qed.

(** The value of a binary64 quotient is the rounded exact quotient. *)
Theorem fval_div (x y : float) :
  finite_nonneg x = true → finite_nonneg y = true → 0 < fval y →
  nonneg (x / y) = true
  ∧ fval (x / y)
    = Z.min (roundq (fval x * 2 ^ 2045) (fval y) (-2045)) (2 ^ 2098).
Proof.
  intros Hx Hy Hpos.
  destruct (fval_pos_finite y Hy Hpos) as (my & ey & Ey).
  pose proof (Prim2SF_valid x) as Vx. pose proof (Prim2SF_valid y) as Vy.
  unfold nonneg, fval in *. rewrite div_spec. unfold SF64div.
  rewrite Ey in *.
  destruct (finite_nonneg_spec x Hx) as [Ex|(mx & ex & Ex)]; rewrite Ex in *.
  - cbn [SFdiv xorb SF_nonneg]. split; [reflexivity|].
    change (SF_val (S754_zero false)) with 0.
    rewrite Z.mul_0_l, roundq_zero; [reflexivity|exact Hpos|apply shift_of_fine].
  - by apply SF_val_div_finite.
Qed.

Lemma div_mono (a b y : float) :
  finite_nonneg a = true → finite_nonneg b = true →
  finite_nonneg y = true → 0 < fval y →
  fval a ≤ fval b → fval (a / y) ≤ fval (b / y).
Proof.
  intros Ha Hb Hy Hpos Hab.
  destruct (fval_div a y Ha Hy Hpos) as [_ ->].
  destruct (fval_div b y Hb Hy Hpos) as [_ ->].
  apply Z.min_le_compat_r.
  pose proof (fval_nonneg a).
  apply roundq_mono_same; try lia; [nia|apply shift_of_fine].
Qed.

(** Dividing by a number that is at least 1 does not enlarge. *)
Lemma div_le_self (x y : float) :
  finite_nonneg x = true → finite_nonneg y = true →
  2 ^ 1074 ≤ fval y → fval (x / y) ≤ fval x.
Proof.
  intros Hx Hy Hy1.
  destruct (fval_div x y Hx Hy ltac:(lia)) as [_ ->].
  pose proof (fval_nonneg x) as Hx0.
  rewrite (SF_val_self (Prim2SF x)) at 2
    by (apply Prim2SF_valid || by apply finite_nonneg_nonneg).
  fold (fval x). apply Z.min_le_compat_r.
  destruct (Z.eq_dec (fval x) 0) as [->|Hne].
  { rewrite Z.mul_0_l, roundq_zero, rounded_zero;
      [reflexivity|lia|apply shift_of_fine]. }
  rewrite <- roundq_one.
  rewrite <- (roundq_scale (fval x) 1 (-1074) (2045 - 1074));
    [|lia|lia|lia|unfold shift_of, fexp64; lia|left; lia].
  replace (-1074 - (2045 - 1074)) with (-2045) by lia.
  apply roundq_mono_same; try lia; [|apply shift_of_fine].
  change (2 ^ 2045) with (2 ^ (2045 - 1074) * 2 ^ 1074).
  pose proof (pow2_pos (2045 - 1074) ltac:(lia)). nia.
Qed.

Lemma fval_100 : fval 100 = 100 * 2 ^ 1074.
Proof. vm_compute. reflexivity. Qed.

(** [tax_rate / 100] of a finite non-negative rate is finite and
    non-negative. *)
Lemma tax_decimal_finite (tax_rate : float) :
  finite_nonneg tax_rate = true → finite_nonneg (tax_rate / 100) = true.
Proof.
  intros Hr.
  assert (H100 : finite_nonneg 100 = true) by reflexivity.
  pose proof (div_le_self tax_rate 100 Hr H100) as Hle.
  rewrite fval_100 in Hle. specialize (Hle ltac:(lia)).
  apply finite_nonneg_of_fval; [by apply div_100_nonneg|].
  pose proof (finite_nonneg_fval tax_rate Hr). lia.
Qed.

Lemma tax_decimal_mono (r1 r2 : float) :
  finite_nonneg r1 = true → finite_nonneg r2 = true →
  (r1 <=? r2)%float = true → fval (r1 / 100) ≤ fval (r2 / 100).
Proof.
  intros H1 H2 Hle.
  rewrite leb_fval in Hle by (by apply finite_nonneg_nonneg).
  apply Z.leb_le in Hle.
  apply div_mono; try assumption; [reflexivity|].
  rewrite fval_100. lia.
Qed.
End FloatDivision.

(** ** The tax rate *)

Section RateProperties.
Local Open Scope Z_scope.

Lemma finite_nonneg_finite (x : float) :
  finite_nonneg x = true → nonneg x = true ∧ fval x < 2 ^ 2098.
Proof. auto using finite_nonneg_nonneg, finite_nonneg_fval. Qed.

(** An infinite subtotal: tax and total are infinite or NaN. *)
Lemma inf_amounts (s t : float) :
  Prim2SF s = S754_infinity false → nonneg t = true →
  (Prim2SF (s * t) = S754_nan ∨ Prim2SF (s * t) = S754_infinity false)
  ∧ (Prim2SF (s + s * t) = S754_nan
     ∨ Prim2SF (s + s * t) = S754_infinity false).
Proof.
  intros Hs Nt. rewrite add_spec, mul_spec, Hs.
  destruct (nonneg_cases t Nt) as [H|[(n & f & H)|H]]; rewrite H;
    cbn; auto.
Qed.

(** A larger tax fraction never gives a smaller tax or total. *)
Lemma rate_mono (s t t' : float) :
  nonneg s = true → finite_nonneg t = true → finite_nonneg t' = true →
  fval t ≤ fval t' →
  (s * t' <? s * t)%float = false ∧ (s + s * t' <? s + s * t)%float = false.
Proof.
  intros Ns Ht Ht' Hle.
  destruct (finite_nonneg_finite t Ht) as [Nt Ft].
  destruct (finite_nonneg_finite t' Ht') as [Nt' Ft'].
  destruct (nonneg_cases s Ns) as [Hs|[Hs|Hs]].
  3: { destruct (inf_amounts s t' Hs Nt') as [Hm Ha].
       split; by apply ltb_nan_or_inf. }
  all: assert (Fs : fval s < 2 ^ 2098)
    by (unfold fval; first [rewrite Hs; by cbn
        | destruct Hs as (m & e & Hs); pose proof (Prim2SF_valid s) as Vs;
          rewrite Hs in *; by apply SF_val_finite_bounds]).
  all: assert (nonneg (s * t) = true) by (by apply mul_nonneg).
  all: assert (nonneg (s * t') = true) by (by apply mul_nonneg).
  all: assert (fval (s * t) ≤ fval (s * t'))
    by (apply mul_mono; try assumption; lia).
  all: rewrite !ltb_fval by (try apply add_nonneg; assumption).
  all: split; apply Z.ltb_ge; [assumption|by apply add_mono].
Qed.

Lemma mul_zero_l (t : float) :
  finite_nonneg t = true → (0 * t)%float = 0%float.
Proof.
  intros Ht. apply Prim2SF_inj. rewrite mul_spec.
  change (Prim2SF 0) with (S754_zero false).
  by destruct (finite_nonneg_spec t Ht) as [->|(m & e & ->)].
Qed.

Lemma fval_1 : fval 1 = 2 ^ 1074.
Proof. vm_compute. reflexivity. Qed.

Lemma mul_one_r (s : float) : finite_nonneg s = true → (s * 1)%float = s.
Proof.
  intros Hs. destruct (finite_nonneg_finite s Hs) as [Ns Fs].
  assert (N1 : nonneg 1 = true) by reflexivity.
  assert (Hv : fval (s * 1) = fval s).
  { rewrite fval_mul by (try assumption; by rewrite fval_1).
    rewrite fval_1.
    unfold fval at 2. rewrite (SF_val_self (Prim2SF s))
      by (apply Prim2SF_valid || exact Ns).
    fold (fval s). f_equal.
    destruct (Z.eq_dec (fval s) 0) as [->|Hne].
    { by rewrite Z.mul_0_l, !rounded_zero. }
    pose proof (fval_nonneg s).
    rewrite (rounded_to_units (fval s) (-1074) (-2148));
      [|lia|lia|by apply shift_of_units].
    reflexivity. }
  assert (Nm : nonneg (s * 1) = true) by (by apply mul_nonneg; rewrite ?fval_1).
  apply Prim2SF_inj.
  pose proof (Prim2SF_valid s) as Vs. pose proof (Prim2SF_valid (s * 1)) as Vm.
  pose proof (SFcompare_val _ _ Vm Vs Nm Ns) as Hc.
  fold (fval (s * 1)) in Hc. fold (fval s) in Hc.
  rewrite Hv, Z.compare_refl in Hc.
  assert (Heq : (s * 1 =? s)%float = true).
  { rewrite FloatAxioms.eqb_spec. unfold SFeqb. by rewrite Hc. }
  destruct (eqb_true_cases _ _ Heq) as [->|(u & v & Hu & Hv')]; [done|].
  rewrite Hu, Hv'. unfold nonneg in Nm, Ns. rewrite Hu in Nm. rewrite Hv' in Ns.
  by destruct u, v.
Qed.
End RateProperties.

(** X11: raising the tax rate never lowers a tax or a total: for a
    non-empty list of well-formed items (their numbers floats) and
    finite rates [rate <= rate'], the subtotals are the same and no tax
    and no total at [rate'] is below the one at [rate]. *)
Theorem tax_rate_monotone (items : list LineItem) (rate rate' : float) :
  items ≠ [] →
  Forall (λ it, well_formed it = true) items →
  finite_nonneg rate = true → finite_nonneg rate' = true →
  (rate <=? rate')%float = true →
  ∃ r r', compute_items items rate = Ok r
    ∧ compute_items items rate' = Ok r'
    ∧ hd_subtotal r' = hd_subtotal r ∧ lowes_subtotal r' = lowes_subtotal r
    ∧ (hd_tax r' <? hd_tax r)%float = false
    ∧ (lowes_tax r' <? lowes_tax r)%float = false
    ∧ (hd_final r' <? hd_final r)%float = false
    ∧ (lowes_final r' <? lowes_final r)%float = false.
Proof.
  intros Hne Hwf Hr Hr' Hle.
  pose proof (tax_decimal_finite rate Hr) as Ht.
  pose proof (tax_decimal_finite rate' Hr') as Ht'.
  pose proof (tax_decimal_mono rate rate' Hr Hr' Hle) as Hmono.
  pose proof (np_sum_nonneg _ (totals_hd_nil _ Hne)
                (totals_hd_nonneg items Hwf)) as Nhd.
  pose proof (np_sum_nonneg _ (totals_lowes_nil _ Hne)
                (totals_lowes_nonneg items Hwf)) as Nlo.
  do 2 eexists. split; [by apply compute_items_well_formed|].
  split; [by apply compute_items_well_formed|].
  cbn [price_comparison hd_subtotal lowes_subtotal hd_tax lowes_tax
       hd_final lowes_final].
  destruct (rate_mono _ _ _ Nhd Ht Ht' Hmono) as [H1 H2].
  destruct (rate_mono _ _ _ Nlo Ht Ht' Hmono) as [H3 H4].
  repeat split; assumption.
Qed.

Lemma tax_rate_monotone_witness :
  ∃ r r',
    compute_items [ {| Qty := 10; Price_HD := 2.5; Price_Lowes := 2.75 |} ] 7
    = Ok r
    ∧ compute_items [ {| Qty := 10; Price_HD := 2.5; Price_Lowes := 2.75 |} ]
        7.1 = Ok r'
    ∧ (hd_final r' <? hd_final r)%float = false
    ∧ (lowes_final r' <? lowes_final r)%float = false.
Proof.
  destruct (tax_rate_monotone
    [ {| Qty := 10; Price_HD := 2.5; Price_Lowes := 2.75 |} ] 7 7.1)
    as (r & r' & Hr & Hr' & _ & _ & _ & _ & Hhd & Hlo).
  - discriminate.
  - repeat constructor.
  - reflexivity.
  - reflexivity.
  - reflexivity.
  - exists r, r'. repeat split; assumption.
Defined.

(** X12: for a non-empty list of well-formed items (their numbers
    floats) and a finite non-negative rate no subtotal is negative or
    NaN, and where a subtotal is finite (the sum did not overflow)
    neither are its tax and its total. *)
Theorem amounts_nonneg (items : list LineItem) (tax_rate : float) :
  items ≠ [] →
  Forall (λ it, well_formed it = true) items →
  finite_nonneg tax_rate = true →
  ∃ r, compute_items items tax_rate = Ok r
    ∧ nonneg (hd_subtotal r) = true ∧ nonneg (lowes_subtotal r) = true
    ∧ (finite_nonneg (hd_subtotal r) = true →
       nonneg (hd_tax r) = true ∧ nonneg (hd_final r) = true)
    ∧ (finite_nonneg (lowes_subtotal r) = true →
       nonneg (lowes_tax r) = true ∧ nonneg (lowes_final r) = true).
Proof.
  intros Hne Hwf Hr.
  destruct (finite_nonneg_finite _ (tax_decimal_finite tax_rate Hr)) as [Nt Ft].
  pose proof (np_sum_nonneg _ (totals_hd_nil _ Hne)
                (totals_hd_nonneg items Hwf)) as Nhd.
  pose proof (np_sum_nonneg _ (totals_lowes_nil _ Hne)
                (totals_lowes_nonneg items Hwf)) as Nlo.
  eexists. split; [by apply compute_items_well_formed|].
  cbn [price_comparison hd_subtotal lowes_subtotal hd_tax lowes_tax
       hd_final lowes_final].
  split; [assumption|]. split; [assumption|].
  split; intros [_ Fs]%finite_nonneg_finite.
  - assert (nonneg (np_sum (totals_hd items) * (tax_rate / 100)) = true)
      by (by apply mul_nonneg).
    split; [assumption|by apply add_nonneg].
  - assert (nonneg (np_sum (totals_lowes items) * (tax_rate / 100)) = true)
      by (by apply mul_nonneg).
    split; [assumption|by apply add_nonneg].
Qed.

Lemma amounts_nonneg_witness :
  ∃ r, compute_items
         [ {| Qty := 10; Price_HD := 2.5; Price_Lowes := 2.75 |} ] 7 = Ok r
    ∧ nonneg (hd_final r) = true ∧ nonneg (lowes_final r) = true.
Proof.
  destruct (amounts_nonneg
    [ {| Qty := 10; Price_HD := 2.5; Price_Lowes := 2.75 |} ] 7)
    as (r & Hr & _ & _ & Hhd & Hlo).
  - discriminate.
  - repeat constructor.
  - reflexivity.
  - exists r. split; [exact Hr|].
    vm_compute in Hr. injection Hr as <-.
    split; [apply Hhd | apply Hlo]; reflexivity.
Defined.

Lemma float_of_Z_0 : float_of_Z 0 = 0%float.
Proof. vm_compute. reflexivity. Qed.

Lemma Series_length_0 (s : Series) :
  Series_length s = 0%nat → s = Int64 [] ∨ s = Float64 [] ∨ s = Object [].
Proof.
  destruct s as [[|]|[|]|[|]]; try discriminate; auto.
Qed.

Lemma Series_mul_empty (qty price : Series) :
  Series_length qty = 0%nat →
  ∃ s, Series_mul qty price = Ok s ∧ Series_length s = 0%nat.
Proof.
  intros [->|[->| ->]]%Series_length_0; destruct price; cbn; eauto.
Qed.

Lemma tally_empty (total_hd total_lowes : Series) (tax_rate : float) :
  Series_length total_hd = 0%nat → Series_length total_lowes = 0%nat →
  finite_nonneg tax_rate = true →
  tally total_hd total_lowes tax_rate
  = Ok {| hd_subtotal := 0; lowes_subtotal := 0; hd_tax := 0; lowes_tax := 0;
          hd_final := 0; lowes_final := 0; winner := Lowes |}.
Proof.
  intros Hh Hl Hr.
  pose proof (mul_zero_l _ (tax_decimal_finite tax_rate Hr)) as Hz.
  pose proof float_of_Z_0 as H0.
  assert (Hpy : py_float 0 = Ok 0%float) by (vm_compute; reflexivity).
  destruct (Series_length_0 _ Hh) as [->|[->| ->]];
    destruct (Series_length_0 _ Hl) as [->|[->| ->]];
    unfold tally;
    cbn [Series_sum fold_left fmap list_fmap np_sum];
    change (wrap64 0) with 0%Z;
    rewrite ?bind_Ok;
    cbn [scalar_mul scalar_add scalar_float];
    rewrite ?Hpy, ?bind_Ok, ?H0, ?Hz, ?bind_Ok; reflexivity.
Qed.

(** X13: a table that has its three columns but no rows (every row
    deleted in the editor) prices to zero at every finite non-negative
    rate, Lowe's winning the tie; nothing is raised, unlike for an empty
    shopping list. *)
Theorem emptied_table (df : DataFrame) (qty price_hd price_lowes : Series)
    (tax_rate : float) :
  df !! "Qty" = Some qty → Series_length qty = 0%nat →
  df !! "Price_HD" = Some price_hd →
  df !! "Price_Lowes" = Some price_lowes →
  finite_nonneg tax_rate = true →
  calculation_engine df tax_rate
  = Ok {| hd_subtotal := 0; lowes_subtotal := 0; hd_tax := 0; lowes_tax := 0;
          hd_final := 0; lowes_final := 0; winner := Lowes |}.
Proof.
  intros Hq Hlen Hh Hl Hr.
  destruct (Series_mul_empty qty price_hd Hlen) as (th & Hth & Lth).
  destruct (Series_mul_empty qty price_lowes Hlen) as (tl & Htl & Ltl).
  rewrite calculation_engine_cases. unfold getitem.
  rewrite Hq, Hh, !bind_Ok, Hth, bind_Ok, Hl, bind_Ok, Htl, bind_Ok.
  by apply tally_empty.
Qed.

Lemma emptied_table_witness :
  calculation_engine
    {[ "Qty" := Float64 []; "Price_HD" := Float64 [];
       "Price_Lowes" := Float64 [] ]} 8.25
  = Ok {| hd_subtotal := 0; lowes_subtotal := 0; hd_tax := 0; lowes_tax := 0;
          hd_final := 0; lowes_final := 0; winner := Lowes |}.
Proof.
  apply (emptied_table _ (Float64 []) (Float64 []) (Float64 []));
    reflexivity.
Defined.

(** X14: at a rate in [0, 100] the tax of a retailer is never above its
    subtotal, for a non-empty list of well-formed items (their numbers
    floats). *)
Theorem tax_at_most_subtotal (items : list LineItem) (tax_rate : float) :
  items ≠ [] →
  Forall (λ it, well_formed it = true) items →
  valid_rate tax_rate = true →
  ∃ r, compute_items items tax_rate = Ok r
    ∧ (hd_subtotal r <? hd_tax r)%float = false
    ∧ (lowes_subtotal r <? lowes_tax r)%float = false.
Proof.
  intros Hne Hwf Hrate.
  unfold valid_rate in Hrate. apply andb_prop in Hrate as [Hr H100].
  pose proof (tax_decimal_finite tax_rate Hr) as Ht.
  destruct (finite_nonneg_finite _ Ht) as [Nt Ft].
  assert (Ht1 : (fval (tax_rate / 100) ≤ fval 1)%Z).
  { change 1%float with (100 / 100)%float.
    by apply tax_decimal_mono. }
  pose proof (np_sum_nonneg _ (totals_hd_nil _ Hne)
                (totals_hd_nonneg items Hwf)) as Nhd.
  pose proof (np_sum_nonneg _ (totals_lowes_nil _ Hne)
                (totals_lowes_nonneg items Hwf)) as Nlo.
  assert (Hbound : ∀ s, nonneg s = true →
            (s <? s * (tax_rate / 100))%float = false).
  { intros s Ns.
    destruct (nonneg_cases s Ns) as [Hs|[Hs|Hs]].
    3: { by apply ltb_nan_or_inf; auto. }
    all: assert (Hfs : finite_nonneg s = true)
      by (apply finite_nonneg_of_spec; auto).
    all: destruct (finite_nonneg_finite s Hfs) as [_ Fs].
    all: rewrite ltb_fval by (try apply mul_nonneg; assumption).
    all: apply Z.ltb_ge.
    all: rewrite <- (mul_one_r s Hfs) at 2.
    all: apply mul_mono; try assumption; try reflexivity; try lia.
    all: by rewrite fval_1. }
  eexists. split; [by apply compute_items_well_formed|].
  cbn [price_comparison hd_subtotal lowes_subtotal hd_tax lowes_tax].
  split; by apply Hbound.
Qed.

Lemma tax_at_most_subtotal_witness :
  ∃ r, compute_items
         [ {| Qty := 10; Price_HD := 2.5; Price_Lowes := 2.75 |} ] 100 = Ok r
    ∧ (hd_subtotal r <? hd_tax r)%float = false.
Proof.
  destruct (tax_at_most_subtotal
    [ {| Qty := 10; Price_HD := 2.5; Price_Lowes := 2.75 |} ] 100)
    as (r & Hr & Hhd & _).
  - discriminate.
  - repeat constructor.
  - reflexivity.
  - exists r. split; assumption.
Defined.

(** ** Printed amounts *)

(** What Python prints for these floats. *)
Example format_2f_python :
  format_2f 0.125 = "0.12" ∧ format_2f 0.375 = "0.38"
  ∧ format_2f 2.675 = "2.67" ∧ format_2f 29.425 = "29.43"
  ∧ format_2f 26.75 = "26.75" ∧ format_2f 0.005 = "0.01"
  ∧ format_2f 0.015 = "0.01" ∧ format_2f 1e-320 = "0.00"
  ∧ format_2f 0 = "0.00" ∧ format_2f (-0) = "-0.00"
  ∧ format_2f (-0.001) = "-0.00" ∧ format_2f (-1.5) = "-1.50"
  ∧ format_2f infinity = "inf" ∧ format_2f neg_infinity = "-inf"
  ∧ format_2f nan = "nan" ∧ format_2f 123456789.125 = "123456789.12"
  ∧ format_2f 0.995 = "0.99" ∧ format_2f 99.995 = "100.00"
  ∧ format_2f 1.005 = "1.00" ∧ format_2f 1e22 = "10000000000000000000000.00".
Proof. repeat apply conj; vm_compute; reflexivity. Qed.

Lemma rne_error (M P : Z) : (0 < P → 2 * Z.abs (M - rne M P * P) ≤ P)%Z.
Proof.
  intros HP. unfold rne.
  pose proof (Z.div_mod M P ltac:(lia)) as Hdm.
  pose proof (Z.mod_pos_bound M P HP) as Hr.
  set (q := (M / P)%Z) in *. set (r := (M mod P)%Z) in *.
  destruct (Z.ltb_spec (2 * r) P); [lia|].
  destruct (Z.eqb_spec (2 * r) P); [destruct (Z.even q)|]; lia.
Qed.

(** X21: a finite non-negative amount is printed as its number of cents
    [c]: the integer part of [c / 100], a point and two digits; [c] is
    within half a cent of the amount. *)
Theorem printed_within_half_cent (x : float) :
  finite_nonneg x = true →
  format_2f x
  = decimal (cents x / 100) +:+ "."
    +:+ decimal (cents x mod 100 / 10) +:+ decimal (cents x mod 10)
  ∧ (0 ≤ cents x)%Z
  ∧ (2 * Z.abs (100 * fval x - cents x * 2 ^ 1074) ≤ 2 ^ 1074)%Z.
Proof.
  intros Hx. split; [|split].
  - unfold format_2f.
    by destruct (finite_nonneg_spec x Hx) as [->|(m & e & ->)].
  - unfold cents. apply rne_nonneg; [by apply pow2_pos|].
    pose proof (fval_nonneg x). lia.
  - unfold cents. apply rne_error. by apply pow2_pos.
Qed.

Lemma printed_within_half_cent_witness :
  format_2f 29.425
  = decimal (cents 29.425 / 100) +:+ "."
    +:+ decimal (cents 29.425 mod 100 / 10) +:+ decimal (cents 29.425 mod 10).
Proof.
  apply (proj1 (printed_within_half_cent 29.425 eq_refl)).
Defined.

(** ** The page script *)

Section PageProperties.
Context `{Fitz}.
Context {CutList : Type} `{Backend CutList}.

Lemma ui_bind_Ok {A B} (m : ui CutList A) (k : A → ui CutList B)
    (st st' : page_state CutList) (a : A) :
  m st = (st', Ok a) → (m ≫= k) st = k a st'.
Proof. intros Hm. unfold mbind, ui_bind. by rewrite Hm. Qed.

Lemma ui_bind_Raise {A B} (m : ui CutList A) (k : A → ui CutList B)
    (st st' : page_state CutList) (e : exn) :
  m st = (st', Raise e) → (m ≫= k) st = (st', Raise e).
Proof. intros Hm. unfold mbind, ui_bind. by rewrite Hm. Qed.

Lemma emit_drawn (c : container) (w : widget CutList)
    (st : page_state CutList) :
  emit c w st = (drawn st [(c, w)], Ok tt).
Proof. reflexivity. Qed.

Lemma drawn_drawn (st : page_state CutList)
    (els els' : list (container * widget CutList)) :
  drawn (drawn st els) els' = drawn st (els ++ els').
Proof. unfold drawn. cbn. by rewrite <- app_assoc. Qed.

Lemma drawn_nil (st : page_state CutList) : drawn st [] = st.
Proof. destruct st. unfold drawn. cbn. by rewrite app_nil_r. Qed.

(** X15: an exception of the ingestion adapter is not caught: it
    leaves [analyze] after the scanning note was drawn, no error element
    is drawn and the service is not called. *)
Theorem analyze_ingestion_error_escapes (f : UploadedFile) (api_key : string)
    (tax_rate : float) (e : exn) (st : page_state CutList) :
  process_file f = Raise e →
  analyze f api_key tax_rate st
  = (drawn st [(Status, st_write "📄 Scanning pages for a 'Cut List' or 'Bill of Materials'...")],
     Raise e).
Proof.
  intros Hf. unfold analyze.
  rewrite (ui_bind_Ok _ _ _ _ _ (emit_drawn _ _ _)).
  apply ui_bind_Raise. unfold lift. by rewrite Hf.
Qed.

Lemma show_comparison_drawn (r : PricingResult) (st : page_state CutList) :
  show_comparison r st
  = (drawn st
       [ (Col1, if (hd_final r <? lowes_final r)%float
                then st_success ("🏆 HOME DEPOT: $" +:+ format_2f (hd_final r))
                else st_error ("Home Depot: $" +:+ format_2f (hd_final r)));
         (Col1, st_caption ("Subtotal: $" +:+ format_2f (hd_subtotal r)
                            +:+ " | Tax: $" +:+ format_2f (hd_tax r)));
         (Col2, if (hd_final r <? lowes_final r)%float
                then st_error ("Lowe's: $" +:+ format_2f (lowes_final r))
                else st_success ("🏆 LOWE'S: $" +:+ format_2f (lowes_final r)));
         (Col2, st_caption ("Subtotal: $" +:+ format_2f (lowes_subtotal r)
                            +:+ " | Tax: $" +:+ format_2f (lowes_tax r))) ],
     Ok tt).
Proof.
  unfold show_comparison. destruct (_ <? _)%float.
  all: repeat (erewrite ui_bind_Ok; [|apply emit_drawn]; rewrite ?drawn_drawn).
  all: rewrite emit_drawn, drawn_drawn; reflexivity.
Qed.

Lemma tab1_result (data : Response CutList) (tax_rate : float)
    (st : page_state CutList) :
  tab1 data tax_rate st
  = match shopping_list data with
    | None => (st, Ok tt)
    | Some records =>
        let df := pd_DataFrame records in
        let shown :=
          drawn st [ (Tab1, st_info "👇 **Interactive Table:** Click any cell to fix the AI's counts or prices.");
                     (Tab1, st_data_editor df) ] in
        match calculation_engine (edited df) tax_rate with
        | Raise e => (shown, Raise e)
        | Ok r =>
            (drawn (fst (show_comparison r (drawn shown [(Tab1, st_divider)])))
                   [(Tab1, st_warning disclaimer)], Ok tt)
        end
    end.
Proof.
  unfold tab1. destruct (shopping_list data) as [records|]; [|reflexivity].
  cbn zeta.
  repeat (erewrite ui_bind_Ok; [|apply emit_drawn]; rewrite ?drawn_drawn).
  destruct (calculation_engine _ _) as [r|e] eqn:Hr.
  - erewrite ui_bind_Ok; [|reflexivity].
    erewrite ui_bind_Ok; [|apply emit_drawn]. rewrite ?drawn_drawn.
    erewrite ui_bind_Ok; [|apply show_comparison_drawn].
    rewrite emit_drawn, show_comparison_drawn. reflexivity.
  - by apply ui_bind_Raise.
Qed.

Lemma tab2_result (data : Response CutList) (st : page_state CutList) :
  tab2 data st
  = (drawn st match cut_list data with
              | Some rows => [(Tab2, st_dataframe rows)]
              | None => []
              end, Ok tt).
Proof.
  unfold tab2. destruct (cut_list data); [reflexivity|].
  by rewrite drawn_nil.
Qed.

Lemma remember_result (data : Response CutList) (st : page_state CutList) :
  remember data st
  = ({| elements := elements st;
        session_state :=
          match session_state st !! "data" with
          | Some _ => session_state st
          | None => <["data" := data]> (session_state st)
          end |}, Ok tt).
Proof.
  unfold remember. destruct (session_state st !! "data") as [d|] eqn:Hd.
  - rewrite decide_True by eauto. by destruct st.
  - rewrite decide_False; [reflexivity|]. by intros [? ?].
Qed.

Lemma tab1_session (data : Response CutList) (tax_rate : float)
    (st : page_state CutList) :
  session_state (fst (tab1 data tax_rate st)) = session_state st.
Proof.
  rewrite tab1_result. destruct (shopping_list data); [|reflexivity].
  cbn zeta. destruct (calculation_engine _ _); [|reflexivity].
  by rewrite show_comparison_drawn.
Qed.

Lemma tab1_no_raise_elements (data : Response CutList) (tax_rate : float)
    (st : page_state CutList) :
  ∃ els r, tab1 data tax_rate st = (drawn st els, r).
Proof.
  rewrite tab1_result. destruct (shopping_list data); [|].
  - cbn zeta. destruct (calculation_engine _ _); [|eauto].
    rewrite show_comparison_drawn. cbn [fst]. rewrite !drawn_drawn. eauto.
  - exists [], (Ok tt). by rewrite drawn_nil.
Qed.

Lemma analyze_attempt (f : UploadedFile) (api_key : string)
    (tax_rate : float) (images : list string) (st : page_state CutList) :
  process_file f = Ok images →
  analyze f api_key tax_rate st
  = try_except (attempt api_key images tax_rate)
      (λ e, emit Status (st_error ("Error: " +:+ exn_str e)))
      (drawn st [(Status, st_write "📄 Scanning pages for a 'Cut List' or 'Bill of Materials'...")]).
Proof.
  intros Hf. unfold analyze.
  rewrite (ui_bind_Ok _ _ _ _ _ (emit_drawn _ _ _)).
  erewrite ui_bind_Ok; [|unfold lift; by rewrite Hf]. reflexivity.
Qed.

(** X16: once the images are there no exception leaves [analyze]; when
    the completion request or the JSON parser raises [e], all that is
    drawn after the scanning note is the error [Error: str(e)]. *)
Theorem analyze_catches_later_errors (f : UploadedFile) (api_key : string)
    (tax_rate : float) (images : list string) (st : page_state CutList) :
  process_file f = Ok images →
  snd (analyze f api_key tax_rate st) = Ok tt
  ∧ (∀ e, chat_completions_create api_key (user_content images) = Raise e →
       analyze f api_key tax_rate st
       = (drawn st [ (Status, st_write "📄 Scanning pages for a 'Cut List' or 'Bill of Materials'...");
                     (Status, st_error ("Error: " +:+ exn_str e)) ], Ok tt))
  ∧ (∀ result_text e,
       chat_completions_create api_key (user_content images) = Ok result_text →
       json_loads result_text = Raise e →
       analyze f api_key tax_rate st
       = (drawn st [ (Status, st_write "📄 Scanning pages for a 'Cut List' or 'Bill of Materials'...");
                     (Status, st_error ("Error: " +:+ exn_str e)) ], Ok tt)).
Proof.
  intros Hf. rewrite (analyze_attempt f api_key tax_rate images st Hf).
  set (st0 := drawn st _).
  split; [|split].
  - unfold try_except.
    destruct (attempt api_key images tax_rate st0) as [st' [[]|e]];
      reflexivity.
  - intros e He. unfold try_except, attempt.
    erewrite ui_bind_Raise; [|unfold lift; by rewrite He].
    rewrite emit_drawn. unfold st0. by rewrite drawn_drawn.
  - intros result_text e Hc He. unfold try_except, attempt.
    erewrite ui_bind_Ok; [|unfold lift; by rewrite Hc].
    erewrite ui_bind_Raise; [|unfold lift; by rewrite He].
    rewrite emit_drawn. unfold st0. by rewrite drawn_drawn.
Qed.
End PageProperties.

Section PageProperties2.
Context `{Fitz}.
Context {CutList : Type} `{Backend CutList}.

(** X17: when the calculation engine raises [e] (a column is missing),
    the page shows the table, then [Error: str(e)], and nothing else:
    no totals, and no cut list even if the response has one. *)
Theorem pricing_error_hides_cut_list (f : UploadedFile) (api_key : string)
    (tax_rate : float) (images : list string) (result_text : string)
    (data : Response CutList) (records : list (gmap string json))
    (e : exn) (st : page_state CutList) :
  process_file f = Ok images →
  chat_completions_create api_key (user_content images) = Ok result_text →
  json_loads result_text = Ok data →
  shopping_list data = Some records →
  calculation_engine (edited (pd_DataFrame records)) tax_rate = Raise e →
  snd (analyze f api_key tax_rate st) = Ok tt
  ∧ elements (fst (analyze f api_key tax_rate st))
    = (elements st
       ++ [ (Status, st_write "📄 Scanning pages for a 'Cut List' or 'Bill of Materials'...");
            (Status, status_update "Draft Complete!");
            (Tab1, st_info "👇 **Interactive Table:** Click any cell to fix the AI's counts or prices.");
            (Tab1, st_data_editor (pd_DataFrame records));
            (Status, st_error ("Error: " +:+ exn_str e)) ])%list.
Proof.
  intros Hf Hc Hj Hs He.
  rewrite (analyze_attempt f api_key tax_rate images st Hf).
  unfold try_except, attempt.
  erewrite ui_bind_Ok; [|unfold lift; by rewrite Hc].
  erewrite ui_bind_Ok; [|unfold lift; by rewrite Hj].
  erewrite ui_bind_Ok; [|apply emit_drawn]. rewrite drawn_drawn.
  erewrite ui_bind_Ok; [|apply remember_result].
  erewrite ui_bind_Raise; [|rewrite tab1_result, Hs; cbn zeta; by rewrite He].
  rewrite emit_drawn. split; [reflexivity|].
  cbn [fst elements drawn]. by rewrite <- !app_assoc.
Qed.

(** X18: [st.session_state['data']] keeps the first parsed response of
    the session: an analysis stores its response only if nothing is
    stored yet, and changes nothing else of the session state. *)
Theorem session_keeps_first_analysis (f : UploadedFile) (api_key : string)
    (tax_rate : float) (images : list string) (result_text : string)
    (data : Response CutList) (st : page_state CutList) :
  process_file f = Ok images →
  chat_completions_create api_key (user_content images) = Ok result_text →
  json_loads result_text = Ok data →
  session_state (fst (analyze f api_key tax_rate st))
  = match session_state st !! "data" with
    | Some _ => session_state st
    | None => <["data" := data]> (session_state st)
    end.
Proof.
  intros Hf Hc Hj.
  rewrite (analyze_attempt f api_key tax_rate images st Hf).
  unfold try_except, attempt.
  erewrite ui_bind_Ok; [|unfold lift; by rewrite Hc].
  erewrite ui_bind_Ok; [|unfold lift; by rewrite Hj].
  erewrite ui_bind_Ok; [|apply emit_drawn]. rewrite drawn_drawn.
  erewrite ui_bind_Ok; [|apply remember_result].
  set (st1 := {| elements := _; session_state := _ |}).
  pose proof (tab1_session data tax_rate st1) as Hs1.
  destruct (tab1 data tax_rate st1) as [st2 [[]|e]] eqn:Ht1; cbn [fst] in Hs1.
  - erewrite ui_bind_Ok; [|exact Ht1]. rewrite tab2_result. cbn [fst].
    cbn [drawn session_state]. by rewrite Hs1.
  - erewrite ui_bind_Raise; [|exact Ht1]. rewrite emit_drawn. cbn [fst].
    cbn [drawn session_state]. by rewrite Hs1.
Qed.

Lemma cents_mono (x y : float) : (fval x ≤ fval y)%Z → (cents x ≤ cents y)%Z.
Proof.
  intros Hle. unfold cents. apply rne_mono; [by apply pow2_pos|lia].
Qed.

(** X19: of the two totals, which are neither negative nor NaN, one is
    drawn as the success element with the trophy and the other as the
    error element, Home Depot's in the first column; the printed cents
    of the total with the trophy are never above those of the other. *)
Theorem trophy_amount_not_larger (r : PricingResult)
    (st : page_state CutList) :
  nonneg (hd_final r) = true → nonneg (lowes_final r) = true →
  show_comparison r st
  = (drawn st
       [ (Col1, if (hd_final r <? lowes_final r)%float
                then st_success ("🏆 HOME DEPOT: $" +:+ format_2f (hd_final r))
                else st_error ("Home Depot: $" +:+ format_2f (hd_final r)));
         (Col1, st_caption ("Subtotal: $" +:+ format_2f (hd_subtotal r)
                            +:+ " | Tax: $" +:+ format_2f (hd_tax r)));
         (Col2, if (hd_final r <? lowes_final r)%float
                then st_error ("Lowe's: $" +:+ format_2f (lowes_final r))
                else st_success ("🏆 LOWE'S: $" +:+ format_2f (lowes_final r)));
         (Col2, st_caption ("Subtotal: $" +:+ format_2f (lowes_subtotal r)
                            +:+ " | Tax: $" +:+ format_2f (lowes_tax r))) ],
     Ok tt)
  ∧ if (hd_final r <? lowes_final r)%float
    then (cents (hd_final r) ≤ cents (lowes_final r))%Z
    else (cents (lowes_final r) ≤ cents (hd_final r))%Z.
Proof.
  intros Nhd Nlo. split; [apply show_comparison_drawn|].
  rewrite ltb_fval by assumption.
  destruct (Z.ltb_spec (fval (hd_final r)) (fval (lowes_final r)));
    apply cents_mono; lia.
Qed.
End PageProperties2.

Section KeyGate.
Context `{Fitz}.
Context {CutList : Type}.

(** X20: the backend is used only on a click, with a file and a
    non-empty key: without one of the three the page is the same for any
    two backends, and in any case for two backends that differ only in
    what they answer to an empty key. *)
Theorem service_gate (B1 B2 : Backend CutList)
    (secrets : gmap string string) (typed_key : string)
    (uploaded_file : option UploadedFile) (button : bool) (tax_rate : float)
    (st : page_state CutList) :
  (uploaded_file = None ∨ button = false
   ∨ match secrets !! "OPENAI_API_KEY" with
     | Some key => key
     | None => typed_key
     end = "" →
   @page _ _ B1 secrets typed_key uploaded_file button tax_rate st
   = @page _ _ B2 secrets typed_key uploaded_file button tax_rate st)
  ∧ ((∀ api_key content, api_key ≠ "" →
        @chat_completions_create _ B1 api_key content
        = @chat_completions_create _ B2 api_key content) →
     (∀ text, @json_loads _ B1 text = @json_loads _ B2 text) →
     (∀ df, @edited _ B1 df = @edited _ B2 df) →
     @page _ _ B1 secrets typed_key uploaded_file button tax_rate st
     = @page _ _ B2 secrets typed_key uploaded_file button tax_rate st).
Proof.
  unfold page.
  set (api_key := match secrets !! "OPENAI_API_KEY" with
                  | Some key => key
                  | None => typed_key
                  end).
  split.
  - intros Hgate.
    destruct uploaded_file as [f|];
      destruct (String.eqb_spec api_key "") as [Hk|Hk]; try reflexivity.
    destruct button; [|reflexivity].
    by destruct Hgate as [?|[?|?]].
  - intros Hc Hj He.
    destruct uploaded_file as [f|];
      destruct (String.eqb_spec api_key "") as [Hk|Hk]; try reflexivity.
    destruct button; [|reflexivity].
    unfold analyze, try_except.
    unfold mbind, ui_bind. cbn [emit].
    unfold lift. destruct (process_file f) as [images|e]; [|reflexivity].
    rewrite (Hc api_key _ Hk).
    destruct (@chat_completions_create _ B2 api_key _) as [text|e];
      [|reflexivity].
    rewrite Hj. destruct (@json_loads _ B2 text) as [data|e]; [|reflexivity].
    unfold tab1, tab2, remember, mbind, ui_bind, lift.
    destruct (decide _); destruct (shopping_list data) as [records|];
      rewrite ?He; reflexivity.
Qed.
End KeyGate.

Lemma analyze_ingestion_error_escapes_witness :
  @analyze toy_fitz _ (toy_backend "{}" {| shopping_list := None; cut_list := None |})
    {| file_type := "application/pdf";
       file_bytes := list_byte_of_string "not a pdf" |} "sk-1" 7 empty_page
  = (drawn empty_page
       [(Status, st_write "📄 Scanning pages for a 'Cut List' or 'Bill of Materials'...")],
     Raise (FileDataError "Failed to open stream")).
Proof.
  apply (@analyze_ingestion_error_escapes toy_fitz). reflexivity.
Defined.

Lemma analyze_catches_later_errors_witness :
  snd (@analyze toy_fitz _
         (toy_backend "not json" {| shopping_list := None; cut_list := None |})
         {| file_type := "image/png"; file_bytes := list_byte_of_string "Ma" |}
         "sk-1" 7 empty_page) = Ok tt.
Proof.
  apply (proj1 (@analyze_catches_later_errors toy_fitz _ _
           {| file_type := "image/png";
              file_bytes := list_byte_of_string "Ma" |} "sk-1" 7 ["TWE="]
           empty_page eq_refl)).
Defined.

Lemma pricing_error_hides_cut_list_witness :
  elements (fst (@analyze toy_fitz _
    (toy_backend "{}"
       {| shopping_list :=
            Some [ {[ "Quantity" := JFloat 2; "Price_HD" := JFloat 3;
                      "Price_Lowes" := JFloat 4 ]} ];
          cut_list := Some ["Leg"; "Top"] |})
    {| file_type := "image/png"; file_bytes := list_byte_of_string "Ma" |}
    "sk-1" 7 empty_page))
  = [ (Status, st_write "📄 Scanning pages for a 'Cut List' or 'Bill of Materials'...");
      (Status, status_update "Draft Complete!");
      (Tab1, st_info "👇 **Interactive Table:** Click any cell to fix the AI's counts or prices.");
      (Tab1, st_data_editor
               (pd_DataFrame [ {[ "Quantity" := JFloat 2; "Price_HD" := JFloat 3;
                                  "Price_Lowes" := JFloat 4 ]} ]));
      (Status, st_error "Error: 'Qty'") ].
Proof.
  destruct (@pricing_error_hides_cut_list toy_fitz _
    (toy_backend "{}"
       {| shopping_list :=
            Some [ {[ "Quantity" := JFloat 2; "Price_HD" := JFloat 3;
                      "Price_Lowes" := JFloat 4 ]} ];
          cut_list := Some ["Leg"; "Top"] |})
    {| file_type := "image/png"; file_bytes := list_byte_of_string "Ma" |}
    "sk-1" 7 ["TWE="] "{}"
    {| shopping_list :=
         Some [ {[ "Quantity" := JFloat 2; "Price_HD" := JFloat 3;
                   "Price_Lowes" := JFloat 4 ]} ];
       cut_list := Some ["Leg"; "Top"] |}
    [ {[ "Quantity" := JFloat 2; "Price_HD" := JFloat 3;
         "Price_Lowes" := JFloat 4 ]} ]
    (KeyError "Qty") empty_page) as [_ Hels];
    [reflexivity|reflexivity|reflexivity|reflexivity
    |vm_compute; reflexivity|exact Hels].
Defined.

Lemma session_keeps_first_analysis_witness :
  session_state (fst (@analyze toy_fitz _
    (toy_backend "{}" {| shopping_list := None; cut_list := Some ["Top"] |})
    {| file_type := "image/png"; file_bytes := list_byte_of_string "Ma" |}
    "sk-1" 7
    {| elements := [];
       session_state :=
         {[ "data" := {| shopping_list := None; cut_list := Some ["Leg"] |} ]}
    |}))
  = {[ "data" := {| shopping_list := None; cut_list := Some ["Leg"] |} ]}.
Proof.
  rewrite (@session_keeps_first_analysis toy_fitz _
    (toy_backend "{}" {| shopping_list := None; cut_list := Some ["Top"] |})
    {| file_type := "image/png"; file_bytes := list_byte_of_string "Ma" |}
    "sk-1" 7 ["TWE="] "{}"
    {| shopping_list := None; cut_list := Some ["Top"] |}
    {| elements := [];
       session_state :=
         {[ "data" := {| shopping_list := None; cut_list := Some ["Leg"] |} ]}
    |}) by reflexivity.
  reflexivity.
Defined.

Lemma trophy_amount_not_larger_witness :
  (cents 26.75 ≤ cents 29.425)%Z.
Proof.
  apply (proj2 (@trophy_amount_not_larger (list string)
    (price_comparison 25 27.5 7) empty_page eq_refl eq_refl)).
Defined.

Lemma service_gate_witness :
  @page toy_fitz _
    (toy_backend "{}" {| shopping_list := None; cut_list := None |})
    {[ "OPENAI_API_KEY" := "" ]} "sk-typed"
    (Some {| file_type := "image/png";
             file_bytes := list_byte_of_string "Ma" |}) true 7 empty_page
  = @page toy_fitz _
      (toy_backend "[]" {| shopping_list := None; cut_list := Some ["Leg"] |})
      {[ "OPENAI_API_KEY" := "" ]} "sk-typed"
      (Some {| file_type := "image/png";
               file_bytes := list_byte_of_string "Ma" |}) true 7 empty_page.
Proof.
  apply (proj1 (@service_gate toy_fitz _ _ _ _ _ _ _ _ _)).
  right. right. reflexivity.
Defined.
